(** * PyLav: protocol client, track codec and query classifier

    A shallow embedding of the parts of PyLav that its specification talks
    about, with the properties of that specification stated and settled
    against the embedded code:

    - [query]     : pylav/query.py (regular expressions, [Query], classification)
    - [datarw]    : pylav/utils/vendored/lavalink_py/datarw.py
    - [decoder]   : pylav/players/tracks/decoder.py
    - [decoder_run] : the same, with the reader as an object, the logger
                      and the return statement
    - [websocket] : pylav/websocket.py (send queue, connect loop, frame
                    dispatch, reconnect probes)
    - [query_accessors]     : pylav/query.py (source setter, capabilities,
                              [query_to_string], [query_to_queue])
    - [node_features]       : pylav/constants/node_features.py
    - [env_var], [envvars]  : pylav/constants/config/env_var.py, pylav/envvars.py
    - [sponsorblock]        : pylav/nodes/api/responses/plugins/sponsorblock.py
    - [websocket_lifecycle] : pylav/websocket.py (read loop, closing)

    Python values are modelled as follows.  An [int] is a [Z].  [bytes] is a
    [list byte].  The strings of query.py and websocket.py are [string]s (code
    points below 256, on which Python's IGNORECASE folds exactly the ASCII
    letters); the strings handled by the codec are lists of code points.  A
    raised exception is a value of an error type; a dictionary is a finite
    map. *)

From Stdlib Require Import ZArith List String Ascii Bool Lia.
From Stdlib Require Import Init.Byte.
From Stdlib Require Strings.Byte.
From stdpp Require Import base option gmap strings list.
Import ListNotations.

Local Open Scope Z_scope.

(** ** Python built-ins on strings *)

Module py.

Definition chars (s : string) : list ascii := list_ascii_of_string s.
Definition str_of (l : list ascii) : string := string_of_list_ascii l.

Definition code (c : ascii) : N := N_of_ascii c.

Definition is_upper (c : ascii) : bool := ((65 <=? code c) && (code c <=? 90))%N.
Definition is_lower (c : ascii) : bool := ((97 <=? code c) && (code c <=? 122))%N.

Definition lower (c : ascii) : ascii :=
  if is_upper c then ascii_of_N (code c + 32) else c.
Definition upper (c : ascii) : ascii :=
  if is_lower c then ascii_of_N (code c - 32) else c.

(** [str.isspace] and the class [\s] on code points below 256. *)
Definition isspace (c : ascii) : bool :=
  let n := code c in
  (((9 <=? n) && (n <=? 13)) || ((28 <=? n) && (n <=? 32))
   || (n =? 133) || (n =? 160))%N.

Definition isdigit (c : ascii) : bool := ((48 <=? code c) && (code c <=? 57))%N.

Definition is_newline (c : ascii) : bool := (code c =? 10)%N.

Fixpoint lstrip (l : list ascii) : list ascii :=
  match l with
  | c :: l' => if isspace c then lstrip l' else l
  | [] => []
  end.

(** [s.strip()] *)
Definition strip (s : string) : string :=
  str_of (rev (lstrip (rev (lstrip (chars s))))).

Fixpoint is_prefix (p l : list ascii) : bool :=
  match p, l with
  | [], _ => true
  | a :: p', b :: l' => Ascii.eqb a b && is_prefix p' l'
  | _ :: _, [] => false
  end.

Fixpoint contains_chars (p l : list ascii) : bool :=
  is_prefix p l || match l with [] => false | _ :: l' => contains_chars p l' end.

(** [p in s] on strings *)
Definition contains (p s : string) : bool := contains_chars (chars p) (chars s).

(** [int(s)] on a string of ASCII digits, as matched by [(\d+)]. *)
Definition int_of_digits (l : list ascii) : Z :=
  fold_left (fun acc c => acc * 10 + (Z.of_N (code c) - 48)) l 0.

(** [s[:n]] *)
Definition slice_to (n : nat) (s : string) : string := str_of (firstn n (chars s)).

(** Exceptions raised by the modelled code; all are subclasses of
    [Exception]. *)
Inductive exn :=
| struct_error
| binascii_Error
| UnicodeDecodeError
| UnicodeEncodeError
| OverflowError
| ValueError
| IndexError
| KeyError
| AttributeError
| TypeError
| NameError
| Exception.

(** The outcome of a call: a returned value or a raised exception. *)
Inductive result (A : Type) :=
| Ok (a : A)
| Raise (e : exn).
Arguments Ok {A} a.
Arguments Raise {A} e.

(** A record handed to a logger: level, message, attached exception. *)
Inductive level := TRACE | DEBUG | VERBOSE | INFO | WARNING | ERROR | CRITICAL.
Record log_record := { lvl : level; msg : string; exc_info : option exn }.

(** Strings of the codec are sequences of code points. *)
Definition str := list Z.

(** A string literal as a [str]. *)
Definition lit (s : string) : str := map (fun c => Z.of_N (code c)) (chars s).

Definition str_eqb (a b : str) : bool := bool_decide (a = b).

End py.

(** ** The fragment of Python's [re] that query.py uses *)

Module regex.

Inductive cls_item :=
| CChar (c : ascii)
| CRange (lo hi : ascii)
| CDigit
| CSpace.

Inductive re :=
| Eps
| Lit (c : ascii)
| Cls (neg : bool) (items : list cls_item)
| Dot
| Seq (a b : re)
| Alt (a b : re)
| Star (greedy : bool) (r : re)
| Grp (name : string) (r : re)
| Bos
| Eos
| NegLook (r : re).

Definition item_match (it : cls_item) (x : ascii) : bool :=
  match it with
  | CChar c => Ascii.eqb c x
  | CRange lo hi => ((py.code lo <=? py.code x) && (py.code x <=? py.code hi))%N
  | CDigit => py.isdigit x
  | CSpace => py.isspace x
  end.

Definition in_items (items : list cls_item) (x : ascii) : bool :=
  existsb (fun it => item_match it x) items.

(** Membership in a character set; under IGNORECASE either case of [x] may
    belong to the set. *)
Definition cls_match (ci : bool) (items : list cls_item) (x : ascii) : bool :=
  in_items items x
  || (ci && (in_items items (py.lower x) || in_items items (py.upper x))).

Definition chr_eq (ci : bool) (a x : ascii) : bool :=
  if ci then Ascii.eqb (py.lower a) (py.lower x) else Ascii.eqb a x.

(** Captured groups, most recent first. *)
Definition caps := list (string * list ascii).

Definition cont := nat -> list ascii -> caps -> option caps.

(** Backtracking matcher in continuation-passing style: [i] is the position
    reached in the subject, [s] what is left of it.  Alternatives are tried
    left to right, a greedy star tries one more iteration first, a lazy
    star tries to stop first, as [re] does. *)
Fixpoint run (ci : bool) (r : re) (i : nat) (s : list ascii) (c : caps) (k : cont)
  {struct r} : option caps :=
  match r with
  | Eps => k i s c
  | Lit a =>
      match s with
      | x :: s' => if chr_eq ci a x then k (S i) s' c else None
      | [] => None
      end
  | Cls neg items =>
      match s with
      | x :: s' => if xorb neg (cls_match ci items x) then k (S i) s' c else None
      | [] => None
      end
  | Dot =>
      match s with
      | x :: s' => if py.is_newline x then None else k (S i) s' c
      | [] => None
      end
  | Seq a b => run ci a i s c (fun i' s' c' => run ci b i' s' c' k)
  | Alt a b =>
      match run ci a i s c k with
      | Some c' => Some c'
      | None => run ci b i s c k
      end
  | Star greedy r' =>
      (fix loop (fuel : nat) (i : nat) (s : list ascii) (c : caps) {struct fuel}
         : option caps :=
         if greedy then
           match
             match fuel with
             | O => None
             | S fuel' =>
                 run ci r' i s c
                   (fun i' s' c' => if (i <? i')%nat then loop fuel' i' s' c' else None)
             end
           with
           | Some c' => Some c'
           | None => k i s c
           end
         else
           match k i s c with
           | Some c' => Some c'
           | None =>
               match fuel with
               | O => None
               | S fuel' =>
                   run ci r' i s c
                     (fun i' s' c' => if (i <? i')%nat then loop fuel' i' s' c' else None)
               end
           end) (S (List.length s)) i s c
  | Grp name r' =>
      run ci r' i s c (fun i' s' c' => k i' s' ((name, firstn (i' - i) s) :: c'))
  | Bos => if (i =? 0)%nat then k i s c else None
  | Eos =>
      match s with
      | [] => k i s c
      | [x] => if py.is_newline x then k i s c else None
      | _ => None
      end
  | NegLook r' =>
      match run ci r' i s c (fun _ _ c' => Some c') with
      | Some _ => None
      | None => k i s c
      end
  end.

(** A compiled pattern: the expression and its IGNORECASE flag. *)
Record pattern := { expr : re; ignorecase : bool }.

(** [pattern.match(s)] *)
Definition match_ (p : pattern) (s : string) : option caps :=
  run (ignorecase p) (expr p) 0%nat (py.chars s) [] (fun _ _ c => Some c).

Fixpoint search_from (p : pattern) (i : nat) (s : list ascii) : option caps :=
  match run (ignorecase p) (expr p) i s [] (fun _ _ c => Some c) with
  | Some c => Some c
  | None =>
      match s with
      | _ :: s' => search_from p (S i) s'
      | [] => None
      end
  end.

(** [pattern.search(s)]: the leftmost position at which the pattern matches. *)
Definition search (p : pattern) (s : string) : option caps :=
  search_from p 0%nat (py.chars s).

(** [match.group(name)] *)
Fixpoint group (name : string) (c : caps) : option string :=
  match c with
  | [] => None
  | (n, v) :: c' => if String.eqb n name then Some (py.str_of v) else group name c'
  end.

(** Pattern constructors. *)
Fixpoint lits (l : list ascii) : re :=
  match l with
  | [] => Eps
  | [c] => Lit c
  | c :: l' => Seq (Lit c) (lits l')
  end.
Definition Str (s : string) : re := lits (py.chars s).
Definition Opt (r : re) : re := Alt r Eps.
Definition Plus (r : re) : re := Seq r (Star true r).
Fixpoint seqs (l : list re) : re :=
  match l with
  | [] => Eps
  | [r] => r
  | r :: l' => Seq r (seqs l')
  end.
Fixpoint alts (l : list re) : re :=
  match l with
  | [] => Eps
  | [r] => r
  | r :: l' => Alt r (alts l')
  end.

End regex.

(** ** pylav/query.py *)

Module query.

Import regex.

Definition notslash : re := Cls true [CChar "/"].
Definition digit : re := Cls false [CDigit].
Definition space : re := Cls false [CSpace].
Definition http_s : re := seqs [Str "http"; Opt (Lit "s"); Str "://"].
(** [(?:http://|https://|)] *)
Definition scheme_or_none : re := alts [Str "http://"; Str "https://"; Eps].
(** [(?:\?.*|)] *)
Definition query_part : re := Alt (Seq (Lit "?") (Star true Dot)) Eps.
(** [[a-zA-Z\d\\-_]]: the last item is the range from backslash to underscore. *)
Definition id_cls : re :=
  Cls false [CRange "a" "z"; CRange "A" "Z"; CDigit; CRange "\" "_"].
(** [[a-zA-Z0-9-_]] *)
Definition sc_cls : re :=
  Cls false [CRange "a" "z"; CRange "A" "Z"; CRange "0" "9"; CChar "-"; CChar "_"].

Definition CLYPIT_REGEX : pattern :=
  {| expr := seqs [Opt (Alt (Str "http://")
                            (Seq (Str "https://") (Opt (Seq (Str "www") Dot))));
                   Str "clyp.it/"; Star true Dot];
     ignorecase := true |}.

Definition GETYARN_REGEX : pattern :=
  {| expr := seqs [Opt (Alt (Str "http://")
                            (Seq (Str "https://") (Opt (Seq (Str "www") Dot))));
                   Str "getyarn"; Dot; Str "io/yarn-clip/"; Star true Dot];
     ignorecase := true |}.

Definition MIXCLOUD_REGEX : pattern :=
  {| expr := seqs [Str "http"; Opt (Lit "s"); Str "://";
                   Opt (Seq (alts [Str "www"; Str "beta"; Str "m"]) (Lit "."));
                   Str "mixcloud"; Dot; Str "com/"; Plus notslash; Lit "/";
                   NegLook (alts [Str "stream"; Str "uploads"; Str "favorites";
                                  Str "listens"; Str "playlists"]);
                   Plus notslash; Opt (Lit "/")];
     ignorecase := true |}.

Definition OCRREMIX_PATTERN : pattern :=
  {| expr := seqs [Opt (seqs [Str "http"; Opt (Lit "s"); Str "://"; Opt (Str "www.");
                              Str "ocremix.org/remix/"]);
                   Grp "id" (Seq (Str "OCR") (Plus digit));
                   Opt (Star true Dot)];
     ignorecase := true |}.

Definition PORNHUB_REGEX : pattern :=
  {| expr := seqs [Bos; Str "http"; Opt (Lit "s"); Str "://";
                   Opt (Seq (Plus (Cls false [CRange "a" "z"])) Dot);
                   Str "pornhub."; Alt (Str "com") (Str "net");
                   Str "/view_video.php?viewkey=";
                   Plus (Cls false [CRange "a" "z"; CRange "A" "Z"; CDigit]);
                   Star true Dot; Eos];
     ignorecase := true |}.

Definition REDDIT_REGEX : pattern :=
  {| expr := Alt (seqs [Str "https://"; Alt (Str "www") (Str "old");
                        Str ".reddit.com/"; Str "r/"; Plus notslash; Lit "/";
                        Plus notslash; Lit "/"; Plus notslash;
                        Opt (seqs [Opt (Lit "/"); Opt (Plus notslash); Opt (Lit "/")])])
                 (seqs [Str "https://v.redd.it/"; Plus notslash; Opt (Star true Dot)]);
     ignorecase := true |}.

Definition SOUNDGASM_REGEX : pattern :=
  {| expr := seqs [Str "http"; Opt (Lit "s"); Str "://soundgasm.net/u/";
                   Grp "path" (seqs [Grp "author" (Plus notslash); Lit "/";
                                     Plus notslash])];
     ignorecase := true |}.

Definition TIKTOK_REGEX : pattern :=
  {| expr := seqs [Bos; Str "https://"; Opt (Alt (Str "www.") (Str "m."));
                   Str "tiktok.com/@"; Grp "user" (Plus notslash); Str "/video/";
                   Grp "video" (Plus digit); Star true Dot; Eos];
     ignorecase := true |}.

Definition SPOTIFY_REGEX : pattern :=
  {| expr := seqs [Opt http_s; Opt (Str "www."); Str "open.spotify.com/";
                   Opt (seqs [Str "user/"; Plus id_cls; Lit "/"]);
                   Grp "type" (alts [Str "track"; Str "album"; Str "playlist";
                                     Str "artist"]);
                   Lit "/"; Grp "identifier" (Plus id_cls)];
     ignorecase := true |}.

Definition APPLE_MUSIC_REGEX : pattern :=
  {| expr := seqs [Opt http_s; Opt (Str "www."); Str "music.apple.com/";
                   Opt (Grp "countrycode"
                          (seqs [Cls false [CRange "a" "z"; CRange "A" "Z"];
                                 Cls false [CRange "a" "z"; CRange "A" "Z"];
                                 Lit "/"]));
                   Grp "type" (alts [Str "album"; Str "playlist"; Str "artist"]);
                   Opt (Seq (Lit "/")
                          (Plus (Cls false [CRange "a" "z"; CRange "A" "Z"; CDigit;
                                            CChar "\"; CChar "-"])));
                   Lit "/";
                   Grp "identifier"
                     (Plus (Cls false [CRange "a" "z"; CRange "A" "Z"; CDigit;
                                       CChar "."]));
                   Opt (Seq (Str "?i=") (Grp "identifier2" (Plus digit)))];
     ignorecase := true |}.

Definition BANDCAMP_REGEX : pattern :=
  {| expr := seqs [Bos; Str "http"; Opt (Lit "s"); Str "://";
                   Alt (Seq (Plus (Cls true [CChar "."])) (Lit ".")) Eps;
                   Str "bandcamp.com"; Lit "/"; Alt (Str "track") (Str "album");
                   Lit "/"; Plus id_cls; Opt (Lit "/"); query_part; Eos];
     ignorecase := true |}.

Definition NICONICO_REGEX : pattern :=
  {| expr := seqs [scheme_or_none; Alt (Str "www.") Eps; Str "nicovideo.jp/watch/";
                   Seq (Str "sm") (Plus digit); query_part; Eos];
     ignorecase := true |}.

Definition TWITCH_REGEX : pattern :=
  {| expr := seqs [Bos; Str "https://"; Opt (Alt (Str "www.") (Str "go."));
                   Str "twitch.tv/"; Plus notslash; Eos];
     ignorecase := true |}.

Definition VIMEO_REGEX : pattern :=
  {| expr := seqs [Bos; Str "https://vimeo"; Dot; Str "com/"; Plus digit;
                   query_part; Eos];
     ignorecase := true |}.

(** [(?:http://|https://|)(?:www\.|)(?:m\.|)soundcloud\.com/] *)
Definition sc_host : re :=
  seqs [scheme_or_none; Alt (Str "www.") Eps; Alt (Str "m.") Eps;
        Str "soundcloud.com/"].

(** The pattern text of SOUND_CLOUD_REGEX is the concatenation of five
    string literals, each ending in [|]: after the fifth alternative comes
    a sixth, empty one. *)
Definition SOUND_CLOUD_REGEX : pattern :=
  {| expr :=
       alts [seqs [Bos; scheme_or_none; Str "soundcloud.app.goo.gl/"; Plus sc_cls;
                   Opt (Lit "/"); query_part; Eos];
             seqs [Bos; sc_host; Plus sc_cls; Lit "/"; Plus sc_cls; Opt (Lit "/");
                   query_part; Eos];
             seqs [Bos; sc_host; Plus sc_cls; Lit "/"; Plus sc_cls; Str "/s-";
                   Plus sc_cls; query_part; Eos];
             seqs [Bos; sc_host; Plus sc_cls; Str "/likes"; Opt (Lit "/");
                   query_part; Eos];
             seqs [Bos; sc_host; Plus sc_cls; Lit "/"; Plus sc_cls; Lit "/";
                   Plus sc_cls; query_part; Eos];
             Eps];
     ignorecase := true |}.

Definition YOUTUBE_REGEX : pattern :=
  {| expr := seqs [scheme_or_none; Alt (Str "www.") Eps;
                   Opt (Grp "music" (Str "music.")); Str "youtu";
                   Alt (Str "be.com") (Str ".be")];
     ignorecase := true |}.

Definition SPEAK_REGEX : pattern :=
  {| expr := seqs [Bos; Grp "source" (Str "speak"); Lit ":"; Star false space;
                   Grp "query" (Star true Dot); Eos];
     ignorecase := true |}.

Definition GCTSS_REGEX : pattern :=
  {| expr := seqs [Bos; Grp "source" (Str "tts://"); Star false space;
                   Grp "query" (Star true Dot); Eos];
     ignorecase := true |}.

Definition SEARCH_REGEX : pattern :=
  {| expr := seqs [Bos;
                   Grp "source" (alts [Str "ytm"; Str "yt"; Str "sp"; Str "sc";
                                       Str "am"]);
                   Str "search:"; Star false space; Grp "query" (Star true Dot);
                   Eos];
     ignorecase := true |}.

Definition HTTP_REGEX : pattern :=
  {| expr := seqs [Bos; Str "http"; Opt (Lit "s"); Str "://"];
     ignorecase := true |}.

Definition YOUTUBE_TIMESTAMP : pattern :=
  {| expr := seqs [Cls false [CChar "&"; CChar "|"; CChar "?"]; Str "t=";
                   Grp "1" (Plus digit); Opt (Lit "s")];
     ignorecase := false |}.

Definition YOUTUBE_INDEX : pattern :=
  {| expr := seqs [Str "&index="; Grp "1" (Plus digit)];
     ignorecase := false |}.

(** pylav.localfiles.LocalFile is not part of the sources at hand; of a
    local file the classifier reads its [path] and formats it with [str]. *)
Record LocalFile := { path : string; as_str : string }.

(** The value held in [Query._query]: a string or a resolved local file. *)
Inductive query_value :=
| QStr (s : string)
| QLocal (f : LocalFile).

Record Query := {
  _query : query_value;
  _source : string;
  _search : bool;
  start_time : Z;
  index : Z;
  _type : string;
  _recursive : bool
}.

(** [Query.__init__]; [None] stands for the default [query_type=None].
    [query_type or "single"] replaces [None] and the empty string. *)
Definition __init__ (query : query_value) (source : string) (search : bool)
  (start_time index : Z) (query_type : option string) (recursive : bool) : Query :=
  {| _query := query;
     _source := source;
     _search := search;
     start_time := start_time;
     index := index;
     _type := match query_type with
              | Some t => if String.eqb t "" then "single" else t
              | None => "single"
              end;
     _recursive := recursive |}.

(** [cls(query, source)] with every other argument at its default. *)
Definition cls (query : string) (source : string) : Query :=
  __init__ (QStr query) source false 0 0 None false.

(** [cls(query, source, search=True)] *)
Definition cls_search (query : string) (source : string) : Query :=
  __init__ (QStr query) source true 0 0 None false.

(** [cls(query, source, query_type=query_type)] *)
Definition cls_typed (query : string) (source : string) (query_type : string) : Query :=
  __init__ (QStr query) source false 0 0 (Some query_type) false.

Definition group_int (c : caps) : Z :=
  match group "1" c with
  | Some g => py.int_of_digits (py.chars g)
  | None => 0
  end.

Definition process_youtube (query : string) (music : bool) : Query :=
  let start_time :=
    match search YOUTUBE_TIMESTAMP query with
    | Some m => group_int m
    | None => 0
    end in
  let _has_index := py.contains "&index=" query in
  let index :=
    if _has_index then
      match search YOUTUBE_INDEX query with
      | Some m => group_int m - 1
      | None => 0
      end
    else 0 in
  let '(query_type, index) :=
    if py.contains "&list=" query && py.contains "watch?" query then ("playlist", 0)
    else if py.contains "playlist?" query then ("playlist", index)
    else if py.contains "list=" query then
      ((if _has_index then "single" else "playlist"), 0)
    else ("single", index) in
  __init__ (QStr query) (if music then "YouTube Music" else "YouTube") false
    start_time index (Some query_type) false.

Definition process_spotify (query : string) : Query :=
  let query_type :=
    if py.contains "/playlist/" query then "playlist"
    else if py.contains "/album/" query then "album"
    else "single" in
  cls_typed query "Spotify" query_type.

Definition process_soundcloud (query : string) : Query :=
  let query_type :=
    if py.contains "/sets/" query then
      if py.contains "?in=" query then "single" else "playlist"
    else "single" in
  cls_typed query "SoundCloud" query_type.

Definition process_bandcamp (query : string) : Query :=
  let query_type := if py.contains "/album/" query then "album" else "single" in
  cls_typed query "Bandcamp" query_type.

Definition source (q : Query) : string := _source q.

Definition is_spotify (q : Query) : bool := String.eqb (source q) "Spotify".
Definition is_apple_music (q : Query) : bool := String.eqb (source q) "Apple Music".
Definition is_youtube_music (q : Query) : bool := String.eqb (source q) "YouTube Music".
Definition is_youtube (q : Query) : bool :=
  String.eqb (source q) "YouTube" || is_youtube_music q.
Definition is_soundcloud (q : Query) : bool := String.eqb (source q) "SoundCloud".
Definition is_local (q : Query) : bool := String.eqb (source q) "Local Files".
Definition is_search (q : Query) : bool := _search q.
Definition is_speak (q : Query) : bool := String.eqb (source q) "speak".
Definition is_gctts (q : Query) : bool := String.eqb (source q) "Google TTS".

(** [f"{self._query}"] *)
Definition fmt (v : query_value) : string :=
  match v with
  | QStr s => s
  | QLocal f => as_str f
  end.

(** [Query.query_identifier].  [None] is a raised exception: slicing a local
    file, or reading [.path] of a string. *)
Definition query_identifier (q : Query) : option query_value :=
  if is_search q then
    if is_youtube_music q then Some (QStr ("ytmsearch:" +:+ fmt (_query q)))
    else if is_youtube q then Some (QStr ("ytsearch:" +:+ fmt (_query q)))
    else if is_spotify q then Some (QStr ("spsearch:" +:+ fmt (_query q)))
    else if is_apple_music q then Some (QStr ("amsearch:" +:+ fmt (_query q)))
    else if is_soundcloud q then Some (QStr ("scsearch:" +:+ fmt (_query q)))
    else if is_speak q then
      match _query q with
      | QStr s => Some (QStr ("speak:" +:+ py.slice_to 200 s))
      | QLocal _ => None
      end
    else if is_gctts q then Some (QStr ("tts://" +:+ fmt (_query q)))
    else Some (QStr ("ytsearch:" +:+ fmt (_query q)))
  else if is_local q then
    match _query q with
    | QLocal f => Some (QStr (path f))
    | QStr _ => None
    end
  else Some (_query q).

Definition is_match (p : pattern) (s : string) : bool :=
  match match_ p s with Some _ => true | None => false end.

(** [Query.__process_urls]: the first pattern that matches decides. *)
Definition __process_urls (query : string) : option Query :=
  match match_ YOUTUBE_REGEX query with
  | Some m =>
      let music := group "music" m in
      Some (process_youtube query
              (match music with Some g => negb (String.eqb g "") | None => false end))
  | None =>
  if is_match SPOTIFY_REGEX query then Some (process_spotify query)
  else if is_match APPLE_MUSIC_REGEX query then Some (cls query "Apple Music")
  else if is_match SOUND_CLOUD_REGEX query then Some (process_soundcloud query)
  else if is_match TWITCH_REGEX query then Some (cls query "Twitch")
  else match match_ GCTSS_REGEX query with
  | Some m =>
      let query := py.strip (default "" (group "query" m)) in
      Some (cls_search query "Google TTS")
  | None =>
  match match_ SPEAK_REGEX query with
  | Some m =>
      let query := py.strip (default "" (group "query" m)) in
      Some (cls_search query "speak")
  | None =>
  if is_match CLYPIT_REGEX query then Some (cls query "Clyp.it")
  else if is_match GETYARN_REGEX query then Some (cls query "GetYarn")
  else if is_match MIXCLOUD_REGEX query then Some (cls query "Mixcloud")
  else if is_match OCRREMIX_PATTERN query then Some (cls query "OverClocked ReMix")
  else if is_match PORNHUB_REGEX query then Some (cls query "Pornhub")
  else if is_match REDDIT_REGEX query then Some (cls query "Reddit")
  else if is_match SOUNDGASM_REGEX query then Some (cls query "SoundGasm")
  else if is_match TIKTOK_REGEX query then Some (cls query "TikTok")
  else if is_match BANDCAMP_REGEX query then Some (process_bandcamp query)
  else if is_match NICONICO_REGEX query then Some (cls query "Niconico")
  else if is_match VIMEO_REGEX query then Some (cls query "Vimeo")
  else if is_match HTTP_REGEX query then Some (cls query "HTTP")
  else None
  end end end.

(** [Query.__process_search] *)
Definition __process_search (query : string) : option Query :=
  match match_ SEARCH_REGEX query with
  | Some m =>
      let src := default "" (group "source" m) in
      let query := py.strip (default "" (group "query" m)) in
      if String.eqb src "ytm" then Some (cls_search query "YouTube Music")
      else if String.eqb src "yt" then Some (cls_search query "YouTube Music")
      else if String.eqb src "sp" then Some (cls_search query "Spotify")
      else if String.eqb src "sc" then Some (cls_search query "SoundCloud")
      else if String.eqb src "am" then Some (cls_search query "Apple Music")
      else Some (cls_search query "YouTube Music")
  | None => None
  end.

(** [Query.from_string_noawait] on a string. *)
Definition from_string_noawait (query : string) : Query :=
  match __process_urls query with
  | Some output => output
  | None =>
      match __process_search query with
      | Some output => output
      | None => cls_search query "YouTube Music"
      end
  end.

(** [Query.from_string] on a string.  [__process_local] needs the file
    system and pylav.localfiles; it is taken as a parameter, [None] when it
    raises. *)
Definition from_string (__process_local : string -> option Query) (query : string)
  : Query :=
  match __process_urls query with
  | Some output => output
  | None =>
      match __process_search query with
      | Some output => output
      | None =>
          match __process_local query with
          | Some output => output
          | None => cls_search query "YouTube Music"
          end
      end
  end.

(** [Query.with_index]: the constructor is called with six keyword
    arguments; [recursive] is not among them and takes its default. *)
Definition with_index (self : Query) (index : Z) : Query :=
  __init__ (_query self) (_source self) (_search self) (start_time self) index
    (Some (_type self)) false.

End query.


(** ** pylav/utils/vendored/lavalink_py/datarw.py *)

Module datarw.

Import py.

Definition bytes := list byte.

Definition byte_val (b : byte) : Z := Z.of_N (Byte.to_N b).

Definition byte_of (z : Z) : byte :=
  default Byte.x00 (Byte.of_N (Z.to_N (z mod 256))).

(** Big-endian value of a byte string, and the [n] big-endian bytes of [v]. *)
Definition be_value (b : bytes) : Z :=
  fold_left (fun acc x => acc * 256 + byte_val x) b 0.

Fixpoint be_bytes (n : nat) (v : Z) : bytes :=
  match n with
  | O => []
  | S n' => byte_of (v / 256 ^ Z.of_nat n') :: be_bytes n' v
  end.

(** [struct.unpack] of an unsigned big-endian field of [n] bytes: the buffer
    must have exactly the size of the format. *)
Definition unpack_unsigned (n : nat) (b : bytes) : result Z :=
  if (List.length b =? n)%nat then Ok (be_value b) else Raise struct_error.

(** [struct.unpack(">i", b)] *)
Definition unpack_i (b : bytes) : result Z :=
  match unpack_unsigned 4 b with
  | Ok v => Ok (if v <? 2 ^ 31 then v else v - 2 ^ 32)
  | Raise e => Raise e
  end.

(** [struct.pack] of an unsigned big-endian field of [n] bytes. *)
Definition pack_unsigned (n : nat) (v : Z) : result bytes :=
  if (0 <=? v) && (v <? 256 ^ Z.of_nat n) then Ok (be_bytes n v)
  else Raise struct_error.

(** [struct.pack(">i", v)] *)
Definition pack_i (v : Z) : result bytes :=
  if (- 2 ^ 31 <=? v) && (v <? 2 ^ 31) then Ok (be_bytes 4 (v mod 2 ^ 32))
  else Raise struct_error.

(** The codecs that datarw.py calls and does not define: three of Python's
    own, and [read_utfm] of the vendored module utfm_codec, whose source is
    not at hand. *)
Class Codecs := {
  (** [base64.b64decode(ts)] *)
  b64decode : string -> result bytes;
  (** [b.decode()] *)
  decode : bytes -> result str;
  (** [s.encode("utf8")] *)
  encode : str -> result bytes;
  (** [utfm_codec.read_utfm(utf_len, utf_bytes)] *)
  utfm_codec_read_utfm : nat -> bytes -> result str
}.

(** *** DataReader: a state monad over what is left of the buffer *)

Definition reader (A : Type) : Type := bytes -> result (A * bytes).

Definition ret {A : Type} (a : A) : reader A := fun buf => Ok (a, buf).

Definition bind {A B : Type} (m : reader A) (f : A -> reader B) : reader B :=
  fun buf =>
    match m buf with
    | Ok (a, buf') => f a buf'
    | Raise e => Raise e
    end.

Definition lift {A : Type} (r : result A) : reader A :=
  fun buf =>
    match r with
    | Ok a => Ok (a, buf)
    | Raise e => Raise e
    end.

Declare Scope reader_scope.
Delimit Scope reader_scope with reader.
Notation "'do' x <- m ; k" := (bind m (fun x => k))
  (at level 10, x name, m at level 100, k at level 200) : reader_scope.
Local Open Scope reader_scope.

Section reader.
Context `{Codecs}.

(** [DataReader.__init__]: the buffer the reader starts from. *)
Definition DataReader (ts : string) : result bytes := b64decode ts.

(** [BytesIO.read(count)] returns at most [count] bytes. *)
Definition _read (count : nat) : reader bytes :=
  fun buf => Ok (firstn count buf, skipn count buf).

Definition read_byte : reader bytes := _read 1.

(** The result of unpacking ["B"] is an integer; the cast does not convert. *)
Definition read_boolean : reader Z :=
  do b <- read_byte; lift (unpack_unsigned 1 b).

Definition read_unsigned_short : reader Z :=
  do b <- _read 2; lift (unpack_unsigned 2 b).

Definition read_int : reader Z :=
  do b <- _read 4; lift (unpack_i b).

Definition read_long : reader Z :=
  do b <- _read 8; lift (unpack_unsigned 8 b).

Definition read_utf : reader str :=
  do text_length <- read_unsigned_short;
  do b <- _read (Z.to_nat text_length);
  lift (decode b).

Definition read_utfm : reader str :=
  do text_length <- read_unsigned_short;
  do utf_string <- _read (Z.to_nat text_length);
  lift (utfm_codec_read_utfm (Z.to_nat text_length) utf_string).

Definition read_nullable_utf : reader (option str) :=
  do present <- read_boolean;
  if present =? 0 then ret None else do s <- read_utf; ret (Some s).

Definition read_nullable_utfm : reader (option str) :=
  do present <- read_boolean;
  if present =? 0 then ret None else do s <- read_utfm; ret (Some s).

End reader.

(** *** DataWriter: the buffer written so far is threaded through every
    call and survives a raised exception. *)

Definition writer : Type := bytes -> result unit * bytes.

Definition wseq (a b : writer) : writer :=
  fun buf =>
    match a buf with
    | (Ok _, buf') => b buf'
    | (Raise e, buf') => (Raise e, buf')
    end.

Definition wraise (e : exn) : writer := fun buf => (Raise e, buf).

Section writer.
Context `{Codecs}.

(** [BytesIO.write(data)] *)
Definition _write (data : bytes) : writer := fun buf => (Ok tt, buf ++ data).

Definition write_byte (byte : bytes) : writer := _write byte.

(** Packing happens before the write: a failed [struct.pack] writes nothing. *)
Definition write_packed (enc : result bytes) : writer :=
  match enc with
  | Ok data => _write data
  | Raise e => wraise e
  end.

Definition write_boolean (boolean : bool) : writer :=
  write_packed (pack_unsigned 1 (if boolean then 1 else 0)).

Definition write_unsigned_short (short : Z) : writer :=
  write_packed (pack_unsigned 2 short).

Definition write_int (integer : Z) : writer := write_packed (pack_i integer).

Definition write_long (long_value : Z) : writer :=
  write_packed (pack_unsigned 8 long_value).

Definition write_utf (utf_string : str) : writer :=
  match encode utf_string with
  | Raise e => wraise e
  | Ok utf =>
      let byte_len := Z.of_nat (List.length utf) in
      if 65535 <? byte_len then wraise OverflowError
      else wseq (write_unsigned_short byte_len) (_write utf)
  end.

Definition write_nullable_utf (utf_string : option str) : writer :=
  match utf_string with
  | None => write_boolean false
  | Some s => wseq (write_boolean true) (write_utf s)
  end.

(** [DataWriter.finish]: the size header, tagged with bit 30, then the
    buffer. *)
Definition finish (buf : bytes) : result bytes :=
  let byte_len := Z.of_nat (List.length buf) in
  let flags := Z.lor byte_len (Z.shiftl 1 30) in
  match pack_i flags with
  | Ok enc_flags => Ok (enc_flags ++ buf)
  | Raise e => Raise e
  end.

End writer.

End datarw.

(** ** pylav/players/tracks/decoder.py *)

Module decoder.

Import py datarw.
Local Open Scope reader_scope.

(** The dictionary handed to [from_dict], as a record.  The class
    LavalinkTrackObject itself is declared outside the sources at hand;
    [decoder_run.from_dict] says what is taken of it. *)
Record TrackInfo := {
  title : str;
  author : str;
  length : Z;
  identifier : str;
  isStream : Z;
  uri : option str;
  isSeekable : bool;
  sourceName : str;
  position : Z;
  thumbnail : option str;
  isrc : option str;
  probeInfo : option str
}.

Record LavalinkTrackObject := {
  encoded : string;
  info : TrackInfo
}.

(** The variables assigned before the [try] (steps 1 to 9). *)
Record fixed := {
  version : Z;
  f_title : str;
  f_author : str;
  f_length : Z;
  f_identifier : str;
  f_is_stream : Z;
  f_uri : option str;
  f_source : str
}.

(** The variables assigned inside the [try]; all start as [None]. *)
Record optional := {
  o_thumbnail : option str;
  o_isrc : option str;
  o_probe : option str
}.

Section decoder.
Context `{Codecs}.

(** Lines 27 to 36 of decode_track. *)
Definition fixed_fields : reader fixed :=
  do x <- read_int;
  let flags := Z.shiftr (Z.land x 0xC0000000) 30 in
  do version <- (if negb (Z.land flags 1 =? 0)
                 then do b <- read_byte; lift (unpack_unsigned 1 b)
                 else ret 1);
  do title <- read_utfm;
  do author <- read_utfm;
  do length <- read_long;
  do identifier <- read_utf;
  do is_stream <- read_boolean;
  do uri <- read_nullable_utf;
  do source <- read_utf;
  ret {| version := version; f_title := title; f_author := author;
         f_length := length; f_identifier := identifier;
         f_is_stream := is_stream; f_uri := uri; f_source := source |}.

Definition youtube_thumbnail (identifier : str) : str :=
  lit "https://img.youtube.com/vi/" ++ identifier ++ lit "/mqdefault.jpg".

(** [_ = reader.read_long()], the last statement of the [try]. *)
Definition read_position (o : optional) (buf : bytes) : optional * option exn :=
  match read_long buf with
  | Ok _ => (o, None)
  | Raise e => (o, Some e)
  end.

Definition is_in (s : str) (l : list string) : bool :=
  existsb (fun x => str_eqb s (lit x)) l.

(** The body of the [try] (lines 41 to 54): the assignments made before an
    exception is raised stay, and the exception is handed to [except]. *)
Definition source_fields (source identifier : str) (buf : bytes)
  : optional * option exn :=
  let none := {| o_thumbnail := None; o_isrc := None; o_probe := None |} in
  if str_eqb source (lit "youtube") then
    read_position {| o_thumbnail := Some (youtube_thumbnail identifier);
                     o_isrc := None; o_probe := None |} buf
  else if is_in source ["deezer"; "spotify"; "applemusic"] then
    match read_nullable_utfm buf with
    | Raise e => (none, Some e)
    | Ok (isrc, buf1) =>
        match read_nullable_utfm buf1 with
        | Raise e => ({| o_thumbnail := None; o_isrc := isrc; o_probe := None |}, Some e)
        | Ok (thumbnail, buf2) =>
            read_position {| o_thumbnail := thumbnail; o_isrc := isrc;
                             o_probe := None |} buf2
        end
    end
  else if str_eqb source (lit "yandexmusic") then
    match read_nullable_utfm buf with
    | Raise e => (none, Some e)
    | Ok (thumbnail, buf1) =>
        read_position {| o_thumbnail := thumbnail; o_isrc := None;
                         o_probe := None |} buf1
    end
  else if is_in source ["local"; "http"] then
    match read_utfm buf with
    | Raise e => (none, Some e)
    | Ok (probe, buf1) =>
        read_position {| o_thumbnail := None; o_isrc := None;
                         o_probe := Some probe |} buf1
    end
  else read_position none buf.

(** The [except Exception] clause: one DEBUG record carrying the exception. *)
Definition except_log (e : option exn) : list log_record :=
  match e with
  | Some exc => [{| lvl := DEBUG; msg := "Failed to decode track"; exc_info := Some exc |}]
  | None => []
  end.

(** Lines 61 to 77: the dictionary that the return statement builds from
    the variables. *)
Definition build (track : string) (f : fixed) (o : optional) : LavalinkTrackObject :=
  {| encoded := track;
     info := {| title := f_title f;
                author := f_author f;
                length := f_length f;
                identifier := f_identifier f;
                isStream := f_is_stream f;
                uri := f_uri f;
                isSeekable := (f_is_stream f =? 0);
                sourceName := f_source f;
                position := 0;
                thumbnail := o_thumbnail o;
                isrc := o_isrc o;
                probeInfo := o_probe o |} |}.

(** [decode_track] as far as the call of [from_dict]: the dictionary that
    is handed to it, and the records logged on the way.  The return
    statement itself, which can raise, is [decoder_run.return_statement];
    [decoder_run.decode_track] is the whole call. *)
Definition decode_track (track : string) : result (LavalinkTrackObject * list log_record) :=
  match DataReader track with
  | Raise e => Raise e
  | Ok buf =>
      match fixed_fields buf with
      | Raise e => Raise e
      | Ok (f, rest) =>
          let '(o, exc) := source_fields (f_source f) (f_identifier f) rest in
          Ok (build track f o, except_log exc)
      end
  end.

(** The layout as the specification words it for local and http tracks: the
    probe info read as a nullable modified-UTF8 string.  Everything else
    is as in [source_fields]. *)
Definition source_fields_nullable_probe (source identifier : str) (buf : bytes)
  : optional * option exn :=
  if is_in source ["local"; "http"] then
    match read_nullable_utfm buf with
    | Raise e => ({| o_thumbnail := None; o_isrc := None; o_probe := None |}, Some e)
    | Ok (probe, buf1) =>
        read_position {| o_thumbnail := None; o_isrc := None; o_probe := probe |} buf1
    end
  else source_fields source identifier buf.

Definition decode_track_nullable_probe (track : string)
  : result (LavalinkTrackObject * list log_record) :=
  match DataReader track with
  | Raise e => Raise e
  | Ok buf =>
      match fixed_fields buf with
      | Raise e => Raise e
      | Ok (f, rest) =>
          let '(o, exc) :=
            source_fields_nullable_probe (f_source f) (f_identifier f) rest in
          Ok (build track f o, except_log exc)
      end
  end.

(** Steps 1 to 9 on a track string: the reader is created and the fixed
    fields are read; the result is those fields and what is left to read. *)
Definition steps_1_to_9 (track : string) : result (fixed * bytes) :=
  match DataReader track with
  | Raise e => Raise e
  | Ok buf => fixed_fields buf
  end.

(** The exception, if any, that the [try] of steps 10 and 11 ends with. *)
Definition raised_in_tail (f : fixed) (rest : bytes) : option exn :=
  (source_fields (f_source f) (f_identifier f) rest).2.

(** A track object carries the fixed fields [f]. *)
Definition carries_fixed (f : fixed) (i : TrackInfo) : Prop :=
  title i = f_title f /\ author i = f_author f /\ length i = f_length f
  /\ identifier i = f_identifier f /\ isStream i = f_is_stream f
  /\ uri i = f_uri f /\ sourceName i = f_source f
  /\ isSeekable i = (f_is_stream f =? 0) /\ position i = 0.

(** Every optional field that is not null holds what a read of the [try]
    returned for it (or, for youtube, the synthesized thumbnail): a field
    that no statement filled is null. *)
Definition filled_by_reads (f : fixed) (rest : bytes) (i : TrackInfo) : Prop :=
  (forall v, isrc i = Some v ->
     is_in (f_source f) ["deezer"; "spotify"; "applemusic"] = true
     /\ exists r1, read_nullable_utfm rest = Ok (Some v, r1))
  /\ (forall v, probeInfo i = Some v ->
       is_in (f_source f) ["local"; "http"] = true
       /\ exists r1, read_utfm rest = Ok (v, r1))
  /\ (forall v, thumbnail i = Some v ->
       (f_source f = lit "youtube" /\ v = youtube_thumbnail (f_identifier f))
       \/ (is_in (f_source f) ["deezer"; "spotify"; "applemusic"] = true
           /\ exists x r1 r2, read_nullable_utfm rest = Ok (x, r1)
                              /\ read_nullable_utfm r1 = Ok (Some v, r2))
       \/ (f_source f = lit "yandexmusic"
           /\ exists r1, read_nullable_utfm rest = Ok (Some v, r1))).

End decoder.

End decoder.

(** ** pylav/players/tracks/decoder.py as it runs: the reader object, the
    logger and the return statement *)

Module decoder_run.

Import py datarw.

(** A [BytesIO]: what it holds and the position of its next read. *)
Record BytesIO := { getvalue : bytes; tell : nat }.

(** What a call of [decode_track] can find and change: the objects that
    exist, each named by its place in the list, and the records the logger
    of the module was handed so far. *)
Record world := { objects : list BytesIO; records : list log_record }.

Definition set_objects (w : world) (v : list BytesIO) : world :=
  {| objects := v; records := records w |}.

(** [LOGGER.debug(...)] and the like. *)
Definition log (l : list log_record) (w : world) : world :=
  {| objects := objects w; records := records w ++ l |}.

(** What is left to read of a [BytesIO]. *)
Definition unread (o : BytesIO) : bytes := skipn (tell o) (getvalue o).

(** A method of [DataReader]: [self._buf] is the object named [self].  What
    a method did to the object stays when it raises. *)
Definition method (A : Type) : Type := nat -> world -> result A * world.

Definition ret {A : Type} (a : A) : method A := fun _ w => (Ok a, w).

Definition bind {A B : Type} (m : method A) (f : A -> method B) : method B :=
  fun self w =>
    match m self w with
    | (Ok a, w') => f a self w'
    | (Raise e, w') => (Raise e, w')
    end.

Definition lift {A : Type} (r : result A) : method A := fun _ w => (r, w).

Declare Scope method_scope.
Delimit Scope method_scope with method.
Notation "'do' x <- m ; k" := (bind m (fun x => k))
  (at level 10, x name, m at level 100, k at level 200) : method_scope.
Local Open Scope method_scope.

(** The names that the module binds before [decode_track] is called: those
    of its import statements (lines 1 to 7), LOGGER (line 9) and its two
    functions (lines 12 and 81). *)
Definition module_globals : list string :=
  ["asyncio"; "struct"; "from_dict"; "getLogger"; "DataReader"; "LOGGER";
   "decode_track"; "async_decoder"].

(** The value of a global name: NameError when the module does not bind
    it (none of the names looked up here is a built-in). *)
Definition global (globals : list string) (name : string) : result unit :=
  if existsb (String.eqb name) globals then Ok tt else Raise NameError.

(** Modelled from the spec: the class LavalinkTrackObject, declared outside
    the sources at hand, and [dacite.from_dict] on it.  A decoded track has
    the encoded string and the fields title, author, length, identifier,
    isStream, uri, isSeekable, sourceName, position, thumbnail, isrc and
    probeInfo: the object holds the entries of the dictionary as they are.
    Whether the entries pass the check against the declared field types
    is not known here: [check] gives the exception raised if they do
    not. *)
Definition from_dict (check : decoder.LavalinkTrackObject -> option exn)
  (data : decoder.LavalinkTrackObject) : result decoder.LavalinkTrackObject :=
  match check data with
  | Some e => Raise e
  | None => Ok data
  end.

Section decoder_run.
Context `{Codecs}.

(** [DataReader.__init__]: the string is decoded, then a new [BytesIO] is
    made of the bytes; the reader is named by the place of that object. *)
Definition DataReader (ts : string) (w : world) : result nat * world :=
  match b64decode ts with
  | Raise e => (Raise e, w)
  | Ok b =>
      (Ok (List.length (objects w)),
       set_objects w (objects w ++ [{| getvalue := b; tell := 0 |}]))
  end.

(** [self._buf.read(count)]: at most [count] bytes from the position on,
    and the position moves behind them.  A reader always names an object;
    the other case does not arise. *)
Definition _read (count : nat) : method bytes :=
  fun self w =>
    match objects w !! self with
    | Some o =>
        let data := firstn count (unread o) in
        (Ok data,
         set_objects w
           (<[self := {| getvalue := getvalue o;
                         tell := tell o + List.length data |}]> (objects w)))
    | None => (Raise Exception, w)
    end.

Definition read_byte : method bytes := _read 1.

Definition read_boolean : method Z :=
  do b <- read_byte; lift (unpack_unsigned 1 b).

Definition read_unsigned_short : method Z :=
  do b <- _read 2; lift (unpack_unsigned 2 b).

Definition read_int : method Z :=
  do b <- _read 4; lift (unpack_i b).

Definition read_long : method Z :=
  do b <- _read 8; lift (unpack_unsigned 8 b).

Definition read_utf : method str :=
  do text_length <- read_unsigned_short;
  do b <- _read (Z.to_nat text_length);
  lift (decode b).

Definition read_utfm : method str :=
  do text_length <- read_unsigned_short;
  do utf_string <- _read (Z.to_nat text_length);
  lift (utfm_codec_read_utfm (Z.to_nat text_length) utf_string).

Definition read_nullable_utf : method (option str) :=
  do present <- read_boolean;
  if present =? 0 then ret None else do s <- read_utf; ret (Some s).

Definition read_nullable_utfm : method (option str) :=
  do present <- read_boolean;
  if present =? 0 then ret None else do s <- read_utfm; ret (Some s).

(** Lines 27 to 36 of decode_track. *)
Definition fixed_fields : method decoder.fixed :=
  do x <- read_int;
  let flags := Z.shiftr (Z.land x 0xC0000000) 30 in
  do version <- (if negb (Z.land flags 1 =? 0)
                 then do b <- read_byte; lift (unpack_unsigned 1 b)
                 else ret 1);
  do title <- read_utfm;
  do author <- read_utfm;
  do length <- read_long;
  do identifier <- read_utf;
  do is_stream <- read_boolean;
  do uri <- read_nullable_utf;
  do source <- read_utf;
  ret {| decoder.version := version; decoder.f_title := title;
         decoder.f_author := author; decoder.f_length := length;
         decoder.f_identifier := identifier; decoder.f_is_stream := is_stream;
         decoder.f_uri := uri; decoder.f_source := source |}.

(** [_ = reader.read_long()], the last statement of the [try]. *)
Definition read_position (o : decoder.optional) (self : nat) (w : world)
  : decoder.optional * option exn * world :=
  match read_long self w with
  | (Ok _, w') => (o, None, w')
  | (Raise e, w') => (o, Some e, w')
  end.

(** The body of the [try] (lines 41 to 54): the variables as the body
    leaves them, and the exception it ends with, if any. *)
Definition try_body (source identifier : str) (self : nat) (w : world)
  : decoder.optional * option exn * world :=
  let none := {| decoder.o_thumbnail := None; decoder.o_isrc := None;
                 decoder.o_probe := None |} in
  if str_eqb source (lit "youtube") then
    read_position {| decoder.o_thumbnail := Some (decoder.youtube_thumbnail identifier);
                     decoder.o_isrc := None; decoder.o_probe := None |} self w
  else if decoder.is_in source ["deezer"; "spotify"; "applemusic"] then
    match read_nullable_utfm self w with
    | (Raise e, w1) => (none, Some e, w1)
    | (Ok isrc, w1) =>
        match read_nullable_utfm self w1 with
        | (Raise e, w2) =>
            ({| decoder.o_thumbnail := None; decoder.o_isrc := isrc;
                decoder.o_probe := None |}, Some e, w2)
        | (Ok thumbnail, w2) =>
            read_position {| decoder.o_thumbnail := thumbnail; decoder.o_isrc := isrc;
                             decoder.o_probe := None |} self w2
        end
    end
  else if str_eqb source (lit "yandexmusic") then
    match read_nullable_utfm self w with
    | (Raise e, w1) => (none, Some e, w1)
    | (Ok thumbnail, w1) =>
        read_position {| decoder.o_thumbnail := thumbnail; decoder.o_isrc := None;
                         decoder.o_probe := None |} self w1
    end
  else if decoder.is_in source ["local"; "http"] then
    match read_utfm self w with
    | (Raise e, w1) => (none, Some e, w1)
    | (Ok probe, w1) =>
        read_position {| decoder.o_thumbnail := None; decoder.o_isrc := None;
                         decoder.o_probe := Some probe |} self w1
    end
  else read_position none self w.

(** The return statement (lines 59 to 78), outside the [try]: the names
    [from_dict] and [LavalinkTrackObject] are looked up, in this order,
    then the dictionary is built and [from_dict] is called. *)
Definition return_statement (globals : list string)
  (check : decoder.LavalinkTrackObject -> option exn)
  (track : string) (f : decoder.fixed) (o : decoder.optional)
  : result decoder.LavalinkTrackObject :=
  match global globals "from_dict" with
  | Raise e => Raise e
  | Ok _ =>
      match global globals "LavalinkTrackObject" with
      | Raise e => Raise e
      | Ok _ => from_dict check (decoder.build track f o)
      end
  end.

(** [decode_track], called in a world, in a module that binds the names
    [globals]: what the call returns or raises, and the world it leaves. *)
Definition decode_track (globals : list string)
  (check : decoder.LavalinkTrackObject -> option exn)
  (track : string) (w : world) : result decoder.LavalinkTrackObject * world :=
  match DataReader track w with
  | (Raise e, w0) => (Raise e, w0)
  | (Ok reader, w0) =>
      match fixed_fields reader w0 with
      | (Raise e, w1) => (Raise e, w1)
      | (Ok f, w1) =>
          let '(o, exc, w2) :=
            try_body (decoder.f_source f) (decoder.f_identifier f) reader w1 in
          (return_statement globals check track f o, log (decoder.except_log exc) w2)
      end
  end.

(** A method does to the object what a reader of the remaining bytes
    does to them: the same value or exception, the same bytes left when
    it returns, and no other object touched. *)
Definition refines {A : Type} (m : method A) (r : reader A) : Prop :=
  forall self w o,
    objects w !! self = Some o ->
    exists o',
      (m self w).2 = set_objects w (<[self := o']> (objects w))
      /\ match r (unread o) with
         | Ok (a, rem) => (m self w).1 = Ok a /\ unread o' = rem
         | Raise e => (m self w).1 = Raise e
         end.

(** What a call returns or raises, and what it hands to the logger, as
    functions of the track string alone. *)
Definition decoded (globals : list string)
  (check : decoder.LavalinkTrackObject -> option exn) (track : string)
  : result decoder.LavalinkTrackObject :=
  match decoder.steps_1_to_9 track with
  | Raise e => Raise e
  | Ok (f, rest) =>
      return_statement globals check track f
        (decoder.source_fields (decoder.f_source f) (decoder.f_identifier f) rest).1
  end.

Definition logged (track : string) : list log_record :=
  match decoder.steps_1_to_9 track with
  | Raise _ => []
  | Ok (f, rest) => decoder.except_log (decoder.raised_in_tail f rest)
  end.

(** The body of the [try] leaves the variables and the exception that the
    reads of the remaining bytes determine, and touches the reader only. *)
Definition try_refines
  (m : nat -> world -> decoder.optional * option exn * world)
  (r : bytes -> decoder.optional * option exn) : Prop :=
  forall self w o,
    objects w !! self = Some o ->
    exists o',
      m self w = (r (unread o), set_objects w (<[self := o']> (objects w))).

End decoder_run.

(** The world before anything has run, and a module like decoder.py that
    also binds the name of the class. *)
Definition nothing : world := {| objects := []; records := [] |}.

Definition with_class : list string := "LavalinkTrackObject" :: module_globals.

(** A class whose check every dictionary passes. *)
Definition lenient (data : decoder.LavalinkTrackObject) : option exn := None.

End decoder_run.

(** ** The codecs of CPython, for running the codec on concrete input *)

Module cpython.

Import py datarw.

Definition b64_value (c : ascii) : option Z :=
  let n := Z.of_N (code c) in
  if (65 <=? n) && (n <=? 90) then Some (n - 65)
  else if (97 <=? n) && (n <=? 122) then Some (n - 71)
  else if (48 <=? n) && (n <=? 57) then Some (n + 4)
  else if n =? 43 then Some 62
  else if n =? 47 then Some 63
  else None.

(** [binascii.a2b_base64] outside strict mode: characters that are not in
    the alphabet are skipped, a complete run of padding ends the input, and
    an unfinished quad is an error.  [out] is the output so far, reversed. *)
Fixpoint a2b_base64 (l : list ascii) (quad_pos : nat) (leftchar : Z) (pads : nat)
  (out : bytes) : result bytes :=
  match l with
  | [] => if (quad_pos =? 0)%nat then Ok (rev out) else Raise binascii_Error
  | c :: l' =>
      if Ascii.eqb c "=" then
        if (2 <=? quad_pos)%nat then
          if (4 <=? quad_pos + S pads)%nat then Ok (rev out)
          else a2b_base64 l' quad_pos leftchar (S pads) out
        else a2b_base64 l' quad_pos leftchar pads out
      else
        match b64_value c with
        | None => a2b_base64 l' quad_pos leftchar pads out
        | Some v =>
            match quad_pos with
            | 0%nat => a2b_base64 l' 1%nat v 0%nat out
            | 1%nat =>
                a2b_base64 l' 2%nat (Z.land v 15) 0%nat
                  (byte_of (Z.lor (Z.shiftl leftchar 2) (Z.shiftr v 4)) :: out)
            | 2%nat =>
                a2b_base64 l' 3%nat (Z.land v 3) 0%nat
                  (byte_of (Z.lor (Z.shiftl leftchar 4) (Z.shiftr v 2)) :: out)
            | _ =>
                a2b_base64 l' 0%nat 0 0%nat
                  (byte_of (Z.lor (Z.shiftl leftchar 6) v) :: out)
            end
        end
  end.

(** [base64.b64decode(s)] on a string: it must be ASCII. *)
Definition b64decode (s : string) : result bytes :=
  if forallb (fun c => (code c <? 128)%N) (chars s)
  then a2b_base64 (chars s) 0%nat 0 0%nat []
  else Raise ValueError.

Definition cons_ok (x : Z) (r : result str) : result str :=
  match r with
  | Ok l => Ok (x :: l)
  | Raise e => Raise e
  end.

Definition is_cont (x : Z) : bool := (128 <=? x) && (x <=? 191).

Definition low6 (x : Z) : Z := Z.land x 63.

(** Strict UTF-8: no overlong forms, no surrogates, nothing above U+10FFFF. *)
Fixpoint utf8_decode (b : list Z) : result str :=
  match b with
  | [] => Ok []
  | b0 :: r0 =>
      if b0 <? 128 then cons_ok b0 (utf8_decode r0)
      else if (194 <=? b0) && (b0 <=? 223) then
        match r0 with
        | b1 :: r1 =>
            if is_cont b1
            then cons_ok (Z.lor (Z.shiftl (Z.land b0 31) 6) (low6 b1)) (utf8_decode r1)
            else Raise UnicodeDecodeError
        | [] => Raise UnicodeDecodeError
        end
      else if (224 <=? b0) && (b0 <=? 239) then
        match r0 with
        | b1 :: b2 :: r2 =>
            if (if b0 =? 224 then (160 <=? b1) && (b1 <=? 191)
                else if b0 =? 237 then (128 <=? b1) && (b1 <=? 159)
                else is_cont b1) && is_cont b2
            then cons_ok (Z.lor (Z.shiftl (Z.land b0 15) 12)
                            (Z.lor (Z.shiftl (low6 b1) 6) (low6 b2)))
                   (utf8_decode r2)
            else Raise UnicodeDecodeError
        | _ => Raise UnicodeDecodeError
        end
      else if (240 <=? b0) && (b0 <=? 244) then
        match r0 with
        | b1 :: b2 :: b3 :: r3 =>
            if (if b0 =? 240 then (144 <=? b1) && (b1 <=? 191)
                else if b0 =? 244 then (128 <=? b1) && (b1 <=? 143)
                else is_cont b1) && is_cont b2 && is_cont b3
            then cons_ok (Z.lor (Z.shiftl (Z.land b0 7) 18)
                            (Z.lor (Z.shiftl (low6 b1) 12)
                               (Z.lor (Z.shiftl (low6 b2) 6) (low6 b3))))
                   (utf8_decode r3)
            else Raise UnicodeDecodeError
        | _ => Raise UnicodeDecodeError
        end
      else Raise UnicodeDecodeError
  end.

(** [b.decode()] *)
Definition decode (b : bytes) : result str := utf8_decode (map byte_val b).

Definition is_surrogate (c : Z) : bool := (0xD800 <=? c) && (c <=? 0xDFFF).

(** The UTF-8 bytes of one code point; a surrogate has none. *)
Definition encode_char (c : Z) : option (list Z) :=
  if c <? 0x80 then Some [c]
  else if c <? 0x800 then Some [Z.lor 0xC0 (Z.shiftr c 6); Z.lor 0x80 (low6 c)]
  else if is_surrogate c then None
  else if c <? 0x10000 then
    Some [Z.lor 0xE0 (Z.shiftr c 12); Z.lor 0x80 (low6 (Z.shiftr c 6));
          Z.lor 0x80 (low6 c)]
  else
    Some [Z.lor 0xF0 (Z.shiftr c 18); Z.lor 0x80 (low6 (Z.shiftr c 12));
          Z.lor 0x80 (low6 (Z.shiftr c 6)); Z.lor 0x80 (low6 c)].

(** [s.encode("utf8")]: a lone surrogate raises UnicodeEncodeError. *)
Fixpoint encode (s : str) : result bytes :=
  match s with
  | [] => Ok []
  | c :: s' =>
      match encode_char c with
      | None => Raise UnicodeEncodeError
      | Some bs =>
          match encode s' with
          | Ok rest => Ok (map byte_of bs ++ rest)
          | Raise e => Raise e
          end
      end
  end.

(** Modified UTF-8: groups of one, two or three bytes give 16-bit units. *)
Fixpoint utfm_units (b : list Z) : result (list Z) :=
  match b with
  | [] => Ok []
  | b0 :: r0 =>
      if b0 <? 128 then cons_ok b0 (utfm_units r0)
      else if (192 <=? b0) && (b0 <=? 223) then
        match r0 with
        | b1 :: r1 =>
            if is_cont b1
            then cons_ok (Z.lor (Z.shiftl (Z.land b0 31) 6) (low6 b1)) (utfm_units r1)
            else Raise UnicodeDecodeError
        | [] => Raise UnicodeDecodeError
        end
      else if (224 <=? b0) && (b0 <=? 239) then
        match r0 with
        | b1 :: b2 :: r2 =>
            if is_cont b1 && is_cont b2
            then cons_ok (Z.lor (Z.shiftl (Z.land b0 15) 12)
                            (Z.lor (Z.shiftl (low6 b1) 6) (low6 b2)))
                   (utfm_units r2)
            else Raise UnicodeDecodeError
        | _ => Raise UnicodeDecodeError
        end
      else Raise UnicodeDecodeError
  end.

(** A high surrogate followed by a low one is one code point; a surrogate
    on its own is an error. *)
Fixpoint join_surrogates (u : list Z) : result str :=
  match u with
  | [] => Ok []
  | h :: r =>
      if (0xD800 <=? h) && (h <=? 0xDBFF) then
        match r with
        | l :: r' =>
            if (0xDC00 <=? l) && (l <=? 0xDFFF)
            then cons_ok (0x10000 + Z.shiftl (h - 0xD800) 10 + (l - 0xDC00))
                   (join_surrogates r')
            else Raise UnicodeDecodeError
        | [] => Raise UnicodeDecodeError
        end
      else if is_surrogate h then Raise UnicodeDecodeError
      else cons_ok h (join_surrogates r)
  end.

(** Modelled from the spec: [utfm_codec.read_utfm], the reader of the
    vendored module utfm_codec, whose source is not at hand.  It follows the
    classic modified UTF-8: the first [utf_len] bytes are read in groups of
    one, two or three, and surrogate pairs are joined. *)
Definition read_utfm (utf_len : nat) (utf_bytes : bytes) : result str :=
  if (List.length utf_bytes <? utf_len)%nat then Raise IndexError
  else
    match utfm_units (map byte_val (firstn utf_len utf_bytes)) with
    | Ok u => join_surrogates u
    | Raise e => Raise e
    end.

Definition codecs : Codecs :=
  {| datarw.b64decode := b64decode;
     datarw.decode := decode;
     datarw.encode := encode;
     datarw.utfm_codec_read_utfm := read_utfm |}.

End cpython.


(** ** pylav/websocket.py *)

Module websocket.

Import py.

(** A JSON value; a frame and an outbound payload are dictionaries from
    strings to JSON values. *)
#[local] Unset Elimination Schemes.
Inductive json :=
| JNull
| JBool (b : bool)
| JNum (n : Z)
| JStr (s : string)
| JList (l : list json)
| JDict (d : list (string * json)).
#[local] Set Elimination Schemes.

(** The aiohttp socket, seen from this client: whether it is closed, what
    the transport has been handed so far (oldest first), and for the coming
    calls of [send_json] whether the connection is reset during the call. *)
Record ClientWebSocketResponse := {
  closed : bool;
  wire : list (gmap string json);
  resets : list bool
}.

(** [ws.send_json(data)]: [true] when ConnectionResetError is raised. *)
Definition send_json (ws : ClientWebSocketResponse) (data : gmap string json)
  : ClientWebSocketResponse * bool :=
  match resets ws with
  | true :: later => ({| closed := closed ws; wire := wire ws; resets := later |}, true)
  | false :: later =>
      ({| closed := closed ws; wire := wire ws ++ [data]; resets := later |}, false)
  | [] => ({| closed := closed ws; wire := wire ws ++ [data]; resets := [] |}, false)
  end.

(** The slots of [WebSocket] that the modelled methods read or write;
    [ready] is the asyncio.Event, [_player_reconnect_tasks] maps a guild id
    to the task registered for it. *)
Record WebSocket := {
  _ws : option ClientWebSocketResponse;
  _message_queue : list (gmap string json);
  _max_reconnect_attempts : Z;
  _resume_key : option string;
  _resume_timeout : option Z;
  _resuming_configured : bool;
  ready : bool;
  _manual_shutdown : bool;
  _session_id : option string;
  _resumed : option bool;
  _api_version : option Z;
  _connecting : bool;
  _player_reconnect_tasks : gmap Z nat
}.

Definition set_ws (self : WebSocket) (v : option ClientWebSocketResponse) : WebSocket :=
  {| _ws := v;
     _message_queue := _message_queue self;
     _max_reconnect_attempts := _max_reconnect_attempts self;
     _resume_key := _resume_key self;
     _resume_timeout := _resume_timeout self;
     _resuming_configured := _resuming_configured self;
     ready := ready self;
     _manual_shutdown := _manual_shutdown self;
     _session_id := _session_id self;
     _resumed := _resumed self;
     _api_version := _api_version self;
     _connecting := _connecting self;
     _player_reconnect_tasks := _player_reconnect_tasks self |}.

Definition set_message_queue (self : WebSocket) (v : list (gmap string json)) : WebSocket :=
  {| _ws := _ws self;
     _message_queue := v;
     _max_reconnect_attempts := _max_reconnect_attempts self;
     _resume_key := _resume_key self;
     _resume_timeout := _resume_timeout self;
     _resuming_configured := _resuming_configured self;
     ready := ready self;
     _manual_shutdown := _manual_shutdown self;
     _session_id := _session_id self;
     _resumed := _resumed self;
     _api_version := _api_version self;
     _connecting := _connecting self;
     _player_reconnect_tasks := _player_reconnect_tasks self |}.

Definition set_resuming_configured (self : WebSocket) (v : bool) : WebSocket :=
  {| _ws := _ws self;
     _message_queue := _message_queue self;
     _max_reconnect_attempts := _max_reconnect_attempts self;
     _resume_key := _resume_key self;
     _resume_timeout := _resume_timeout self;
     _resuming_configured := v;
     ready := ready self;
     _manual_shutdown := _manual_shutdown self;
     _session_id := _session_id self;
     _resumed := _resumed self;
     _api_version := _api_version self;
     _connecting := _connecting self;
     _player_reconnect_tasks := _player_reconnect_tasks self |}.

Definition set_ready (self : WebSocket) (v : bool) : WebSocket :=
  {| _ws := _ws self;
     _message_queue := _message_queue self;
     _max_reconnect_attempts := _max_reconnect_attempts self;
     _resume_key := _resume_key self;
     _resume_timeout := _resume_timeout self;
     _resuming_configured := _resuming_configured self;
     ready := v;
     _manual_shutdown := _manual_shutdown self;
     _session_id := _session_id self;
     _resumed := _resumed self;
     _api_version := _api_version self;
     _connecting := _connecting self;
     _player_reconnect_tasks := _player_reconnect_tasks self |}.

Definition set_manual_shutdown (self : WebSocket) (v : bool) : WebSocket :=
  {| _ws := _ws self;
     _message_queue := _message_queue self;
     _max_reconnect_attempts := _max_reconnect_attempts self;
     _resume_key := _resume_key self;
     _resume_timeout := _resume_timeout self;
     _resuming_configured := _resuming_configured self;
     ready := ready self;
     _manual_shutdown := v;
     _session_id := _session_id self;
     _resumed := _resumed self;
     _api_version := _api_version self;
     _connecting := _connecting self;
     _player_reconnect_tasks := _player_reconnect_tasks self |}.

Definition set_session_id (self : WebSocket) (v : option string) : WebSocket :=
  {| _ws := _ws self;
     _message_queue := _message_queue self;
     _max_reconnect_attempts := _max_reconnect_attempts self;
     _resume_key := _resume_key self;
     _resume_timeout := _resume_timeout self;
     _resuming_configured := _resuming_configured self;
     ready := ready self;
     _manual_shutdown := _manual_shutdown self;
     _session_id := v;
     _resumed := _resumed self;
     _api_version := _api_version self;
     _connecting := _connecting self;
     _player_reconnect_tasks := _player_reconnect_tasks self |}.

Definition set_resumed (self : WebSocket) (v : option bool) : WebSocket :=
  {| _ws := _ws self;
     _message_queue := _message_queue self;
     _max_reconnect_attempts := _max_reconnect_attempts self;
     _resume_key := _resume_key self;
     _resume_timeout := _resume_timeout self;
     _resuming_configured := _resuming_configured self;
     ready := ready self;
     _manual_shutdown := _manual_shutdown self;
     _session_id := _session_id self;
     _resumed := v;
     _api_version := _api_version self;
     _connecting := _connecting self;
     _player_reconnect_tasks := _player_reconnect_tasks self |}.

Definition set_api_version (self : WebSocket) (v : option Z) : WebSocket :=
  {| _ws := _ws self;
     _message_queue := _message_queue self;
     _max_reconnect_attempts := _max_reconnect_attempts self;
     _resume_key := _resume_key self;
     _resume_timeout := _resume_timeout self;
     _resuming_configured := _resuming_configured self;
     ready := ready self;
     _manual_shutdown := _manual_shutdown self;
     _session_id := _session_id self;
     _resumed := _resumed self;
     _api_version := v;
     _connecting := _connecting self;
     _player_reconnect_tasks := _player_reconnect_tasks self |}.

Definition set_connecting (self : WebSocket) (v : bool) : WebSocket :=
  {| _ws := _ws self;
     _message_queue := _message_queue self;
     _max_reconnect_attempts := _max_reconnect_attempts self;
     _resume_key := _resume_key self;
     _resume_timeout := _resume_timeout self;
     _resuming_configured := _resuming_configured self;
     ready := ready self;
     _manual_shutdown := _manual_shutdown self;
     _session_id := _session_id self;
     _resumed := _resumed self;
     _api_version := _api_version self;
     _connecting := v;
     _player_reconnect_tasks := _player_reconnect_tasks self |}.

Definition set_player_reconnect_tasks (self : WebSocket) (v : gmap Z nat) : WebSocket :=
  {| _ws := _ws self;
     _message_queue := _message_queue self;
     _max_reconnect_attempts := _max_reconnect_attempts self;
     _resume_key := _resume_key self;
     _resume_timeout := _resume_timeout self;
     _resuming_configured := _resuming_configured self;
     ready := ready self;
     _manual_shutdown := _manual_shutdown self;
     _session_id := _session_id self;
     _resumed := _resumed self;
     _api_version := _api_version self;
     _connecting := _connecting self;
     _player_reconnect_tasks := v |}.

(** What a method does to the outside, in order. *)
Inductive failure :=
| ClientConnectorError
| WSServerHandshakeError (status : Z)
| ServerDisconnectedError
| Other (e : exn).

Inductive effect :=
| Log (l : level) (m : string)
| FetchApiVersion
| WsConnect (raised : option failure)
| BackoffReset
| Sleep
| NodeConnect
| Listen
| SetStats
| PatchSession
| UpdateState
| CreateTask (tid : nat)
| CancelTask (tid : nat)
| HandleEvent (kind : string)
| DispatchEvent (kind : string).

(** [WebSocket.connected] *)
Definition connected (self : WebSocket) : bool :=
  match _ws self with
  | Some ws => negb (closed ws) && ready self
  | None => false
  end.

(** [WebSocket.send] *)
Definition send (self : WebSocket) (data : gmap string json) : WebSocket * list effect :=
  if _manual_shutdown self then (self, [])
  else if connected self then
    match _ws self with
    | Some ws =>
        let '(ws', reset) := send_json ws data in
        let self := set_ws self (Some ws') in
        if reset then
          (set_message_queue self (_message_queue self ++ [data]),
           [Log TRACE "Sending payload %s"; Log DEBUG "Send called before WebSocket ready!"])
        else (self, [Log TRACE "Sending payload %s"])
    | None => (self, [])
    end
  else
    (set_message_queue self (_message_queue self ++ [data]),
     [Log DEBUG "Send called before WebSocket ready!"]).

(** [async for message in AsyncIter(messages): await self.send( **message)] *)
Fixpoint send_all (messages : list (gmap string json)) (self : WebSocket)
  : WebSocket * list effect :=
  match messages with
  | [] => (self, [])
  | message :: later =>
      let '(self, e1) := send self message in
      let '(self, e2) := send_all later self in
      (self, e1 ++ e2)
  end.

(** Lines 305 to 309 of [connect]: the queue is copied, every message of
    the copy is passed to [send], then the queue is cleared. *)
Definition flush (self : WebSocket) : WebSocket * list effect :=
  match _message_queue self with
  | [] => (self, [])
  | copy =>
      let '(self, e) := send_all copy self in
      (set_message_queue self [], e)
  end.

(** What one pass of the loop of [connect] meets: whether manual_closure
    has set the shutdown flag by then, what fetch_api_version leaves in
    [node.api_version] (or raises), what [ws_connect] and
    [update_features] do, and [client.is_shutting_down] as read by the
    [except] clause. *)
Record attempt_env := {
  manual_closure : bool;
  fetch_api_version : result (option Z);
  ws_connect : ClientWebSocketResponse + failure;
  update_features : option failure;
  is_shutting_down : bool
}.

(** How a call ended: it returned, or it is suspended because the script of
    the environment has run out. *)
Inductive outcome := Returned | Waiting.

Definition run : Type := WebSocket * list effect * outcome.

Definition emit (e : list effect) (r : run) : run :=
  let '(self, tr, o) := r in (self, e ++ tr, o).

Definition log_connect_exception : effect :=
  Log ERROR "An exception occurred while attempting to connect to the node".

(** [not self._api_version] *)
Definition falsy (v : option Z) : bool :=
  match v with
  | None => true
  | Some n => n =? 0
  end.

(** The inner [try]: the socket is stored as soon as [ws_connect] returns. *)
Definition try_open (env : attempt_env) (self : WebSocket) : WebSocket * option failure :=
  match ws_connect env with
  | inr f => (self, Some f)
  | inl ws =>
      let self := set_ws self (Some ws) in
      match update_features env with
      | Some f => (self, Some f)
      | None => (set_connecting self false, None)
      end
  end.

(** The [while] loop of [connect] (lines 236 to 319), one element of
    [envs] per pass. *)
Fixpoint connect_loop (envs : list attempt_env) (attempt : Z) (self : WebSocket) : run :=
  let is_finite_retry := negb (_max_reconnect_attempts self =? -1) in
  if negb (connected self)
     && (negb is_finite_retry || (attempt <? _max_reconnect_attempts self))
  then
    match envs with
    | [] => (self, [], Waiting)
    | env :: envs' =>
        let self := if manual_closure env then set_manual_shutdown self true else self in
        if _manual_shutdown self then (set_connecting self false, [], Returned)
        else
          let attempt := attempt + 1 in
          emit [Log INFO "Attempting to establish WebSocket connection (%s/%s)";
                FetchApiVersion]
            match fetch_api_version env with
            | Raise _ => (self, [log_connect_exception], Returned)
            | Ok v =>
                let self := set_api_version self v in
                if falsy v then
                  (self,
                   [Log CRITICAL "Node %s is not running a supported Lavalink version (%s:%s - %s)";
                    log_connect_exception], Returned)
                else
                  match try_open env self with
                  | (self, None) =>
                      let '(self, sent) := flush self in
                      (self,
                       [WsConnect None; BackoffReset; NodeConnect] ++ sent
                       ++ [Listen; Log DEBUG "_listen returned"], Returned)
                  | (self, Some f) =>
                      emit [WsConnect (Some f)]
                        match f with
                        | Other _ => (self, [log_connect_exception], Returned)
                        | _ =>
                            if is_shutting_down env
                            then (set_connecting self false, [], Returned)
                            else
                              match f with
                              | ClientConnectorError =>
                                  emit [Log WARNING "Invalid response received; this may indicate that Lavalink is not running, or is running on a port different to the one you passed to `add_node` (%s - %s)";
                                        Sleep]
                                    (connect_loop envs' attempt self)
                              | WSServerHandshakeError status =>
                                  if (status =? 401) || (status =? 403) then
                                    (set_connecting self false,
                                     [Log WARNING "Authentication failed while trying to establish a connection to the node"],
                                     Returned)
                                  else
                                    emit [Log WARNING "The remote server returned code %s, the expected code was 101. This usually indicates that the remote server is a webserver and not Lavalink. Check your ports, and try again";
                                          Sleep]
                                      (connect_loop envs' attempt self)
                              | _ => emit [Sleep] (connect_loop envs' attempt self)
                              end
                        end
                  end
            end
    end
  else
    (self,
     [Log WARNING "A WebSocket connection could not be established within %s attempts"],
     Returned).

(** What [connect] meets before the loop and in it. *)
Record connect_env := {
  shutting_down_at_start : bool;
  region : option exn;
  attempts : list attempt_env
}.

(** [WebSocket.connect] *)
Definition connect (env : connect_env) (self : WebSocket) : run :=
  let self := set_ready self false in
  if shutting_down_at_start env then (self, [], Returned)
  else
    let self := set_connecting self true in
    match region env with
    | Some _ => (self, [log_connect_exception], Returned)
    | None => connect_loop (attempts env) 0 self
    end.

(** [int(s)] on a string: surrounding whitespace, a sign, decimal digits
    with single underscores between them. *)
Fixpoint digits_value (l : list ascii) (acc : Z) (after_digit : bool) : option Z :=
  match l with
  | [] => if after_digit then Some acc else None
  | c :: l' =>
      if isdigit c then digits_value l' (acc * 10 + (Z.of_N (code c) - 48)) true
      else if Ascii.eqb c "_" && after_digit then digits_value l' acc false
      else None
  end.

Definition int (s : string) : result Z :=
  let body := chars (strip s) in
  let parsed :=
    match body with
    | c :: l' =>
        if Ascii.eqb c "-" then option_map Z.opp (digits_value l' 0 false)
        else if Ascii.eqb c "+" then digits_value l' 0 false
        else digits_value body 0 false
    | [] => None
    end in
  match parsed with
  | Some n => Ok n
  | None => Raise ValueError
  end.

(** The dataclasses of pylav.endpoints.response_objects (outside the
    sources at hand) into which [from_dict] parses a frame ... *)
Inductive data_class :=
| LavalinkPlayerUpdateObject
| LavalinkStatsOpObject
| TrackStartEventOpObject
| TrackEndEventOpObject
| TrackExceptionEventOpObject
| TrackStuckEventOpObject
| WebSocketClosedEventOpObject
| SegmentsLoadedEventObject
| SegmentSkippedEventOpObject
| LavalinkReadyOpObject.

(** ... and the attributes of a parsed object that the handlers read. *)
Record response_object := {
  guildId : string;
  type : string;
  encodedTrack : string;
  state_connected : bool;
  sessionId : string;
  resumed : bool
}.

(** What [handle_event] is passed: a parsed object, or the frame itself. *)
Inductive event_data :=
| Parsed (o : response_object)
| Unparsed (d : gmap string json).

(** A player as the handlers see it. *)
Record Player := {
  guild_id : Z;
  is_playing : bool;
  connected_at : Z;
  node_identifier : string;
  current : option string
}.

(** The collaborators of the handlers: dacite's [from_dict], the client and
    its player manager (asked once more after the three-second sleep of
    [handle_event]), the clock in seconds, and the identifier of the node. *)
Record client_env := {
  from_dict : data_class -> gmap string json -> result response_object;
  client_is_shutting_down : bool;
  player_manager_get : Z -> option Player;
  player_manager_get_later : Z -> option Player;
  utcnow : Z;
  identifier : string
}.

(** The reconnect probes created with asyncio.create_task, in the order of
    their creation; a task is named by its position. *)
Inductive task_status := Pending | Cancelled | Finished.

Record Task := { probe_guild : Z; status : task_status }.

(** [task.cancel()]: a task that is done stays as it is, a cancelled task
    does not run on. *)
Definition cancel (t : Task) : Task :=
  {| probe_guild := probe_guild t;
     status := match status t with Pending => Cancelled | st => st end |}.

(** The probe ran to its end. *)
Definition finished (t : Task) : Task :=
  {| probe_guild := probe_guild t;
     status := match status t with Pending => Finished | st => st end |}.

(** The socket object and the tasks of the event loop. *)
Record sys := { self : WebSocket; tasks : list Task }.

Definition handler : Type := sys -> result unit * sys * list effect.

Definition emit_h (e : list effect) (r : result unit * sys * list effect)
  : result unit * sys * list effect :=
  let '(res, s, tr) := r in (res, s, e ++ tr).

(** [data = from_dict(data_class=cls, data=data)] followed by a handler. *)
Definition parse_then (env : client_env) (cls : data_class) (data : gmap string json)
  (k : response_object -> handler) : handler :=
  fun s =>
    match from_dict env cls data with
    | Raise e => (Raise e, s, [])
    | Ok o => k o s
    end.

(** [WebSocket.handle_stats] *)
Definition handle_stats (data : response_object) : handler :=
  fun s => (Ok tt, s, [SetStats]).

(** Five minutes, in seconds. *)
Definition grace : Z := 300.

(** [WebSocket.handle_player_update] *)
Definition handle_player_update (env : client_env) (data : response_object) : handler :=
  fun s =>
    match int (guildId data) with
    | Raise e => (Raise e, s, [])
    | Ok g =>
        match player_manager_get env g with
        | Some player =>
            if negb (state_connected data) && is_playing player && ready (self s)
               && (connected_at player <? utcnow env - grace)
            then
              let registry := _player_reconnect_tasks (self s) in
              let '(pool, cancelled) :=
                match registry !! guild_id player with
                | Some tid => (alter cancel tid (tasks s), [CancelTask tid])
                | None => (tasks s, [])
                end in
              let tid := List.length pool in
              (Ok tt,
               {| self := set_player_reconnect_tasks (self s)
                            (<[guild_id player := tid]> registry);
                  tasks := pool ++ [{| probe_guild := guild_id player;
                                       status := Pending |}] |},
               cancelled ++ [Log VERBOSE "Creating reconnect task for %s"; CreateTask tid])
            else (Ok tt, s, [UpdateState])
        | None => (Ok tt, s, [])
        end
    end.

Definition truthy_str (v : option string) : bool :=
  match v with
  | Some x => negb (String.eqb x "")
  | None => false
  end.

(** [WebSocket.configure_resume_and_timeout] *)
Definition configure_resume_and_timeout : handler :=
  fun s =>
    let w := self s in
    if negb (_resuming_configured w) && truthy_str (_resume_key w)
       && match _resume_timeout w with
          | Some n => negb (n =? 0) && (0 <? n)
          | None => false
          end
    then
      (Ok tt, {| self := set_resuming_configured w true; tasks := tasks s |},
       [PatchSession; Log INFO "Node resume has been configured with key: %s"])
    else (Ok tt, s, []).

(** [WebSocket.handle_ready] *)
Definition handle_ready (data : response_object) : handler :=
  fun s =>
    let w := set_session_id (self s) (Some (sessionId data)) in
    let w := set_resumed w (Some (resumed data)) in
    let w := set_ready w true in
    emit_h [Log INFO "Node connected successfully and is now ready to accept commands: Session ID: %s"]
      (configure_resume_and_timeout {| self := w; tasks := tasks s |}).

(** [WebSocket.handle_event].  Reading [data.guildId] of a frame that was
    not parsed raises AttributeError: a dictionary has no such attribute.
    The calls into Player, Track and Query are recorded as effects. *)
Definition handle_event (env : client_env) (data : event_data) : handler :=
  fun s =>
    if client_is_shutting_down env then (Ok tt, s, [])
    else
      match data with
      | Unparsed _ => (Raise AttributeError, s, [])
      | Parsed o =>
          match int (guildId o) with
          | Raise e => (Raise e, s, [])
          | Ok g =>
              let '(player, slept) :=
                match player_manager_get env g with
                | Some p => (Some p, [])
                | None => (player_manager_get_later env g, [Sleep])
                end in
              match player with
              | None =>
                  (Ok tt, s,
                   slept ++ [Log DEBUG "Received event for non-existent player! Guild ID: %s"])
              | Some p =>
                  let t := type o in
                  emit_h slept
                    (if String.eqb t "TrackEndEvent" then
                       (Ok tt, s, [HandleEvent "TrackEndEvent"; DispatchEvent "TrackEndEvent"])
                     else if String.eqb t "TrackExceptionEvent" then
                       if String.eqb (identifier env) (node_identifier p)
                       then (Ok tt, s, [HandleEvent "TrackExceptionEvent";
                                        DispatchEvent "TrackExceptionEvent"])
                       else (Ok tt, s, [])
                     else if String.eqb t "TrackStartEvent" then
                       match current p with
                       | None => (Raise AttributeError, s, [])
                       | Some _ =>
                           (Ok tt, s, [DispatchEvent "TrackStart<Source>Event";
                                       DispatchEvent "TrackStartEvent"])
                       end
                     else if String.eqb t "TrackStuckEvent" then
                       (Ok tt, s, [HandleEvent "TrackStuckEvent"; DispatchEvent "TrackStuckEvent"])
                     else if String.eqb t "WebSocketClosedEvent" then
                       (Ok tt, s, [DispatchEvent "WebSocketClosedEvent"])
                     else if String.eqb t "SegmentsLoaded" then
                       (Ok tt, s, [DispatchEvent "SegmentsLoadedEvent"])
                     else if String.eqb t "SegmentSkipped" then
                       (Ok tt, s, [DispatchEvent "SegmentSkippedEvent"])
                     else (Ok tt, s, [Log WARNING "Received unknown event: %s"]))
              end
          end
      end.

Definition str_is (v : json) (s : string) : bool :=
  match v with
  | JStr x => String.eqb x s
  | _ => false
  end.

(** The inner [match data["type"]] of [handle_message]: the class a known
    event type is parsed into. *)
Definition event_class (t : json) : option data_class :=
  if str_is t "TrackStartEvent" then Some TrackStartEventOpObject
  else if str_is t "TrackEndEvent" then Some TrackEndEventOpObject
  else if str_is t "TrackExceptionEvent" then Some TrackExceptionEventOpObject
  else if str_is t "TrackStuckEvent" then Some TrackStuckEventOpObject
  else if str_is t "WebSocketClosedEvent" then Some WebSocketClosedEventOpObject
  else if str_is t "SegmentsLoadedEvent" then Some SegmentsLoadedEventObject
  else if str_is t "SegmentSkippedEvent" then Some SegmentSkippedEventOpObject
  else None.

(** [WebSocket.handle_message].  In the ["event"] branch the call of
    [handle_event] follows the inner [match] whatever case was taken. *)
Definition handle_message (env : client_env) (data : gmap string json) : handler :=
  fun s =>
    match data !! "op" with
    | None => (Raise KeyError, s, [])
    | Some op =>
        if str_is op "playerUpdate" then
          parse_then env LavalinkPlayerUpdateObject data (handle_player_update env) s
        else if str_is op "stats" then
          parse_then env LavalinkStatsOpObject data handle_stats s
        else if str_is op "event" then
          match data !! "type" with
          | None => (Raise KeyError, s, [])
          | Some t =>
              match event_class t with
              | Some cls =>
                  parse_then env cls data (fun o => handle_event env (Parsed o)) s
              | None =>
                  emit_h [Log WARNING "Received unknown event: %s"]
                    (handle_event env (Unparsed data) s)
              end
          end
        else if str_is op "ready" then
          parse_then env LavalinkReadyOpObject data handle_ready s
        else (Ok tt, s, [Log WARNING "Received unknown op: %s"])
    end.

(** [WebSocket.__init__], before the first connect task runs. *)
Definition __init__ (resume_key : option string) (resume_timeout : option Z)
  (reconnect_attempts : Z) : sys :=
  {| self := {| _ws := None;
                _message_queue := [];
                _max_reconnect_attempts := reconnect_attempts;
                _resume_key := resume_key;
                _resume_timeout := resume_timeout;
                _resuming_configured := false;
                ready := false;
                _manual_shutdown := false;
                _session_id := None;
                _resumed := None;
                _api_version := None;
                _connecting := false;
                _player_reconnect_tasks := ∅ |};
     tasks := [] |}.

(** One step of the system: a method of the socket runs, or a pending probe
    runs to its end. *)
Inductive step (s : sys) : sys -> Prop :=
| step_message env data :
    step s (handle_message env data s).1.2
| step_player_update env data :
    step s (handle_player_update env data s).1.2
| step_send data :
    step s {| self := (send (self s) data).1; tasks := tasks s |}
| step_connect env :
    step s {| self := (connect env (self s)).1.1; tasks := tasks s |}
| step_probe_done tid :
    step s {| self := self s; tasks := alter finished tid (tasks s) |}.

Inductive reachable : sys -> Prop :=
| reach_init k t n : reachable (__init__ k t n)
| reach_step s s' : reachable s -> step s s' -> reachable s'.

(** A probe is live while it is pending. *)
Definition live (s : sys) (tid : nat) (guild : Z) : Prop :=
  tasks s !! tid = Some {| probe_guild := guild; status := Pending |}.

(** The invariant of the probes: a pending probe is the one registered for
    its guild, and what is registered is a task that exists. *)
Definition registered (s : sys) : Prop :=
  (forall tid t, tasks s !! tid = Some t -> status t = Pending ->
     _player_reconnect_tasks (self s) !! probe_guild t = Some tid)
  /\ (forall g tid, _player_reconnect_tasks (self s) !! g = Some tid ->
        (tid < List.length (tasks s))%nat).

Definition is_log (e : effect) : Prop := exists l m, e = Log l m.

End websocket.

(** ** Sample inputs *)

Module samples.

Import py datarw decoder.

(** A search directive. *)
Definition ytsearch : string := "ytsearch:lofi beats".

(** A recursive query of a local folder, as [__process_local] builds it
    for ["nested:/music/rock"]. *)
Definition nested_rock : query.Query :=
  query.__init__
    (query.QLocal {| query.path := "/music/rock"; query.as_str := "/music/rock" |})
    "Local Files" false 0 0 (Some "album") true.

(** A version-2 youtube track with identifier [abc123]. *)
Definition youtube_track : string :=
  "QAAAQQIABVRpdGxlAARBdXRoAAAAAAADR9gABmFiYzEyMwABAA5odHRwOi8veC9hLm1wMwAHeW91dHViZQAAAAAAAAAA".

(** A deezer track that ends after its isrc: no thumbnail, no position. *)
Definition deezer_truncated : string :=
  "QAAAQAIABVRpdGxlAARBdXRoAAAAAAADR9gABmFiYzEyMwABAA5odHRwOi8veC9hLm1wMwAGZGVlemVyAQAFSVNSQzE=".

(** A local track as lavaplayer writes it: probe info [mp3], then the
    position. *)
Definition local_mp3 : string :=
  "QAAARAIABVRpdGxlAARBdXRoAAAAAAADR9gABmFiYzEyMwABAA5odHRwOi8veC9hLm1wMwAFbG9jYWwAA21wMwAAAAAAAAAA".

(** A local track laid out with a nullable probe info that is absent: the
    presence byte 0, then the position. *)
Definition local_absent_probe : string :=
  "QAAAQAIABVRpdGxlAARBdXRoAAAAAAADR9gABmFiYzEyMwABAA5odHRwOi8veC9hLm1wMwAFbG9jYWwAAAAAAAAAAAA=".

(** The fixed fields shared by the samples, up to the source name. *)
Definition sample_fixed (source : string) : fixed :=
  {| version := 2; f_title := lit "Title"; f_author := lit "Auth"; f_length := 215000;
     f_identifier := lit "abc123"; f_is_stream := 0;
     f_uri := Some (lit "http://x/a.mp3"); f_source := lit source |}.

Definition zeros (n : nat) : bytes := repeat Byte.x00 n.

(** What is left of [deezer_truncated] after the fixed fields: a present
    isrc, [ISRC1], and nothing more. *)
Definition deezer_rest : bytes :=
  [Byte.x01; Byte.x00; Byte.x05] ++ list_byte_of_string "ISRC1".

(** What is left of [local_mp3]: the probe info and the position. *)
Definition local_mp3_rest : bytes :=
  [Byte.x00; Byte.x03] ++ list_byte_of_string "mp3" ++ zeros 8.

(** A string made of one lone surrogate, U+D800. *)
Definition lone_surrogate : str := [0xD800].

(** Three outbound payloads. *)
Definition play : gmap string websocket.json := {[ "op" := websocket.JStr "play" ]}.
Definition pause : gmap string websocket.json := {[ "op" := websocket.JStr "pause" ]}.
Definition stop : gmap string websocket.json := {[ "op" := websocket.JStr "stop" ]}.

(** A socket that has just been opened. *)
Definition fresh_socket : websocket.ClientWebSocketResponse :=
  {| websocket.closed := false; websocket.wire := []; websocket.resets := [] |}.

(** A pass of the connect loop in which everything succeeds. *)
Definition handshake_ok : websocket.attempt_env :=
  {| websocket.manual_closure := false;
     websocket.fetch_api_version := Ok (Some 3);
     websocket.ws_connect := inl fresh_socket;
     websocket.update_features := None;
     websocket.is_shutting_down := false |}.

(** A pass in which [ws_connect] raises [f]. *)
Definition handshake_fails (f : websocket.failure) : websocket.attempt_env :=
  {| websocket.manual_closure := false;
     websocket.fetch_api_version := Ok (Some 3);
     websocket.ws_connect := inr f;
     websocket.update_features := None;
     websocket.is_shutting_down := false |}.

(** A socket object that was just constructed, retrying without bound. *)
Definition new_socket : websocket.sys := websocket.__init__ None None (-1).

(** The ready frame, parsed. *)
Definition ready_object : websocket.response_object :=
  {| websocket.guildId := ""; websocket.type := ""; websocket.encodedTrack := "";
     websocket.state_connected := false; websocket.sessionId := "session";
     websocket.resumed := false |}.

(** An event frame of a type the client does not know, and a frame of an
    operation it does not know. *)
Definition unknown_event : gmap string websocket.json :=
  {[ "op" := websocket.JStr "event"; "type" := websocket.JStr "PlayerPausedEvent";
     "guildId" := websocket.JStr "1" ]}.
Definition unknown_op : gmap string websocket.json :=
  {[ "op" := websocket.JStr "pong" ]}.

(** A client that is running, with one player, in guild 1, playing for
    longer than the grace period. *)
Definition player_1 : websocket.Player :=
  {| websocket.guild_id := 1; websocket.is_playing := true;
     websocket.connected_at := 0; websocket.node_identifier := "node";
     websocket.current := None |}.

Definition running_client : websocket.client_env :=
  {| websocket.from_dict := fun _ d =>
       Ok {| websocket.guildId := "1"; websocket.type := "";
             websocket.encodedTrack := ""; websocket.state_connected := false;
             websocket.sessionId := "session"; websocket.resumed := false |};
     websocket.client_is_shutting_down := false;
     websocket.player_manager_get := fun g => if g =? 1 then Some player_1 else None;
     websocket.player_manager_get_later := fun g => if g =? 1 then Some player_1 else None;
     websocket.utcnow := 1000;
     websocket.identifier := "node" |}.

(** The run of the queue scenario: two payloads are sent before the socket
    is connected, the handshake succeeds, the ready frame arrives. *)
Definition queued : websocket.WebSocket :=
  (websocket.send (websocket.send (websocket.self new_socket) play).1 pause).1.

Definition after_connect : websocket.WebSocket :=
  (websocket.connect
     {| websocket.shutting_down_at_start := false; websocket.region := None;
        websocket.attempts := [handshake_ok] |} queued).1.1.

Definition after_ready : websocket.WebSocket :=
  websocket.self
    (websocket.handle_ready ready_object
       {| websocket.self := after_connect; websocket.tasks := [] |}).1.2.

(** A connect in which the node cannot be reached at first, then answers
    the handshake with status 403; a third pass would succeed. *)
Definition forbidden : websocket.connect_env :=
  {| websocket.shutting_down_at_start := false;
     websocket.region := None;
     websocket.attempts :=
       [handshake_fails websocket.ClientConnectorError;
        handshake_fails (websocket.WSServerHandshakeError 403);
        handshake_ok] |}.

(** What that connect does before the handshake is refused, and after. *)
Definition before_refusal : list websocket.effect :=
  Eval vm_compute in firstn 7 (websocket.connect forbidden (websocket.self new_socket)).1.2.

Definition after_refusal : list websocket.effect :=
  Eval vm_compute in skipn 8 (websocket.connect forbidden (websocket.self new_socket)).1.2.

(** A player update for guild 1 that reports the voice connection lost. *)
Definition voice_lost : websocket.response_object :=
  {| websocket.guildId := "1"; websocket.type := ""; websocket.encodedTrack := "";
     websocket.state_connected := false; websocket.sessionId := "";
     websocket.resumed := false |}.

(** The ready frame arrives, then two player updates for guild 1 that
    each report the voice connection lost. *)
Definition ready_frame : gmap string websocket.json :=
  {[ "op" := websocket.JStr "ready" ]}.

Definition ready_socket : websocket.sys :=
  (websocket.handle_message running_client ready_frame new_socket).1.2.

Definition probed_once : websocket.sys :=
  (websocket.handle_player_update running_client voice_lost ready_socket).1.2.

Definition probed_twice : websocket.sys :=
  (websocket.handle_player_update running_client voice_lost probed_once).1.2.

End samples.

(** ** pylav/query.py: the accessors and the source setter *)

Module query_accessors.

Import py query.

Definition is_clypit (q : Query) : bool := String.eqb (source q) "Clyp.it".
Definition is_getyarn (q : Query) : bool := String.eqb (source q) "GetYarn".
Definition is_mixcloud (q : Query) : bool := String.eqb (source q) "Mixcloud".
Definition is_ocremix (q : Query) : bool := String.eqb (source q) "OverClocked ReMix".
Definition is_pornhub (q : Query) : bool := String.eqb (source q) "Pornhub".
Definition is_reddit (q : Query) : bool := String.eqb (source q) "Reddit".
Definition is_soundgasm (q : Query) : bool := String.eqb (source q) "SoundGasm".
Definition is_tiktok (q : Query) : bool := String.eqb (source q) "TikTok".
Definition is_bandcamp (q : Query) : bool := String.eqb (source q) "Bandcamp".
Definition is_twitch (q : Query) : bool := String.eqb (source q) "Twitch".
Definition is_http (q : Query) : bool := String.eqb (source q) "HTTP".
Definition is_niconico (q : Query) : bool := String.eqb (source q) "Niconico".
Definition is_vimeo (q : Query) : bool := String.eqb (source q) "Vimeo".
Definition is_album (q : Query) : bool := String.eqb (_type q) "album".
Definition is_playlist (q : Query) : bool := String.eqb (_type q) "playlist".
Definition is_single (q : Query) : bool := String.eqb (_type q) "single".

(** [c.lower()] on a code point below 256: the ASCII capitals and the
    capitals of Latin-1 (U+00C0 to U+00DE but for the multiplication
    sign). *)
Definition lower_char (c : ascii) : ascii :=
  let n := code c in
  if (((65 <=? n) && (n <=? 90))
      || ((192 <=? n) && (n <=? 222) && negb (n =? 215)))%N
  then ascii_of_N (n + 32) else c.

(** [s.lower()] *)
Definition lower (s : string) : string := str_of (map lower_char (chars s)).

Definition allowed : list string :=
  ["ytm"; "yt"; "sp"; "sc"; "am"; "local"; "speak"; "tts://"].

Definition set_source_field (self : Query) (v : string) : Query :=
  {| _query := _query self; _source := v; _search := _search self;
     start_time := start_time self; index := index self; _type := _type self;
     _recursive := _recursive self |}.

(** The setter of [Query.source].  After the first [if] has replaced
    ["ytm"], the chain that starts at ["yt"] finds no match. *)
Definition source_setter (self : Query) (source : string) : result Query :=
  if negb (is_search self) then Raise ValueError
  else
    let source := lower source in
    if negb (existsb (String.eqb source) allowed) then Raise ValueError
    else
      let source := if String.eqb source "ytm" then "YouTube Music" else source in
      let source :=
        if String.eqb source "yt" then "YouTube"
        else if String.eqb source "sp" then "Spotify"
        else if String.eqb source "sc" then "SoundCloud"
        else if String.eqb source "am" then "Apple Music"
        else if String.eqb source "local" then "Local Files"
        else if String.eqb source "speak" then "speak"
        else if String.eqb source "tts://" then "Google TTS"
        else source in
      Ok (set_source_field self source).

(** [Query.__get_source_from_str] *)
Definition __get_source_from_str (source : string) : string :=
  if String.eqb source "spotify" then "Spotify"
  else if String.eqb source "youtube" then "YouTube Music"
  else if String.eqb source "soundcloud" then "SoundCloud"
  else if String.eqb source "apple" then "Apple Music"
  else if String.eqb source "local" then "Local Files"
  else if String.eqb source "speak" then "speak"
  else if String.eqb source "gcloud-tts" then "Google TTS"
  else if String.eqb source "http" then "HTTP"
  else if String.eqb source "twitch" then "Twitch"
  else if String.eqb source "vimeo" then "Vimeo"
  else if String.eqb source "bandcamp" then "Bandcamp"
  else if String.eqb source "mixcloud" then "Mixcloud"
  else if String.eqb source "getyarn" then "GetYarn"
  else if String.eqb source "ocremix" then "OverClocked ReMix"
  else if String.eqb source "reddit" then "Reddit"
  else if String.eqb source "clypit" then "Clyp.it"
  else if String.eqb source "pornhub" then "PornHub"
  else if String.eqb source "soundgasm" then "SoundGasm"
  else if String.eqb source "tiktok" then "TikTok"
  else if String.eqb source "niconico" then "Niconico"
  else "YouTube".

(** [Query.requires_capability] *)
Definition requires_capability (q : Query) : string :=
  if is_spotify q then "spotify"
  else if is_apple_music q then "applemusic"
  else if is_youtube q then "youtube"
  else if is_soundcloud q then "soundcloud"
  else if is_local q then "local"
  else if is_twitch q then "twitch"
  else if is_bandcamp q then "bandcamp"
  else if is_http q then "http"
  else if is_speak q then "speak"
  else if is_gctts q then "gcloud-tts"
  else if is_getyarn q then "getyarn"
  else if is_clypit q then "clypit"
  else if is_pornhub q then "pornhub"
  else if is_reddit q then "reddit"
  else if is_ocremix q then "ocremix"
  else if is_tiktok q then "tiktok"
  else if is_mixcloud q then "mixcloud"
  else if is_soundgasm q then "soundgasm"
  else if is_vimeo q then "vimeo"
  else "youtube".

(** [s[:k]]: a negative [k] counts from the end. *)
Definition slice (k : Z) (s : string) : string :=
  if 0 <=? k then str_of (firstn (Z.to_nat k) (chars s))
  else str_of (firstn (Z.to_nat (Z.of_nat (String.length s) + k)) (chars s)).

(** [if max_length]: neither [None] nor 0. *)
Definition given (max_length : option Z) : option Z :=
  match max_length with
  | Some n => if n =? 0 then None else Some n
  | None => None
  end.

(** [Query.query_to_string].  A local query is handed to
    [LocalFile.to_string_user], outside the sources at hand and taken as a
    parameter; [len] of a local file raises. *)
Definition query_to_string
  (to_string_user : LocalFile -> option Z -> bool -> bool -> string)
  (self : Query) (max_length : option Z) (name_only ellipsis : bool)
  : result query_value :=
  if is_local self then
    match _query self with
    | QLocal f => Ok (QStr (to_string_user f max_length name_only ellipsis))
    | QStr _ => Raise AttributeError
    end
  else
    match given max_length with
    | None => Ok (_query self)
    | Some n =>
        match _query self with
        | QLocal _ => Raise TypeError
        | QStr s =>
            if n <? Z.of_nat (String.length s) then
              if ellipsis then Ok (QStr (strip (slice (n - 3) s) +:+ "..."))
              else Ok (QStr (strip (slice n s)))
            else Ok (QStr s)
        end
    end.

(** [Query.query_to_queue]; the inner call leaves [ellipsis] at its
    default.  A local file returned as it is is formatted with [str]. *)
Definition query_to_queue
  (to_string_user : LocalFile -> option Z -> bool -> bool -> string)
  (self : Query) (max_length : option Z) (partial name_only : bool)
  : result query_value :=
  if partial then
    let source := Z.of_nat (String.length (source self)) + 3 in
    let max_length :=
      match given max_length with
      | Some n => Some (n - source)
      | None => max_length
      end in
    match query_to_string to_string_user self max_length name_only true with
    | Ok v => Ok (QStr ("(" +:+ query.source self +:+ ") " +:+ fmt v))
    | Raise e => Raise e
    end
  else query_to_string to_string_user self max_length name_only true.

(** The names the setter accepts, in lower case, but for [speak], and the
    prefix of the identifier that results. *)
Definition prefixes : list (string * string) :=
  [("ytm", "ytmsearch:"); ("yt", "ytsearch:"); ("sp", "spsearch:"); ("sc", "scsearch:");
   ("am", "amsearch:"); ("local", "ytsearch:"); ("tts://", "tts://")].

(** The capability names that [__get_source_from_str] and
    [requires_capability] agree on. *)
Definition capabilities : list string :=
  ["spotify"; "youtube"; "soundcloud"; "local"; "speak"; "gcloud-tts"; "http"; "twitch";
   "vimeo"; "bandcamp"; "mixcloud"; "getyarn"; "ocremix"; "reddit"; "clypit";
   "soundgasm"; "tiktok"].

End query_accessors.

(** ** pylav/constants/node_features.py *)

Module node_features.

Definition SUPPORTED_SEARCHES : gmap string string :=
  list_to_map
    [("ytmsearch", "YouTube Music"); ("ytsearch", "YouTube"); ("spsearch", "Spotify");
     ("scsearch", "SoundCloud"); ("amsearch", "Apple Music"); ("dzsearch", "Deezer")].

Definition SUPPORTED_SOURCES : gset string :=
  list_to_set
    ["youtube"; "soundcloud"; "bandcamp"; "twitch"; "vimeo"; "local"; "http";
     "getyarn.io"; "clypit"; "speak"; "pornhub"; "reddit"; "ocremix"; "tiktok";
     "mixcloud"; "soundgasm";
     "spotify"; "applemusic"; "deezer"; "yandexmusic";
     "gcloud-tts"].

Definition SUPPORTED_FEATURES : gset string := list_to_set ["sponsorblock"].

Definition SUPPORTED_FILTERS : gset string :=
  list_to_set
    ["distortion"; "volume"; "karaoke"; "echo"; "equalizer"; "timescale"; "tremolo";
     "lowPass"; "rotation"; "channelMix"; "vibrato"].

End node_features.

(** ** pylav/constants/config/env_var.py and pylav/envvars.py: the settings
    read from the environment *)

Module env_var.

Import py node_features.

(** [os.getenv(name, default)] and [os.getenv(name)] on an environment. *)
Definition getenv (environ : gmap string string) (name : string) (default : string)
  : string :=
  match environ !! name with
  | Some v => v
  | None => default
  end.

(** [max(int(os.getenv(name, default)), floor)] *)
Definition at_least (environ : gmap string string) (name default : string) (floor : Z)
  : result Z :=
  match websocket.int (getenv environ name default) with
  | Ok n => Ok (Z.max n floor)
  | Raise e => Raise e
  end.

Definition POSTGRES_CONNECTIONS (environ : gmap string string) : result Z :=
  at_least environ "PYLAV__POSTGRES_CONNECTIONS" "100" 4.

Definition TASK_TIMER_UPDATE_BUNDLED_PLAYLISTS_DAYS (environ : gmap string string)
  : result Z :=
  at_least environ "PYLAV__TASK_TIMER_UPDATE_BUNDLED_PLAYLISTS_DAYS" "1" 1.

Definition TASK_TIMER_UPDATE_BUNDLED_EXTERNAL_PLAYLISTS_DAYS
  (environ : gmap string string) : result Z :=
  at_least environ "PYLAV__TASK_TIMER_UPDATE_BUNDLED_EXTERNAL_PLAYLISTS_DAYS" "7" 7.

Definition TASK_TIMER_UPDATE_EXTERNAL_PLAYLISTS_DAYS (environ : gmap string string)
  : result Z :=
  at_least environ "PYLAV__TASK_TIMER_UPDATE_EXTERNAL_PLAYLISTS_DAYS" "7" 7.

(** [max(int(v), 1) if (v := os.getenv(name)) is not None else 25] *)
Definition DEFAULT_PLAYER_VOLUME (environ : gmap string string) : result Z :=
  match environ !! "PYLAV__DEFAULT_PLAYER_VOLUME" with
  | Some v =>
      match websocket.int v with
      | Ok n => Ok (Z.max n 1)
      | Raise e => Raise e
      end
  | None => Ok 25
  end.

(** DEFAULT_SEARCH_SOURCE of env_var.py, with what it logs. *)
Definition DEFAULT_SEARCH_SOURCE (environ : gmap string string)
  : string * list log_record :=
  let v := getenv environ "PYLAV__DEFAULT_SEARCH_SOURCE" "dzsearch" in
  match SUPPORTED_SEARCHES !! v with
  | Some _ => (v, [])
  | None =>
      ("dzsearch",
       [{| lvl := WARNING; msg := "Invalid search source %s, defaulting to dzsearch";
           exc_info := None |};
        {| lvl := INFO; msg := "Valid search sources are %s"; exc_info := None |}])
  end.

End env_var.

Module envvars.

Import py node_features.

(** DEFAULT_SEARCH_SOURCE of envvars.py when the YAML file does not exist.
    The argument of the second log call is
    [", ".join(DEFAULT_SEARCH_SOURCE.keys())], and a string has no [keys]:
    the assignment of the fallback is not reached. *)
Definition DEFAULT_SEARCH_SOURCE (environ : gmap string string)
  : result string * list log_record :=
  let v := env_var.getenv environ "PYLAV__DEFAULT_SEARCH_SOURCE" "dzsearch" in
  match SUPPORTED_SEARCHES !! v with
  | Some _ => (Ok v, [])
  | None =>
      (Raise AttributeError,
       [{| lvl := WARNING; msg := "Invalid search source %s, defaulting to dzsearch";
           exc_info := None |}])
  end.

End envvars.

(** ** pylav/nodes/api/responses/plugins/sponsorblock.py *)

Module sponsorblock.

Import py.

(** The fields of a segment are not checked when it is built: they hold
    whatever JSON value came in. *)
Record Segment := {
  category : websocket.json;
  start : websocket.json;
  end_ : websocket.json
}.

(** An element of [segments]: a segment, a dictionary, or anything else. *)
Inductive item :=
| ISegment (s : Segment)
| IDict (d : gmap string websocket.json)
| IOther (v : websocket.json).

(** [Segment( **d)]: the keywords must be exactly the three fields. *)
Definition Segment_of (d : gmap string websocket.json) : result Segment :=
  match d !! "category", d !! "start", d !! "end" with
  | Some c, Some s, Some e =>
      if bool_decide (size d = 3%nat)
      then Ok {| category := c; start := s; end_ := e |}
      else Raise TypeError
  | _, _, _ => Raise TypeError
  end.

(** [SegmentsLoaded.__post_init__]: segments are kept, dictionaries are
    turned into segments, anything else is left out. *)
Fixpoint normalise (segments : list item) (temp : list item) : result (list item) :=
  match segments with
  | [] => Ok temp
  | ISegment s :: later => normalise later (temp ++ [ISegment s])
  | IDict d :: later =>
      match Segment_of d with
      | Ok s => normalise later (temp ++ [ISegment s])
      | Raise e => Raise e
      end
  | IOther _ :: later => normalise later temp
  end.

Definition SegmentsLoaded__post_init__ (segments : list item) : result (list item) :=
  normalise segments [].

(** [SegmentSkipped.__post_init__] *)
Definition SegmentSkipped__post_init__ (segment : item) : result item :=
  match segment with
  | IDict d =>
      match Segment_of d with
      | Ok s => Ok (ISegment s)
      | Raise e => Raise e
      end
  | other => Ok other
  end.

(** [isinstance(s, Segment)] *)
Definition is_segment (i : item) : bool :=
  match i with
  | ISegment _ => true
  | _ => false
  end.

End sponsorblock.

(** ** pylav/websocket.py: the read loop and the closing of the socket *)

Module websocket_lifecycle.

Import py websocket.

(** What the closing methods do to the outside: an effect of the methods
    above, or one of their own. *)
Inductive act :=
| Did (e : effect)
| NodeDisconnect (code : option Z) (reason : option string)
| CancelConnectTask
| ScheduleConnect
| WsClose (code : Z)
| SessionClose.

(** [self._ws and not self._ws.closed and not self._ws._closing], with
    [_closing] as the caller finds it, followed by the call of [ws.close]. *)
Definition close_socket (closing : bool) (w : WebSocket) : WebSocket * list act :=
  match _ws w with
  | Some ws =>
      if negb (closed ws) && negb closing
      then (set_ws w (Some {| closed := true; wire := wire ws; resets := resets ws |}),
            [WsClose 4014])
      else (w, [])
  | None => (w, [])
  end.

(** [WebSocket.close] *)
Definition close (closing : bool) (s : sys) : sys * list act :=
  let '(w, closed_now) := close_socket closing (self s) in
  ({| self := w; tasks := tasks s |}, [CancelConnectTask] ++ closed_now ++ [SessionClose]).

(** [WebSocket._websocket_closed]; [cancelled] is what
    [self._connect_task.cancelled()] returns.  The socket is forgotten
    before [close] is reached, so [close] finds none to close. *)
Definition _websocket_closed (code : option Z) (reason : option string)
  (cancelled closing : bool) (s : sys) : sys * list act :=
  let s1 := {| self := set_ws (self s) None; tasks := tasks s |} in
  let before :=
    [Did (Log INFO "WebSocket disconnected with the following: code=%s reason=%s");
     NodeDisconnect code reason]
    ++ (if cancelled then [] else [CancelConnectTask]) in
  if _manual_shutdown (self s1) then
    let '(s2, closing_acts) := close closing s1 in (s2, before ++ closing_acts)
  else (s1, before ++ [ScheduleConnect]).

(** [WebSocket.manual_closure] *)
Definition manual_closure (managed_node : bool) (cancelled closing : bool) (s : sys)
  : sys * list act :=
  let w := set_manual_shutdown (self s) managed_node in
  let '(w, closed_now) := close_socket closing w in
  let '(s', acts) :=
    _websocket_closed (Some 202) (Some "Manual websocket shutdown requested")
      cancelled closing {| self := w; tasks := tasks s |} in
  (s', closed_now ++ acts).

(** A message of the socket: a close frame with its code and reason, or
    any other message, of which [msg.json()] gives a frame or raises. *)
Inductive WSMessage :=
| CLOSED (data : option Z) (extra : option string)
| Message (json : result (gmap string json)).

(** The [except Exception] clause of [_listen]. *)
Definition listen_except (env : client_env) (closing : bool) (s : sys) : sys * list act :=
  if client_is_shutting_down env then (s, [])
  else
    let '(s', acts) := _websocket_closed None None false closing s in
    (s', Did (Log ERROR "Exception in WebSocket!") :: acts).

Definition received : act := Did (Log TRACE "Received WebSocket message: %s").

(** [WebSocket._listen] on the messages the socket yields, each with the
    client as it is when the message is handled.  It runs inside the
    connect task, which is therefore not cancelled yet. *)
Fixpoint _listen (msgs : list (client_env * WSMessage)) (closing : bool) (s : sys)
  : sys * list act :=
  match msgs with
  | [] => _websocket_closed None None false closing s
  | (env, msg) :: later =>
      if _manual_shutdown (self s) then (s, [])
      else
        match msg with
        | CLOSED data extra =>
            let '(s', acts) := _websocket_closed data extra false closing s in
            (s', [received; Did (Log INFO "Received close frame with code %s")] ++ acts)
        | Message (Raise _) =>
            let '(s', acts) := listen_except env closing s in
            (s', received :: acts)
        | Message (Ok data) =>
            match handle_message env data s with
            | (Ok _, s1, tr) =>
                let '(s', acts) := _listen later closing s1 in
                (s', received :: map Did tr ++ acts)
            | (Raise _, s1, tr) =>
                let '(s', acts) := listen_except env closing s1 in
                (s', received :: map Did tr ++ acts)
            end
        end
  end.

(** What the transport has been handed. *)
Definition wire_of (w : WebSocket) : list (gmap string json) :=
  match _ws w with
  | Some ws => wire ws
  | None => []
  end.

(** The passes of the connect loop that got as far as asking the node for
    its version. *)
Definition is_fetch (e : effect) : bool :=
  match e with
  | FetchApiVersion => true
  | _ => false
  end.

Definition attempts_made (tr : list effect) : nat := List.length (List.filter is_fetch tr).

(** The requests that configure resuming. *)
Definition is_patch (e : effect) : bool :=
  match e with
  | PatchSession => true
  | _ => false
  end.

Definition is_patch_act (a : act) : bool :=
  match a with
  | Did e => is_patch e
  | _ => false
  end.

Definition patches (acts : list act) : nat := List.length (List.filter is_patch_act acts).

Definition is_schedule (a : act) : bool :=
  match a with
  | ScheduleConnect => true
  | _ => false
  end.

Definition reconnects (acts : list act) : nat := List.length (List.filter is_schedule acts).

(** What a handler does to the two flags, and how often it asks for
    resuming: only [handle_ready] does, and only while the flag is clear. *)
Definition flags_kept (s : sys) (r : result unit * sys * list effect) : Prop :=
  _manual_shutdown (self r.1.2) = _manual_shutdown (self s)
  /\ (patches (map Did r.2) <= 1)%nat
  /\ (_resuming_configured (self s) = true ->
      patches (map Did r.2) = 0%nat /\ _resuming_configured (self r.1.2) = true)
  /\ (patches (map Did r.2) = 1%nat -> _resuming_configured (self r.1.2) = true).

End websocket_lifecycle.

(** ** Further sample inputs *)

Module scenarios.

Import py datarw decoder samples.

(** A track of two bytes: too short for its header. *)
Definition two_bytes : string := "QAA=".

(** A version-2 bandcamp track with its position. *)
Definition bandcamp_track : string :=
  "QAAAQgIABVRpdGxlAARBdXRoAAAAAAADR9gABmFiYzEyMwABAA5odHRwOi8veC9hLm1wMwAIYmFuZGNhbXAAAAAAAAAAAA==".

(** A text of 65536 letters: one byte more than [write_utf] takes. *)
Definition long_text : str := repeat 97 (Z.to_nat 65536).

(** A search for [lofi beats] on YouTube, and a query longer than twelve
    characters. *)
Definition lofi : query.Query := query.cls_search "lofi beats" "YouTube".

Definition long_query : query.Query :=
  query.cls "https://example.com/a/very/long/address" "HTTP".

(** A socket that gives up after two attempts, and a node that cannot be
    reached in any of five passes. *)
Definition two_attempts : websocket.WebSocket :=
  websocket.self (websocket.__init__ None None 2).

Definition unreachable : websocket.connect_env :=
  {| websocket.shutting_down_at_start := false;
     websocket.region := None;
     websocket.attempts := repeat (handshake_fails websocket.ClientConnectorError) 5 |}.

(** What the socket yields in one session: the ready frame, a frame of an
    unknown operation, then the close frame. *)
Definition session : list (websocket.client_env * websocket_lifecycle.WSMessage) :=
  [(running_client, websocket_lifecycle.Message (Ok ready_frame));
   (running_client, websocket_lifecycle.Message (Ok unknown_op));
   (running_client, websocket_lifecycle.CLOSED (Some 1000) None)].

(** Frames that follow an event of an unknown type. *)
Definition later_frames : list (websocket.client_env * websocket_lifecycle.WSMessage) :=
  [(running_client, websocket_lifecycle.Message (Ok ready_frame))].


End scenarios.

(** * Properties *)

(** ** The query classifier *)

Module query_properties.

Import regex query samples.

Lemma run_alt ci a b i s c k :
  run ci (Alt a b) i s c k =
  match run ci a i s c k with
  | Some c' => Some c'
  | None => run ci b i s c k
  end.
Proof. reflexivity. Qed.

(** An alternation whose last branch is empty matches wherever it is tried. *)
Lemma alts_empty_branch ci l i s c :
  is_Some (run ci (alts (l ++ [Eps])) i s c (fun _ _ c' => Some c')).
Proof.
  induction l as [|a l IH]; simpl.
  - eexists; reflexivity.
  - destruct (l ++ [Eps]) as [|b l'] eqn:E.
    + destruct l; discriminate.
    + rewrite run_alt.
      destruct (run ci a i s c _) as [c'|]; [eexists; reflexivity | exact IH].
Qed.

(** SOUND_CLOUD_REGEX matches every string. *)
Lemma sound_cloud_matches_all (s : string) : is_match SOUND_CLOUD_REGEX s = true.
Proof.
  unfold is_match, match_.
  destruct (alts_empty_branch true
              (removelast [seqs [Bos; scheme_or_none; Str "soundcloud.app.goo.gl/";
                                 Plus sc_cls; Opt (Lit "/"); query_part; Eos];
                           seqs [Bos; sc_host; Plus sc_cls; Lit "/"; Plus sc_cls;
                                 Opt (Lit "/"); query_part; Eos];
                           seqs [Bos; sc_host; Plus sc_cls; Lit "/"; Plus sc_cls;
                                 Str "/s-"; Plus sc_cls; query_part; Eos];
                           seqs [Bos; sc_host; Plus sc_cls; Str "/likes"; Opt (Lit "/");
                                 query_part; Eos];
                           seqs [Bos; sc_host; Plus sc_cls; Lit "/"; Plus sc_cls; Lit "/";
                                 Plus sc_cls; query_part; Eos];
                           Eps])
              0%nat (py.chars s) []) as [c Hc].
  change (run (ignorecase SOUND_CLOUD_REGEX) (expr SOUND_CLOUD_REGEX) 0%nat (py.chars s) []
            (fun _ _ c' => Some c') = Some c) in Hc.
  rewrite Hc. reflexivity.
Qed.

Lemma process_youtube_source (query : string) (music : bool) :
  is_search (process_youtube query music) = false
  /\ _source (process_youtube query music) = (if music then "YouTube Music" else "YouTube").
Proof.
  unfold process_youtube.
  destruct (py.contains "&list=" query && py.contains "watch?" query);
    [|destruct (py.contains "playlist?" query);
      [|destruct (py.contains "list=" query)]];
    split; reflexivity.
Qed.

(** Hence [__process_urls] gives a result for every string, and one of
    five sources. *)
Lemma process_urls_total (query : string) :
  exists q, __process_urls query = Some q /\ is_search q = false /\
    (_source q = "YouTube" \/ _source q = "YouTube Music" \/ _source q = "Spotify"
     \/ _source q = "Apple Music" \/ _source q = "SoundCloud").
Proof.
  unfold __process_urls.
  destruct (match_ YOUTUBE_REGEX query) as [m|].
  { eexists; split; [reflexivity|].
    destruct (process_youtube_source query
                (match group "music" m with
                 | Some g => negb (String.eqb g "")
                 | None => false
                 end)) as [Hs Hsrc].
    split; [exact Hs|]. rewrite Hsrc.
    destruct (match group "music" m with Some g => _ | None => _ end); auto. }
  destruct (is_match SPOTIFY_REGEX query).
  { eexists; split; [reflexivity|]. simpl; auto 6. }
  destruct (is_match APPLE_MUSIC_REGEX query).
  { eexists; split; [reflexivity|]. simpl; auto 6. }
  rewrite sound_cloud_matches_all.
  eexists; split; [reflexivity|]. simpl; auto 6.
Qed.

(** No string is classified as a search by [from_string_noawait]: the
    search directives and the fallback are never reached. *)
Lemma from_string_noawait_never_search (query : string) :
  is_search (from_string_noawait query) = false.
Proof.
  unfold from_string_noawait.
  destruct (process_urls_total query) as (q & -> & Hs & _). exact Hs.
Qed.

(** C4: classifying ["ytsearch:lofi beats"].  The classifier returns a
    SoundCloud query that is not a search, because SOUND_CLOUD_REGEX matches
    before the search directives are looked at; and [__process_search], were
    it reached, maps the prefix [yt] to YouTube Music, whose identifier is
    ["ytmsearch:lofi beats"].  In neither way is the source YouTube. *)
Theorem classify_ytsearch_lofi_beats (process_local : string -> option Query) :
  from_string process_local ytsearch
  = {| _query := QStr "ytsearch:lofi beats"; _source := "SoundCloud";
       _search := false; start_time := 0; index := 0; _type := "single";
       _recursive := false |}
  /\ from_string_noawait ytsearch = from_string process_local ytsearch
  /\ query_identifier (from_string_noawait ytsearch) = Some (QStr "ytsearch:lofi beats")
  /\ __process_search ytsearch
     = Some {| _query := QStr "lofi beats"; _source := "YouTube Music";
               _search := true; start_time := 0; index := 0; _type := "single";
               _recursive := false |}
  /\ query_identifier (cls_search "lofi beats" "YouTube Music")
     = Some (QStr "ytmsearch:lofi beats").
Proof. repeat split; vm_compute; reflexivity. Qed.

(** What [with_index] keeps and what it does not. *)
Lemma with_index_fields (q : Query) (i : Z) :
  index (with_index q i) = i
  /\ _query (with_index q i) = _query q
  /\ _source (with_index q i) = _source q
  /\ _search (with_index q i) = _search q
  /\ start_time (with_index q i) = start_time q
  /\ _type (with_index q i) = (if String.eqb (_type q) "" then "single" else _type q)
  /\ _recursive (with_index q i) = false.
Proof. repeat split. Qed.

(** C9: [with_index] on a recursive query.  The copy has the new index and
    the query value, source, search flag, start time and type of the
    original, but its recursive flag is false where the original's is
    true. *)
Theorem with_index_recursive_query :
  _recursive nested_rock = true
  /\ with_index nested_rock 3
     = {| _query := _query nested_rock; _source := "Local Files"; _search := false;
          start_time := 0; index := 3; _type := "album"; _recursive := false |}
  /\ _recursive (with_index nested_rock 3) <> _recursive nested_rock.
Proof. repeat split. discriminate. Qed.

End query_properties.

(** ** The track codec *)

Module codec_properties.

Import py datarw decoder samples.

#[local] Arguments is_in : simpl never.
#[local] Arguments str_eqb : simpl never.
#[local] Arguments read_nullable_utfm : simpl never.
#[local] Arguments read_utfm : simpl never.
#[local] Arguments read_long : simpl never.

Section codecs.
Context `{Codecs}.

Lemma decode_track_steps (track : string) (f : fixed) (rest : bytes) :
  steps_1_to_9 track = Ok (f, rest) ->
  decode_track track
  = Ok (build track f (source_fields (f_source f) (f_identifier f) rest).1,
        except_log (raised_in_tail f rest)).
Proof.
  unfold steps_1_to_9, decode_track, raised_in_tail.
  destruct (DataReader track) as [buf|e]; [|discriminate].
  intros ->. destruct (source_fields _ _ rest); reflexivity.
Qed.

Lemma read_position_fields (o : optional) (buf : bytes) :
  (read_position o buf).1 = o.
Proof. unfold read_position. destruct (read_long buf); reflexivity. Qed.

Lemma is_in_local_http (s : str) :
  is_in s ["local"; "http"] = true ->
  str_eqb s (lit "youtube") = false
  /\ is_in s ["deezer"; "spotify"; "applemusic"] = false
  /\ str_eqb s (lit "yandexmusic") = false.
Proof.
  unfold is_in, str_eqb. cbn [existsb]. intros Hs.
  repeat (apply orb_prop in Hs as [Hs|Hs]); try discriminate;
    apply bool_decide_eq_true in Hs; subst; repeat split; reflexivity.
Qed.

(** The optional fields that the [try] leaves are filled by its reads. *)
Lemma source_fields_filled (f : fixed) (rest : bytes) (track : string) :
  filled_by_reads f rest
    (info (build track f (source_fields (f_source f) (f_identifier f) rest).1)).
Proof.
  unfold filled_by_reads, source_fields. simpl.
  destruct (str_eqb (f_source f) (lit "youtube")) eqn:Ey.
  { apply bool_decide_eq_true in Ey. rewrite read_position_fields. simpl.
    split; [|split]; intros v Hv; try discriminate.
    injection Hv as <-. left. auto. }
  destruct (is_in (f_source f) ["deezer"; "spotify"; "applemusic"]) eqn:El.
  { destruct (read_nullable_utfm rest) as [[x r1]|e] eqn:E1; simpl.
    - destruct (read_nullable_utfm r1) as [[y r2]|e] eqn:E2; simpl;
        rewrite ?read_position_fields; simpl;
        (split; [|split]); intros v Hv; try discriminate; subst; eauto.
      right; left. eauto 10.
    - split; [|split]; intros v Hv; discriminate. }
  destruct (str_eqb (f_source f) (lit "yandexmusic")) eqn:Ea.
  { apply bool_decide_eq_true in Ea.
    destruct (read_nullable_utfm rest) as [[x r1]|e] eqn:E1; simpl;
      rewrite ?read_position_fields; simpl;
      (split; [|split]); intros v Hv; try discriminate.
    subst. right; right. eauto. }
  destruct (is_in (f_source f) ["local"; "http"]) eqn:Ep.
  { destruct (read_utfm rest) as [[x r1]|e] eqn:E1; simpl;
      rewrite ?read_position_fields; simpl;
      (split; [|split]); intros v Hv; try discriminate.
    injection Hv as <-. eauto. }
  rewrite read_position_fields. simpl.
  split; [|split]; intros v Hv; discriminate.
Qed.

(** C5, as the code has it: for a local or http track the probe info is
    read as a plain modified-UTF8 string, a two-byte length and that many
    bytes with no presence byte before them; when that read raises, the
    probe info stays null and the track is returned all the same. *)
Theorem probe_info_read_as_utfm (track : string) (f : fixed) (rest : bytes) :
  steps_1_to_9 track = Ok (f, rest) ->
  is_in (f_source f) ["local"; "http"] = true ->
  exists tr log,
    decode_track track = Ok (tr, log)
    /\ probeInfo (info tr)
       = match read_utfm rest with
         | Ok (probe, _) => Some probe
         | Raise _ => None
         end.
Proof.
  intros Hs Hp. rewrite (decode_track_steps _ _ _ Hs).
  eexists _, _. split; [reflexivity|].
  destruct (is_in_local_http _ Hp) as (Hy & Hl & Ha).
  unfold source_fields. rewrite Hy, Hl, Ha, Hp.
  destruct (read_utfm rest) as [[x r1]|e]; simpl;
    rewrite ?read_position_fields; reflexivity.
Qed.

(** [write_utf], case by case. *)
Lemma write_utf_cases (utf_string : str) (buf : bytes) :
  write_utf utf_string buf
  = match encode utf_string with
    | Raise e => (Raise e, buf)
    | Ok utf =>
        if 65535 <? Z.of_nat (List.length utf) then (Raise OverflowError, buf)
        else (Ok tt, buf ++ be_bytes 2 (Z.of_nat (List.length utf)) ++ utf)
    end.
Proof.
  unfold write_utf. destruct (encode utf_string) as [utf|e]; [|reflexivity].
  destruct (65535 <? Z.of_nat (List.length utf)) eqn:E; [reflexivity|].
  unfold wseq, write_unsigned_short, write_packed, pack_unsigned, _write.
  apply Z.ltb_ge in E.
  replace (0 <=? Z.of_nat (List.length utf)) with true by (symmetry; apply Z.leb_le; lia).
  replace (Z.of_nat (List.length utf) <? 256 ^ Z.of_nat 2) with true
    by (symmetry; apply Z.ltb_lt; change (256 ^ Z.of_nat 2) with 65536; lia).
  simpl. rewrite <- app_assoc. reflexivity.
Qed.

End codecs.

(** On the truncated deezer track the isrc that was read is kept, the
    thumbnail is null and the failure is logged. *)
Example decode_deezer_truncated :
  exists tr,
    @decode_track cpython.codecs deezer_truncated
    = Ok (tr, [{| lvl := DEBUG; msg := "Failed to decode track";
                  exc_info := Some struct_error |}])
    /\ isrc (info tr) = Some (lit "ISRC1")
    /\ thumbnail (info tr) = None
    /\ probeInfo (info tr) = None.
Proof. eexists. repeat split; vm_compute; reflexivity. Qed.

(** C5, as the specification has it, fails.  On a local track whose probe info is
    laid out as an absent nullable string, the code reads the presence byte
    and the first byte of the position as a length of zero: the probe info
    is the empty string, not null, and the position can no longer be read.
    On a local track as lavaplayer writes it, the code reads [mp3] where a
    nullable read finds a presence byte of 0 and gives null. *)
Lemma probe_info_nullable_counterexample :
  (exists tr log,
     @decode_track cpython.codecs local_absent_probe = Ok (tr, log)
     /\ probeInfo (info tr) = Some []
     /\ log = [{| lvl := DEBUG; msg := "Failed to decode track";
                  exc_info := Some struct_error |}])
  /\ (exists tr,
       @decode_track_nullable_probe cpython.codecs local_absent_probe = Ok (tr, [])
       /\ probeInfo (info tr) = None)
  /\ (exists tr tr',
       @decode_track cpython.codecs local_mp3 = Ok (tr, [])
       /\ probeInfo (info tr) = Some (lit "mp3")
       /\ @decode_track_nullable_probe cpython.codecs local_mp3 = Ok (tr', [])
       /\ probeInfo (info tr') = None)
  /\ @decode_track cpython.codecs local_absent_probe
     <> @decode_track_nullable_probe cpython.codecs local_absent_probe.
Proof.
  split; [eexists _, _; repeat split; vm_compute; reflexivity|].
  split; [eexists; repeat split; vm_compute; reflexivity|].
  split; [eexists _, _; repeat split; vm_compute; reflexivity|].
  vm_compute. discriminate.
Qed.

Lemma probe_info_read_as_utfm_witness :
  @steps_1_to_9 cpython.codecs local_mp3 = Ok (sample_fixed "local", local_mp3_rest)
  /\ is_in (f_source (sample_fixed "local")) ["local"; "http"] = true
  /\ exists tr log,
      @decode_track cpython.codecs local_mp3 = Ok (tr, log)
      /\ probeInfo (info tr)
         = match @read_utfm cpython.codecs local_mp3_rest with
           | Ok (probe, _) => Some probe
           | Raise _ => None
           end.
Proof.
  split; [vm_compute; reflexivity|]. split; [vm_compute; reflexivity|].
  apply (@probe_info_read_as_utfm cpython.codecs local_mp3
           (sample_fixed "local") local_mp3_rest);
    vm_compute; reflexivity.
Defined.

(** The scenario of the youtube thumbnail. *)
Example decode_youtube_track :
  exists tr,
    @decode_track cpython.codecs youtube_track = Ok (tr, [])
    /\ thumbnail (info tr) = Some (lit "https://img.youtube.com/vi/abc123/mqdefault.jpg")
    /\ isrc (info tr) = None
    /\ probeInfo (info tr) = None.
Proof. eexists. repeat split; vm_compute; reflexivity. Qed.

(** CPython's encoder raises nothing but UnicodeEncodeError. *)
Lemma encode_raises (s : str) (e : exn) :
  cpython.encode s = Raise e -> e = UnicodeEncodeError.
Proof.
  induction s as [|c s IH]; simpl; [discriminate|].
  destruct (cpython.encode_char c); [|congruence].
  destruct (cpython.encode s); [discriminate|].
  intros [= <-]. apply IH. reflexivity.
Qed.

(** C10, as the code has it.  [write_utf] raises OverflowError exactly when
    the string has a UTF-8 encoding of more than 65535 bytes, and the
    buffer is then unchanged; with an encoding of at most 65535 bytes it
    appends the two-byte big-endian length and the encoding; and a string
    that has no encoding raises UnicodeEncodeError, the buffer unchanged. *)
Theorem write_utf_outcomes (utf_string : str) (buf : bytes) :
  match cpython.encode utf_string with
  | Ok utf =>
      if 65535 <? Z.of_nat (List.length utf)
      then @write_utf cpython.codecs utf_string buf = (Raise OverflowError, buf)
      else @write_utf cpython.codecs utf_string buf
           = (Ok tt, buf ++ be_bytes 2 (Z.of_nat (List.length utf)) ++ utf)
  | Raise _ =>
      @write_utf cpython.codecs utf_string buf = (Raise UnicodeEncodeError, buf)
  end
  /\ ((@write_utf cpython.codecs utf_string buf).1 = Raise OverflowError
      <-> exists utf, cpython.encode utf_string = Ok utf
                      /\ 65535 < Z.of_nat (List.length utf)).
Proof.
  rewrite (@write_utf_cases cpython.codecs).
  change (@encode cpython.codecs utf_string) with (cpython.encode utf_string).
  destruct (cpython.encode utf_string) as [utf|e] eqn:E.
  - destruct (65535 <? Z.of_nat (List.length utf)) eqn:L.
    + split; [reflexivity|]. split; [|reflexivity].
      intros _. exists utf. split; [reflexivity|]. apply Z.ltb_lt. exact L.
    + split; [reflexivity|]. split; [discriminate|].
      intros (utf' & [= <-] & Hlen). apply Z.ltb_ge in L. lia.
  - rewrite (encode_raises _ _ E). split; [reflexivity|].
    split; [discriminate|]. intros (utf' & [=] & _).
Qed.

(** C10, as the specification has it, fails on a lone surrogate: no OverflowError
    is raised, and nothing is written. *)
Lemma write_utf_lone_surrogate :
  @write_utf cpython.codecs lone_surrogate [] = (Raise UnicodeEncodeError, [])
  /\ (@write_utf cpython.codecs lone_surrogate []).1 <> Raise OverflowError
  /\ forall utf,
       @write_utf cpython.codecs lone_surrogate []
       <> (Ok tt, [] ++ be_bytes 2 (Z.of_nat (List.length utf)) ++ utf).
Proof. repeat split; vm_compute; discriminate. Qed.

(** Two bytes of length, then the bytes of the string. *)
Example write_utf_hi :
  @write_utf cpython.codecs (lit "hi") []
  = (Ok tt, [Byte.x00; Byte.x02] ++ list_byte_of_string "hi").
Proof. vm_compute. reflexivity. Qed.

End codec_properties.

(** ** The decoder as it runs: the return statement and the world *)

Module decoder_run_properties.

Import py datarw decoder_run samples scenarios.

#[local] Arguments decoder.is_in : simpl never.
#[local] Arguments str_eqb : simpl never.

Section codecs.
Context `{Codecs}.

Lemma refines_ret {A : Type} (a : A) : refines (decoder_run.ret a) (datarw.ret a).
Proof.
  intros self w o Ho. exists o. split; [|split; reflexivity].
  unfold decoder_run.ret, set_objects. simpl.
  rewrite list_insert_id by exact Ho. destruct w; reflexivity.
Qed.

Lemma refines_lift {A : Type} (r : result A) : refines (decoder_run.lift r) (datarw.lift r).
Proof.
  intros self w o Ho. exists o. split.
  - unfold decoder_run.lift, set_objects. simpl.
    rewrite list_insert_id by exact Ho. destruct w; reflexivity.
  - unfold datarw.lift. destruct r; simpl; auto.
Qed.

Lemma refines_bind {A B : Type} (m : method A) (r : reader A)
  (f : A -> method B) (g : A -> reader B) :
  refines m r -> (forall a, refines (f a) (g a)) ->
  refines (decoder_run.bind m f) (datarw.bind r g).
Proof.
  intros Hm Hf self w o Ho. unfold decoder_run.bind, datarw.bind.
  destruct (Hm self w o Ho) as (o1 & Hw1 & Hr1).
  assert (Hlt : (self < List.length (objects w))%nat) by (eapply lookup_lt_Some; eauto).
  destruct (m self w) as [[a|e] w1]; simpl in Hw1, Hr1; subst w1.
  - destruct (r (unread o)) as [[a' rem]|e]; [|discriminate Hr1].
    destruct Hr1 as [[= <-] Hrem].
    destruct (Hf a self (set_objects w (<[self:=o1]> (objects w))) o1) as (o2 & Hw2 & Hr2).
    { simpl. apply list_lookup_insert_eq. exact Hlt. }
    exists o2. split.
    + rewrite Hw2. unfold set_objects. simpl. rewrite list_insert_insert_eq. reflexivity.
    + rewrite <- Hrem. exact Hr2.
  - exists o1. split; [reflexivity|].
    destruct (r (unread o)) as [[a' rem]|e']; [destruct Hr1; discriminate|].
    simpl. injection Hr1 as ->. reflexivity.
Qed.

Lemma refines_read (count : nat) : refines (decoder_run._read count) (datarw._read count).
Proof.
  intros self w o Ho. unfold decoder_run._read. rewrite Ho.
  eexists. split; [reflexivity|]. simpl. split; [reflexivity|].
  unfold unread. simpl. rewrite length_firstn, length_skipn.
  rewrite skipn_skipn.
  destruct (Nat.le_gt_cases count (List.length (getvalue o) - tell o)) as [Hle|Hgt].
  - rewrite Nat.min_l by exact Hle. f_equal. lia.
  - rewrite Nat.min_r by lia.
    rewrite !skipn_all2 by lia. reflexivity.
Qed.

Ltac refines_step :=
  first [ apply refines_bind; [|intros ?] | apply refines_lift | apply refines_ret
        | apply refines_read ].

Lemma refines_read_boolean : refines decoder_run.read_boolean datarw.read_boolean.
Proof. unfold decoder_run.read_boolean, datarw.read_boolean, decoder_run.read_byte,
         datarw.read_byte. repeat refines_step. Qed.

Lemma refines_read_unsigned_short :
  refines decoder_run.read_unsigned_short datarw.read_unsigned_short.
Proof. unfold decoder_run.read_unsigned_short, datarw.read_unsigned_short.
       repeat refines_step. Qed.

Lemma refines_read_int : refines decoder_run.read_int datarw.read_int.
Proof. unfold decoder_run.read_int, datarw.read_int. repeat refines_step. Qed.

Lemma refines_read_long : refines decoder_run.read_long datarw.read_long.
Proof. unfold decoder_run.read_long, datarw.read_long. repeat refines_step. Qed.

Lemma refines_read_utf : refines decoder_run.read_utf datarw.read_utf.
Proof.
  unfold decoder_run.read_utf, datarw.read_utf.
  apply refines_bind; [apply refines_read_unsigned_short|intros ?].
  repeat refines_step.
Qed.

Lemma refines_read_utfm : refines decoder_run.read_utfm datarw.read_utfm.
Proof.
  unfold decoder_run.read_utfm, datarw.read_utfm.
  apply refines_bind; [apply refines_read_unsigned_short|intros ?].
  repeat refines_step.
Qed.

Lemma refines_read_nullable_utf :
  refines decoder_run.read_nullable_utf datarw.read_nullable_utf.
Proof.
  unfold decoder_run.read_nullable_utf, datarw.read_nullable_utf.
  apply refines_bind; [apply refines_read_boolean|intros present].
  destruct (present =? 0); [apply refines_ret|].
  apply refines_bind; [apply refines_read_utf|intros ?]. apply refines_ret.
Qed.

Lemma refines_read_nullable_utfm :
  refines decoder_run.read_nullable_utfm datarw.read_nullable_utfm.
Proof.
  unfold decoder_run.read_nullable_utfm, datarw.read_nullable_utfm.
  apply refines_bind; [apply refines_read_boolean|intros present].
  destruct (present =? 0); [apply refines_ret|].
  apply refines_bind; [apply refines_read_utfm|intros ?]. apply refines_ret.
Qed.

Lemma refines_fixed_fields : refines decoder_run.fixed_fields decoder.fixed_fields.
Proof.
  unfold decoder_run.fixed_fields, decoder.fixed_fields.
  apply refines_bind; [apply refines_read_int|intros x].
  apply refines_bind.
  { destruct (negb _); [|apply refines_ret].
    unfold decoder_run.read_byte, datarw.read_byte. repeat refines_step. }
  intros version.
  apply refines_bind; [apply refines_read_utfm|intros title].
  apply refines_bind; [apply refines_read_utfm|intros author].
  apply refines_bind; [apply refines_read_long|intros len].
  apply refines_bind; [apply refines_read_utf|intros identifier].
  apply refines_bind; [apply refines_read_boolean|intros is_stream].
  apply refines_bind; [apply refines_read_nullable_utf|intros uri].
  apply refines_bind; [apply refines_read_utf|intros source].
  apply refines_ret.
Qed.

Lemma read_position_refines (v : decoder.optional) :
  try_refines (decoder_run.read_position v) (decoder.read_position v).
Proof.
  intros self w o Ho. unfold decoder_run.read_position, decoder.read_position.
  destruct (refines_read_long self w o Ho) as (o' & Hw & Hr).
  exists o'. destruct (decoder_run.read_long self w) as [[a|e] w']; simpl in Hw, Hr; subst w';
    destruct (datarw.read_long (unread o)) as [[a' rem]|e']; try discriminate;
    try (destruct Hr; discriminate); [reflexivity|].
  injection Hr as ->. reflexivity.
Qed.

Lemma run_step {A : Type} (m : method A) (r : reader A) (self : nat) (w : world)
  (o : BytesIO) :
  refines m r ->
  objects w !! self = Some o ->
  match r (unread o) with
  | Ok (a, rem) =>
      exists o', m self w = (Ok a, set_objects w (<[self := o']> (objects w)))
                 /\ unread o' = rem
                 /\ objects (set_objects w (<[self := o']> (objects w))) !! self = Some o'
  | Raise e =>
      exists o', m self w = (Raise e, set_objects w (<[self := o']> (objects w)))
  end.
Proof.
  intros Hm Ho. destruct (Hm self w o Ho) as (o' & Hw & Hr).
  assert (Hlt : (self < List.length (objects w))%nat) by (eapply lookup_lt_Some; eauto).
  destruct (m self w) as [res w']. simpl in Hw, Hr. subst w'.
  destruct (r (unread o)) as [[a rem]|e].
  - destruct Hr as [-> Hrem]. exists o'. split; [reflexivity|]. split; [exact Hrem|].
    simpl. apply list_lookup_insert_eq. exact Hlt.
  - subst res. exists o'. reflexivity.
Qed.

Lemma set_twice (w : world) (self : nat) (o1 o2 : BytesIO) :
  set_objects (set_objects w (<[self := o1]> (objects w)))
    (<[self := o2]> (objects (set_objects w (<[self := o1]> (objects w)))))
  = set_objects w (<[self := o2]> (objects w)).
Proof. unfold set_objects. simpl. rewrite list_insert_insert_eq. reflexivity. Qed.

Lemma try_body_refines (source identifier : str) :
  try_refines (decoder_run.try_body source identifier)
    (decoder.source_fields source identifier).
Proof.
  intros self w o Ho. unfold decoder_run.try_body, decoder.source_fields.
  destruct (str_eqb source (lit "youtube")); [apply read_position_refines; exact Ho|].
  destruct (decoder.is_in source ["deezer"; "spotify"; "applemusic"]).
  { pose proof (run_step _ _ self w o refines_read_nullable_utfm Ho) as H1.
    destruct (datarw.read_nullable_utfm (unread o)) as [[isrc r1]|e].
    - destruct H1 as (o1 & -> & Hr1 & Ho1).
      pose proof (run_step _ _ self _ o1 refines_read_nullable_utfm Ho1) as H2.
      rewrite Hr1 in H2.
      destruct (datarw.read_nullable_utfm r1) as [[thumbnail r2]|e].
      + destruct H2 as (o2 & -> & Hr2 & Ho2).
        destruct (read_position_refines
                    {| decoder.o_thumbnail := thumbnail; decoder.o_isrc := isrc;
                       decoder.o_probe := None |} self _ o2 Ho2) as (o3 & ->).
        exists o3. rewrite Hr2, !set_twice. reflexivity.
      + destruct H2 as (o2 & ->). exists o2. rewrite set_twice. reflexivity.
    - destruct H1 as (o1 & ->). exists o1. reflexivity. }
  destruct (str_eqb source (lit "yandexmusic")).
  { pose proof (run_step _ _ self w o refines_read_nullable_utfm Ho) as H1.
    destruct (datarw.read_nullable_utfm (unread o)) as [[thumbnail r1]|e].
    - destruct H1 as (o1 & -> & Hr1 & Ho1).
      destruct (read_position_refines
                  {| decoder.o_thumbnail := thumbnail; decoder.o_isrc := None;
                     decoder.o_probe := None |} self _ o1 Ho1) as (o2 & ->).
      exists o2. rewrite Hr1, set_twice. reflexivity.
    - destruct H1 as (o1 & ->). exists o1. reflexivity. }
  destruct (decoder.is_in source ["local"; "http"]).
  { pose proof (run_step _ _ self w o refines_read_utfm Ho) as H1.
    destruct (datarw.read_utfm (unread o)) as [[probe r1]|e].
    - destruct H1 as (o1 & -> & Hr1 & Ho1).
      destruct (read_position_refines
                  {| decoder.o_thumbnail := None; decoder.o_isrc := None;
                     decoder.o_probe := Some probe |} self _ o1 Ho1) as (o2 & ->).
      exists o2. rewrite Hr1, set_twice. reflexivity.
    - destruct H1 as (o1 & ->). exists o1. reflexivity. }
  apply read_position_refines. exact Ho.
Qed.

(** A call of [decode_track] returns or raises what [decoded] says and
    hands the logger what [logged] says, whatever the world it is made in;
    of the world it changes nothing but for the reader it makes, if it
    gets that far, and the records it adds. *)
Lemma decode_track_run (globals : list string)
  (check : decoder.LavalinkTrackObject -> option exn) (track : string) (w : world) :
  exists made,
    decoder_run.decode_track globals check track w
    = (decoded globals check track,
       {| objects := objects w ++ made; records := records w ++ logged track |})
    /\ (List.length made <= 1)%nat.
Proof.
  unfold decoder_run.decode_track, decoded, logged, decoder.steps_1_to_9,
    decoder.raised_in_tail, decoder_run.DataReader, datarw.DataReader.
  destruct (b64decode track) as [b|e].
  2:{ exists []. rewrite !app_nil_r. destruct w. split; [reflexivity|simpl; lia]. }
  set (o := {| getvalue := b; tell := 0 |}).
  set (w0 := set_objects w (objects w ++ [o])).
  assert (Ho : objects w0 !! List.length (objects w) = Some o).
  { unfold w0. simpl. apply list_lookup_middle. reflexivity. }
  assert (Hins : forall o', <[List.length (objects w) := o']> (objects w0) = objects w ++ [o']).
  { intros o'. unfold w0. simpl.
    rewrite <- (Nat.add_0_r (List.length (objects w))), insert_app_r. reflexivity. }
  pose proof (run_step _ _ _ w0 o refines_fixed_fields Ho) as H1.
  change (unread o) with b in H1.
  destruct (decoder.fixed_fields b) as [[f rest]|e].
  - destruct H1 as (o1 & -> & Hr1 & Ho1).
    destruct (try_body_refines (decoder.f_source f) (decoder.f_identifier f) _ _ o1 Ho1)
      as (o2 & ->).
    rewrite Hr1, set_twice.
    destruct (decoder.source_fields _ _ rest) as [v exc]. simpl.
    exists [o2]. split; [|simpl; lia].
    unfold log, set_objects. simpl. rewrite Hins. reflexivity.
  - destruct H1 as (o1 & ->). exists [o1]. split; [|simpl; lia].
    unfold set_objects. simpl. rewrite Hins, app_nil_r. reflexivity.
Qed.

(** In a module that binds the name of the class, a dictionary that
    passes the check of the class is returned as the track: it carries
    the fields of steps 1 to 9, and an optional field is null or what a
    read of the [try] returned. *)
Lemma decode_track_with_class
  (check : decoder.LavalinkTrackObject -> option exn)
  (track : string) (f : decoder.fixed) (rest : bytes) (w : world) :
  decoder.steps_1_to_9 track = Ok (f, rest) ->
  (forall data, check data = None) ->
  exists tr,
    (decoder_run.decode_track with_class check track w).1 = Ok tr
    /\ decoder.encoded tr = track
    /\ decoder.carries_fixed f (decoder.info tr)
    /\ decoder.filled_by_reads f rest (decoder.info tr).
Proof.
  intros Hs Hc. destruct (decode_track_run with_class check track w) as (made & -> & _).
  unfold decoded. rewrite Hs. unfold return_statement, from_dict. simpl.
  rewrite Hc. eexists. split; [reflexivity|]. split; [reflexivity|].
  split; [repeat split|]. apply codec_properties.source_fields_filled.
Qed.

(** C3: as decoder.py is written, a track whose fixed fields decode is
    never returned.  Whatever happens in steps 10 and 11 is caught, but
    the return statement, which is outside the [try], reads the name
    LavalinkTrackObject, and the module binds no such name: NameError
    leaves [decode_track], in every world and whatever the class would
    accept. *)
Theorem decode_track_raises_name_error
  (check : decoder.LavalinkTrackObject -> option exn)
  (track : string) (f : decoder.fixed) (rest : bytes) (w : world) :
  decoder.steps_1_to_9 track = Ok (f, rest) ->
  (decoder_run.decode_track module_globals check track w).1 = Raise NameError.
Proof.
  intros Hs. destruct (decode_track_run module_globals check track w) as (made & -> & _).
  unfold decoded. rewrite Hs. reflexivity.
Qed.


End codecs.

Lemma decode_track_raises_name_error_witness :
  @decoder.steps_1_to_9 cpython.codecs deezer_truncated
  = Ok (sample_fixed "deezer", deezer_rest)
  /\ (@decoder_run.decode_track cpython.codecs module_globals lenient deezer_truncated
        nothing).1 = Raise NameError.
Proof.
  split; [vm_compute; reflexivity|].
  apply (@decode_track_raises_name_error cpython.codecs lenient deezer_truncated
           (sample_fixed "deezer") deezer_rest nothing).
  vm_compute; reflexivity.
Defined.

(** On the truncated deezer track the failure of the second read is caught
    and logged, and then the return statement raises. *)
Example decode_deezer_truncated_run :
  (@decoder_run.decode_track cpython.codecs module_globals lenient deezer_truncated
     nothing).1 = Raise NameError
  /\ records (@decoder_run.decode_track cpython.codecs module_globals lenient
                deezer_truncated nothing).2
     = [{| lvl := DEBUG; msg := "Failed to decode track";
           exc_info := Some struct_error |}].
Proof. split; vm_compute; reflexivity. Qed.


End decoder_run_properties.

(** ** The connection: send queue, connect loop, frames, probes *)

Module websocket_properties.

Import py websocket samples.

(** *** The send queue *)

Lemma not_ready_not_connected (w : WebSocket) : ready w = false -> connected w = false.
Proof.
  intros Hr. unfold connected. destruct (_ws w); [|reflexivity].
  rewrite Hr. apply andb_false_r.
Qed.

(** Before the socket is ready, [send] hands nothing to the transport. *)
Lemma send_not_ready (w : WebSocket) (data : gmap string json) :
  ready w = false ->
  _ws (send w data).1 = _ws w /\ ready (send w data).1 = false.
Proof.
  intros Hr. unfold send. rewrite (not_ready_not_connected _ Hr).
  destruct (_manual_shutdown w); simpl; auto.
Qed.

Lemma send_all_not_ready (messages : list (gmap string json)) (w : WebSocket) :
  ready w = false ->
  _ws (send_all messages w).1 = _ws w /\ ready (send_all messages w).1 = false.
Proof.
  revert w. induction messages as [|m l IH]; intros w Hr; simpl; [auto|].
  destruct (send_not_ready w m Hr) as [Hw Hr'].
  destruct (send w m) as [w1 e1]. simpl in Hw, Hr'.
  specialize (IH w1 Hr'). destruct (send_all l w1) as [w2 e2]. simpl in *.
  destruct IH as [IH1 IH2]. split; congruence.
Qed.

(** The flush of [connect], run while the socket is not ready, empties
    the queue and hands nothing to the transport. *)
Lemma flush_not_ready (w : WebSocket) :
  ready w = false ->
  _ws (flush w).1 = _ws w /\ _message_queue (flush w).1 = [].
Proof.
  intros Hr. unfold flush. destruct (_message_queue w) as [|m l] eqn:Eq.
  - auto.
  - destruct (send_all_not_ready (m :: l) w Hr) as [Hw _].
    destruct (send_all (m :: l) w) as [w' e]. simpl in *. auto.
Qed.

(** C1: two payloads sent while disconnected are in the queue, in order.
    The next successful connect passes them to [send] while the socket is
    not yet ready, which appends them to the queue again, and then clears
    the queue: nothing has reached the transport, and the queue is empty.
    A payload sent after the ready frame is the only one the transport
    ever gets. *)
Theorem queued_messages_lost_on_connect :
  _message_queue queued = [play; pause]
  /\ _message_queue after_connect = []
  /\ _ws after_connect = Some fresh_socket
  /\ ready after_ready = true
  /\ _ws (send after_ready stop).1
     = Some {| closed := false; wire := [stop]; resets := [] |}
  /\ _message_queue (send after_ready stop).1 = [].
Proof. repeat split; vm_compute; reflexivity. Qed.

(** *** Frames *)

Lemma handle_event_unparsed (env : client_env) (d : gmap string json) (s : sys) :
  client_is_shutting_down env = false ->
  handle_event env (Unparsed d) s = (Raise AttributeError, s, []).
Proof. intros Hs. unfold handle_event. rewrite Hs. reflexivity. Qed.

(** A frame of an unknown operation is logged and dropped. *)
Lemma unknown_op_dropped (env : client_env) (data : gmap string json) (op : json) (s : sys) :
  data !! "op" = Some op ->
  str_is op "playerUpdate" = false -> str_is op "stats" = false ->
  str_is op "event" = false -> str_is op "ready" = false ->
  handle_message env data s = (Ok tt, s, [Log WARNING "Received unknown op: %s"]).
Proof.
  intros Hop H1 H2 H3 H4. unfold handle_message.
  rewrite Hop, H1, H2, H3, H4. reflexivity.
Qed.

(** An event frame of an unknown type is logged, and then handed to
    [handle_event] as it is: unless the client is shutting down,
    AttributeError leaves [handle_message]. *)
Lemma unknown_event_raises (env : client_env) (data : gmap string json) (t : json) (s : sys) :
  data !! "op" = Some (JStr "event") ->
  data !! "type" = Some t ->
  event_class t = None ->
  client_is_shutting_down env = false ->
  handle_message env data s
  = (Raise AttributeError, s, [Log WARNING "Received unknown event: %s"]).
Proof.
  intros Hop Ht Hc Hs. unfold handle_message. rewrite Hop. simpl.
  rewrite Ht, Hc, (handle_event_unparsed _ _ _ Hs). reflexivity.
Qed.

(** C6: a frame whose operation is unknown is logged at WARNING level and
    dropped.  An event frame whose type is unknown is logged at WARNING
    level and nothing is dispatched, but the frame handler does not return:
    AttributeError is raised out of [handle_message]. *)
Theorem unknown_frames (env : client_env) (s : sys) :
  client_is_shutting_down env = false ->
  handle_message env unknown_op s = (Ok tt, s, [Log WARNING "Received unknown op: %s"])
  /\ handle_message env unknown_event s
     = (Raise AttributeError, s, [Log WARNING "Received unknown event: %s"]).
Proof.
  intros Hs. split.
  - apply (unknown_op_dropped env unknown_op (JStr "pong")); reflexivity.
  - apply (unknown_event_raises env unknown_event (JStr "PlayerPausedEvent"));
      [reflexivity | reflexivity | reflexivity | exact Hs].
Qed.

Lemma unknown_frames_witness :
  client_is_shutting_down running_client = false
  /\ handle_message running_client unknown_op new_socket
     = (Ok tt, new_socket, [Log WARNING "Received unknown op: %s"])
  /\ handle_message running_client unknown_event new_socket
     = (Raise AttributeError, new_socket, [Log WARNING "Received unknown event: %s"]).
Proof.
  split; [reflexivity|]. apply (unknown_frames running_client new_socket). reflexivity.
Defined.

(** *** The connect loop *)

Lemma emit_trace (e : list effect) (r : run) : (emit e r).1.2 = e ++ r.1.2.
Proof. destruct r as [[w tr] o]. reflexivity. Qed.

Lemma emit_outcome (e : list effect) (r : run) : (emit e r).2 = r.2.
Proof. destruct r as [[w tr] o]. reflexivity. Qed.

Lemma emit_state (e : list effect) (r : run) : (emit e r).1.1 = r.1.1.
Proof. destruct r as [[w tr] o]. reflexivity. Qed.

Lemma send_logs (w : WebSocket) (d : gmap string json) : Forall is_log (send w d).2.
Proof.
  unfold send. destruct (_manual_shutdown w); [constructor|].
  destruct (connected w).
  - destruct (_ws w); [|constructor].
    destruct (send_json _ _) as [ws' [|]]; simpl;
      repeat constructor; unfold is_log; eauto.
  - repeat constructor; unfold is_log; eauto.
Qed.

Lemma send_all_logs (l : list (gmap string json)) :
  forall w, Forall is_log (send_all l w).2.
Proof.
  induction l as [|m l IH]; intros w; simpl; [constructor|].
  pose proof (send_logs w m) as H1. destruct (send w m) as [w1 e1].
  pose proof (IH w1) as H2. destruct (send_all l w1) as [w2 e2]. simpl in *.
  apply Forall_app; auto.
Qed.

Lemma flush_logs (w : WebSocket) : Forall is_log (flush w).2.
Proof.
  unfold flush. destruct (_message_queue w) as [|m l]; [constructor|].
  pose proof (send_all_logs (m :: l) w) as H. destruct (send_all (m :: l) w). exact H.
Qed.

(** Take the first effect off both sides of a decomposition of a trace. *)
Ltac head_off H :=
  match type of H with
  | [] = ?pre ++ _ :: _ => destruct pre; discriminate H
  | _ :: _ = ?pre ++ _ :: _ =>
      let e := fresh "e" in
      destruct pre as [|e pre]; simpl in H;
      [ try discriminate H | injection H as _ H ]
  end.

Lemma connect_loop_auth (envs : list attempt_env) :
  forall attempt w pre post status,
    (connect_loop envs attempt w).1.2
    = pre ++ WsConnect (Some (WSServerHandshakeError status)) :: post ->
    status = 401 \/ status = 403 ->
    (connect_loop envs attempt w).2 = Returned
    /\ _connecting (connect_loop envs attempt w).1.1 = false
    /\ Forall is_log post.
Proof.
  induction envs as [|env envs IH]; intros attempt w pre post status Htr Hauth.
  - simpl in *. destruct (_ && _); simpl in *; repeat head_off Htr.
  - simpl in *.
    destruct (negb (connected w) && _); [|simpl in *; repeat head_off Htr].
    destruct (_manual_shutdown _); [simpl in *; repeat head_off Htr|].
    rewrite emit_trace, emit_outcome, emit_state in *.
    destruct (fetch_api_version env) as [v|e]; [|simpl in *; repeat head_off Htr].
    destruct (falsy v); [simpl in *; repeat head_off Htr|].
    destruct (try_open env _) as [w1 [f|]].
    + rewrite emit_trace, emit_outcome, emit_state in *.
      destruct f as [|status'| |e]; [| | |simpl in *; repeat head_off Htr].
      * destruct (is_shutting_down env); [simpl in *; repeat head_off Htr|].
        rewrite emit_trace, emit_outcome, emit_state in *. simpl in Htr.
        repeat head_off Htr. eapply IH; eauto.
      * destruct (is_shutting_down env).
        { simpl in *. repeat head_off Htr. injection Htr as _ <-. auto. }
        destruct ((status' =? 401) || (status' =? 403)) eqn:Est.
        { simpl in *. repeat head_off Htr.
          injection Htr as _ <-. repeat split; auto.
          repeat constructor. unfold is_log; eauto. }
        rewrite emit_trace, emit_outcome, emit_state in *. simpl in Htr.
        repeat head_off Htr.
        { injection Htr as -> _. destruct Hauth; subst; discriminate. }
        eapply IH; eauto.
      * destruct (is_shutting_down env); [simpl in *; repeat head_off Htr|].
        rewrite emit_trace, emit_outcome, emit_state in *. simpl in Htr.
        repeat head_off Htr. eapply IH; eauto.
    + pose proof (flush_logs w1) as Hl. destruct (flush w1) as [w2 sent].
      simpl in *. repeat head_off Htr.
      exfalso. clear -Htr Hl.
      assert (Hin : In (WsConnect (Some (WSServerHandshakeError status)))
                      (sent ++ [Listen; Log DEBUG "_listen returned"])).
      { rewrite Htr. apply in_or_app. right. left. reflexivity. }
      apply in_app_or in Hin as [Hin|Hin].
      * rewrite Forall_forall in Hl. apply list_elem_of_In in Hin.
        destruct (Hl _ Hin) as (l & m & [=]).
      * simpl in Hin. intuition discriminate.
Qed.

(** C2: wherever, in a run of [connect], the handshake fails with status
    401 or 403, the run ends there: [connect] has returned with
    [_connecting] cleared, and after the failure it has done nothing but
    write to the log: no further attempt, no sleep, nothing scheduled. *)
Theorem auth_failure_is_terminal
  (env : connect_env) (w : WebSocket) (pre post : list effect) (status : Z) :
  (connect env w).1.2 = pre ++ WsConnect (Some (WSServerHandshakeError status)) :: post ->
  status = 401 \/ status = 403 ->
  (connect env w).2 = Returned
  /\ _connecting (connect env w).1.1 = false
  /\ Forall is_log post.
Proof.
  unfold connect.
  destruct (shutting_down_at_start env); [simpl; intros Htr; repeat head_off Htr|].
  destruct (region env); [simpl; intros Htr; repeat head_off Htr|].
  apply connect_loop_auth.
Qed.

Lemma auth_failure_is_terminal_witness :
  (connect forbidden (self new_socket)).1.2
  = before_refusal ++ WsConnect (Some (WSServerHandshakeError 403)) :: after_refusal
  /\ (403 = 401 \/ 403 = 403)
  /\ (connect forbidden (self new_socket)).2 = Returned
  /\ _connecting (connect forbidden (self new_socket)).1.1 = false
  /\ Forall is_log after_refusal.
Proof.
  split; [vm_compute; reflexivity|]. split; [right; reflexivity|].
  apply (auth_failure_is_terminal forbidden (self new_socket) before_refusal
           after_refusal 403); [vm_compute; reflexivity | right; reflexivity].
Defined.

(** In that run the third pass, which would have succeeded, is never made. *)
Example forbidden_run :
  (connect forbidden (self new_socket)).1.2
  = [Log INFO "Attempting to establish WebSocket connection (%s/%s)";
     FetchApiVersion;
     WsConnect (Some ClientConnectorError);
     Log WARNING "Invalid response received; this may indicate that Lavalink is not running, or is running on a port different to the one you passed to `add_node` (%s - %s)";
     Sleep;
     Log INFO "Attempting to establish WebSocket connection (%s/%s)";
     FetchApiVersion;
     WsConnect (Some (WSServerHandshakeError 403));
     Log WARNING "Authentication failed while trying to establish a connection to the node"].
Proof. vm_compute. reflexivity. Qed.

(** *** Reconnect probes *)

Lemma cancel_not_pending (t : Task) : status (cancel t) <> Pending.
Proof. unfold cancel. simpl. destruct (status t); discriminate. Qed.

Lemma finished_not_pending (t : Task) : status (finished t) <> Pending.
Proof. unfold finished. simpl. destruct (status t); discriminate. Qed.

Lemma alter_pending (f : Task -> Task) (l : list Task) (i j : nat) (t : Task) :
  (forall x, status (f x) <> Pending) ->
  alter f i l !! j = Some t -> status t = Pending ->
  i <> j /\ l !! j = Some t.
Proof.
  intros Hf Hl Hp. destruct (decide (i = j)) as [->|Hne].
  - rewrite list_lookup_alter_eq in Hl. apply fmap_Some in Hl as (x & _ & ->).
    destruct (Hf x Hp).
  - rewrite list_lookup_alter_ne in Hl by exact Hne. auto.
Qed.

(** The state that [handle_player_update] leaves when it schedules a
    probe for guild [g]. *)
Lemma schedule_registered (w : WebSocket) (pool : list Task) (g : Z) (pool' : list Task) :
  registered {| self := w; tasks := pool |} ->
  (forall tid t, pool' !! tid = Some t -> status t = Pending ->
     pool !! tid = Some t /\ _player_reconnect_tasks w !! g <> Some tid) ->
  List.length pool' = List.length pool ->
  registered
    {| self := set_player_reconnect_tasks w
                 (<[g := List.length pool']> (_player_reconnect_tasks w));
       tasks := pool' ++ [{| probe_guild := g; status := Pending |}] |}.
Proof.
  intros [Hreg Hbound] Hpool Hlen. split; simpl in *.
  - intros tid t Hl Hp. apply lookup_app_Some in Hl as [Hl|[Hge Hl]].
    + destruct (Hpool _ _ Hl Hp) as [Hl' Hne].
      pose proof (Hreg _ _ Hl' Hp) as Hr.
      rewrite lookup_insert_ne; [exact Hr|].
      intros Heq. rewrite Heq in Hne. contradiction.
    + destruct (tid - List.length pool')%nat as [|n] eqn:En; [|destruct n; discriminate].
      injection Hl as <-. simpl. rewrite lookup_insert_eq. f_equal. lia.
  - intros g' tid Hl. rewrite length_app. simpl.
    destruct (decide (g = g')) as [->|Hne].
    + rewrite lookup_insert_eq in Hl. injection Hl as <-. lia.
    + rewrite lookup_insert_ne in Hl by exact Hne.
      pose proof (Hbound _ _ Hl). lia.
Qed.

Lemma player_update_registered (env : client_env) (data : response_object) (s : sys) :
  registered s -> registered (handle_player_update env data s).1.2.
Proof.
  intros Hinv. unfold handle_player_update.
  destruct (int (guildId data)) as [g|e]; [|exact Hinv].
  destruct (player_manager_get env g) as [p|]; [|exact Hinv].
  destruct (_ && _); [|exact Hinv].
  destruct s as [w pool]. simpl.
  destruct (_player_reconnect_tasks w !! guild_id p) as [old|] eqn:Eold; simpl.
  - apply (schedule_registered w pool); [exact Hinv| |apply length_alter].
    intros tid t Hl Hp.
    apply alter_pending in Hl as [Hne Hl]; auto using cancel_not_pending.
    split; [exact Hl|]. congruence.
  - apply (schedule_registered w pool); [exact Hinv| |reflexivity].
    intros tid t Hl Hp. split; [exact Hl|]. congruence.
Qed.

Lemma send_registry (w : WebSocket) (d : gmap string json) :
  _player_reconnect_tasks (send w d).1 = _player_reconnect_tasks w.
Proof.
  unfold send. destruct (_manual_shutdown w); [reflexivity|].
  destruct (connected w); [|reflexivity].
  destruct (_ws w); [|reflexivity].
  destruct (send_json _ _) as [ws' [|]]; reflexivity.
Qed.

Lemma send_all_registry (l : list (gmap string json)) : forall w,
  _player_reconnect_tasks (send_all l w).1 = _player_reconnect_tasks w.
Proof.
  induction l as [|m l IH]; intros w; simpl; [reflexivity|].
  pose proof (send_registry w m) as H1. destruct (send w m) as [w1 e1].
  pose proof (IH w1) as H2. destruct (send_all l w1) as [w2 e2]. simpl in *.
  congruence.
Qed.

Lemma flush_registry (w : WebSocket) :
  _player_reconnect_tasks (flush w).1 = _player_reconnect_tasks w.
Proof.
  unfold flush. destruct (_message_queue w) as [|m l]; [reflexivity|].
  pose proof (send_all_registry (m :: l) w) as H.
  destruct (send_all (m :: l) w). exact H.
Qed.

Lemma try_open_registry (env : attempt_env) (w : WebSocket) :
  _player_reconnect_tasks (try_open env w).1 = _player_reconnect_tasks w.
Proof.
  unfold try_open. destruct (ws_connect env); [|reflexivity].
  destruct (update_features env); reflexivity.
Qed.

Lemma connect_loop_registry (envs : list attempt_env) : forall attempt w,
  _player_reconnect_tasks (connect_loop envs attempt w).1.1 = _player_reconnect_tasks w.
Proof.
  induction envs as [|env envs IH]; intros attempt w; simpl.
  - destruct (_ && _); reflexivity.
  - destruct (_ && _); [|reflexivity].
    assert (Hm : _player_reconnect_tasks
                   (if manual_closure env then set_manual_shutdown w true else w)
                 = _player_reconnect_tasks w) by (destruct (manual_closure env); reflexivity).
    destruct (_manual_shutdown _); [exact Hm|].
    rewrite emit_state.
    destruct (fetch_api_version env) as [v|e]; [|exact Hm].
    destruct (falsy v); [exact Hm|].
    pose proof (try_open_registry env
                  (set_api_version
                     (if manual_closure env then set_manual_shutdown w true else w) v))
      as Ht.
    destruct (try_open env _) as [w1 [f|]]; simpl in Ht.
    + rewrite emit_state.
      destruct f as [|status| |e]; try destruct (is_shutting_down env);
        try destruct ((status =? 401) || (status =? 403));
        rewrite ?emit_state, ?IH; simpl; congruence.
    + pose proof (flush_registry w1) as Hf. destruct (flush w1) as [w2 sent].
      simpl in *. congruence.
Qed.

Lemma connect_registry (env : connect_env) (w : WebSocket) :
  _player_reconnect_tasks (connect env w).1.1 = _player_reconnect_tasks w.
Proof.
  unfold connect. destruct (shutting_down_at_start env); [reflexivity|].
  destruct (region env); [reflexivity|]. rewrite connect_loop_registry. reflexivity.
Qed.

Lemma handle_ready_probes (data : response_object) (s : sys) :
  _player_reconnect_tasks (self (handle_ready data s).1.2) = _player_reconnect_tasks (self s)
  /\ tasks (handle_ready data s).1.2 = tasks s.
Proof.
  unfold handle_ready, configure_resume_and_timeout, emit_h. simpl.
  destruct (_ && _); simpl; auto.
Qed.

Lemma handle_event_state (env : client_env) (data : event_data) (s : sys) :
  (handle_event env data s).1.2 = s.
Proof.
  unfold handle_event. destruct (client_is_shutting_down env); [reflexivity|].
  destruct data as [o|d]; [|reflexivity].
  destruct (int (guildId o)) as [g|e]; [|reflexivity].
  destruct (player_manager_get env g) as [p|];
    [|destruct (player_manager_get_later env g) as [p|]]; try reflexivity;
    unfold emit_h;
    repeat match goal with
      | |- context [if ?c then _ else _] => destruct c
      | |- context [match current ?p with _ => _ end] => destruct (current p)
      end; reflexivity.
Qed.

(** The invariant only looks at the registry and the tasks. *)
Lemma registered_same (s s' : sys) :
  _player_reconnect_tasks (self s') = _player_reconnect_tasks (self s) ->
  tasks s' = tasks s ->
  registered s -> registered s'.
Proof. unfold registered. intros -> ->. auto. Qed.

Lemma handle_message_registered (env : client_env) (data : gmap string json) (s : sys) :
  registered s -> registered (handle_message env data s).1.2.
Proof.
  intros Hinv. unfold handle_message, parse_then.
  destruct (data !! "op") as [op|]; [|exact Hinv].
  destruct (str_is op "playerUpdate").
  { destruct (from_dict env _ data); [|exact Hinv].
    apply player_update_registered. exact Hinv. }
  destruct (str_is op "stats").
  { destruct (from_dict env _ data); exact Hinv. }
  destruct (str_is op "event").
  { destruct (data !! "type") as [t|]; [|exact Hinv].
    destruct (event_class t).
    - destruct (from_dict env _ data); [|exact Hinv].
      rewrite handle_event_state. exact Hinv.
    - pose proof (handle_event_state env (Unparsed data) s) as He.
      destruct (handle_event env (Unparsed data) s) as [[r s'] tr].
      simpl in *. subst. exact Hinv. }
  destruct (str_is op "ready"); [|exact Hinv].
  destruct (from_dict env _ data) as [o|]; [|exact Hinv].
  destruct (handle_ready_probes o s) as [H1 H2].
  exact (registered_same _ _ H1 H2 Hinv).
Qed.

Lemma step_registered (s s' : sys) : step s s' -> registered s -> registered s'.
Proof.
  intros [env data|env data|data|env|tid] Hinv.
  - apply handle_message_registered. exact Hinv.
  - apply player_update_registered. exact Hinv.
  - apply (registered_same s); [apply send_registry|reflexivity|exact Hinv].
  - apply (registered_same s); [apply connect_registry|reflexivity|exact Hinv].
  - destruct Hinv as [Hreg Hbound]. split; simpl.
    + intros i t Hl Hp.
      apply alter_pending in Hl as [_ Hl]; auto using finished_not_pending.
    + intros g i Hl. rewrite length_alter. eauto.
Qed.

Lemma reachable_registered (s : sys) : reachable s -> registered s.
Proof.
  induction 1 as [k t n|s s' _ IH Hstep].
  - split; simpl; intros ? ? Hl; [rewrite lookup_nil in Hl|rewrite lookup_empty in Hl];
      discriminate.
  - exact (step_registered _ _ Hstep IH).
Qed.

(** C8: in every state the system can reach, at most one probe is live
    for a guild.  And when [handle_player_update] creates a probe, the new
    task is live and registered for its guild, and a task that was
    registered for that guild has been cancelled first and is not live. *)
Theorem one_live_probe_per_guild (s : sys) :
  reachable s ->
  (forall g t1 t2, live s t1 g -> live s t2 g -> t1 = t2)
  /\ (forall env data new,
        In (CreateTask new) (handle_player_update env data s).2 ->
        let s' := (handle_player_update env data s).1.2 in
        exists g,
          live s' new g
          /\ _player_reconnect_tasks (self s') !! g = Some new
          /\ forall old, _player_reconnect_tasks (self s) !! g = Some old ->
               ~ live s' old g
               /\ (handle_player_update env data s).2
                  = [CancelTask old; Log VERBOSE "Creating reconnect task for %s";
                     CreateTask new]).
Proof.
  intros Hr. pose proof (reachable_registered s Hr) as [Hreg Hbound]. split.
  - intros g t1 t2 H1 H2.
    pose proof (Hreg _ _ H1 eq_refl) as E1. pose proof (Hreg _ _ H2 eq_refl) as E2.
    simpl in *. congruence.
  - intros env data new. unfold handle_player_update.
    destruct (int (guildId data)) as [g|e]; [|intros []].
    destruct (player_manager_get env g) as [p|]; [|intros []].
    destruct (_ && _); [|simpl; intuition discriminate].
    destruct (_player_reconnect_tasks (self s) !! guild_id p) as [old|] eqn:Eold;
      simpl; intros Hin.
    + destruct Hin as [Hin|[Hin|[Hin|[]]]]; try discriminate. injection Hin as <-.
      exists (guild_id p). unfold live. simpl.
      split; [rewrite lookup_app_r, Nat.sub_diag by lia; reflexivity|].
      split; [apply lookup_insert_eq|].
      intros old' Hold'. rewrite Eold in Hold'. injection Hold' as <-.
      split; [|reflexivity].
      pose proof (Hbound _ _ Eold) as Hlt.
      rewrite lookup_app_l by (rewrite length_alter; exact Hlt).
      rewrite list_lookup_alter_eq. intros Hl.
      apply fmap_Some in Hl as (x & _ & Hx).
      apply (cancel_not_pending x). rewrite <- Hx. reflexivity.
    + destruct Hin as [Hin|[Hin|[]]]; try discriminate. injection Hin as <-.
      exists (guild_id p). unfold live. simpl.
      split; [rewrite lookup_app_r, Nat.sub_diag by lia; reflexivity|].
      split; [apply lookup_insert_eq|].
      intros old Hold. rewrite Eold in Hold. discriminate.
Qed.

Lemma probed_twice_reachable : reachable probed_twice.
Proof.
  apply (reach_step probed_once); [|exact (step_player_update _ _ _)].
  apply (reach_step ready_socket); [|exact (step_player_update _ _ _)].
  apply (reach_step new_socket); [|exact (step_message _ _ _)].
  exact (reach_init None None (-1)).
Qed.

Lemma one_live_probe_per_guild_witness :
  reachable probed_twice
  /\ (forall g t1 t2, live probed_twice t1 g -> live probed_twice t2 g -> t1 = t2)
  /\ (forall env data new,
        In (CreateTask new) (handle_player_update env data probed_twice).2 ->
        let s' := (handle_player_update env data probed_twice).1.2 in
        exists g,
          live s' new g
          /\ _player_reconnect_tasks (self s') !! g = Some new
          /\ forall old, _player_reconnect_tasks (self probed_twice) !! g = Some old ->
               ~ live s' old g
               /\ (handle_player_update env data probed_twice).2
                  = [CancelTask old; Log VERBOSE "Creating reconnect task for %s";
                     CreateTask new]).
Proof.
  split; [exact probed_twice_reachable|].
  apply (one_live_probe_per_guild probed_twice). exact probed_twice_reachable.
Defined.

(** After the two updates the first probe is cancelled and the second is
    the one registered for guild 1. *)
Example probed_twice_state :
  tasks probed_twice
  = [{| probe_guild := 1; status := Cancelled |}; {| probe_guild := 1; status := Pending |}]
  /\ _player_reconnect_tasks (self probed_twice) !! 1 = Some 1%nat
  /\ (handle_player_update running_client voice_lost probed_once).2
     = [CancelTask 0; Log VERBOSE "Creating reconnect task for %s"; CreateTask 1].
Proof. repeat split; vm_compute; reflexivity. Qed.

End websocket_properties.

(** ** The reader and the writer of tracks *)

Module datarw_properties.

Import py datarw decoder samples scenarios.

#[local] Arguments is_in : simpl never.
#[local] Arguments str_eqb : simpl never.

Lemma byte_val_of (z : Z) : byte_val (byte_of z) = z mod 256.
Proof.
  unfold byte_val, byte_of.
  assert (Hr : 0 <= z mod 256 < 256) by (apply Z.mod_pos_bound; lia).
  destruct (Byte.of_N (Z.to_N (z mod 256))) as [b|] eqn:E; simpl.
  - apply Byte.to_of_N in E. rewrite E. lia.
  - apply Byte.of_N_None_iff in E. lia.
Qed.

Lemma fold_be_bytes (n : nat) : forall v acc,
  fold_left (fun a x => a * 256 + byte_val x) (be_bytes n v) acc
  = acc * 256 ^ Z.of_nat n + v mod 256 ^ Z.of_nat n.
Proof.
  induction n as [|n IH]; intros v acc.
  - simpl. rewrite Z.mod_1_r. lia.
  - cbn [be_bytes fold_left]. rewrite IH, byte_val_of.
    rewrite Nat2Z.inj_succ, Z.pow_succ_r by lia.
    assert (Hp : 0 < 256 ^ Z.of_nat n) by (apply Z.pow_pos_nonneg; lia).
    rewrite (Z.mul_comm 256 (256 ^ Z.of_nat n)).
    rewrite (Z.rem_mul_r v (256 ^ Z.of_nat n) 256) by lia. lia.
Qed.

Lemma be_value_bytes (n : nat) (v : Z) :
  0 <= v < 256 ^ Z.of_nat n -> be_value (be_bytes n v) = v.
Proof.
  intros Hv. unfold be_value. rewrite fold_be_bytes. rewrite Z.mod_small by lia. lia.
Qed.

Lemma length_be_bytes (n : nat) (v : Z) : List.length (be_bytes n v) = n.
Proof. induction n; simpl; congruence. Qed.

Lemma read_app (n : nat) (data rest : bytes) :
  List.length data = n -> _read n (data ++ rest) = Ok (data, rest).
Proof.
  intros <-. unfold _read.
  rewrite firstn_app, Nat.sub_diag, firstn_all, skipn_app, Nat.sub_diag, skipn_all. simpl.
  rewrite app_nil_r. reflexivity.
Qed.

Lemma unpack_short (n : nat) (buf : bytes) :
  (List.length buf < n)%nat -> unpack_unsigned n (firstn n buf) = Raise struct_error.
Proof.
  intros Hl. unfold unpack_unsigned. rewrite length_firstn.
  destruct (Nat.eqb_spec (n `min` List.length buf) n); [lia|reflexivity].
Qed.

Lemma in_range (lo hi v : Z) : lo <= v < hi -> (lo <=? v) && (v <? hi) = true.
Proof. intros Hv. apply andb_true_iff. split; [apply Z.leb_le|apply Z.ltb_lt]; lia. Qed.

Lemma out_of_range (lo hi v : Z) : v < lo \/ hi <= v -> (lo <=? v) && (v <? hi) = false.
Proof.
  intros Hv. apply andb_false_iff.
  destruct Hv; [left; apply Z.leb_gt|right; apply Z.ltb_ge]; lia.
Qed.

Lemma write_unsigned_short_ok (v : Z) (buf : bytes) :
  0 <= v < 2 ^ 16 -> write_unsigned_short v buf = (Ok tt, buf ++ be_bytes 2 v).
Proof.
  intros Hv. unfold write_unsigned_short, pack_unsigned.
  change (256 ^ Z.of_nat 2) with (2 ^ 16). rewrite in_range by exact Hv. reflexivity.
Qed.

Lemma lor_bit30 (n : Z) : 0 <= n < 2 ^ 30 -> Z.lor n (Z.shiftl 1 30) = n + 2 ^ 30.
Proof.
  intros Hn. change (Z.shiftl 1 30) with (2 ^ 30).
  assert (Hl : Z.land n (2 ^ 30) = 0).
  { apply Z.bits_inj'. intros i Hi. rewrite Z.land_spec, Z.bits_0.
    destruct (Z.eq_dec i 30) as [->|Hne].
    - replace (Z.testbit n 30) with false; [reflexivity|].
      symmetry. apply Z.testbit_false; [lia|]. rewrite Z.div_small by lia. reflexivity.
    - rewrite (Z.pow2_bits_false 30 i) by lia. apply andb_false_r. }
  rewrite <- Z.lxor_lor by exact Hl. symmetry. apply Z.add_nocarry_lxor. exact Hl.
Qed.

(** The UTF-8 encoding of a text of ASCII letters [a]. *)
Lemma encode_letters (n : nat) : cpython.encode (repeat 97 n) = Ok (repeat Byte.x61 n).
Proof.
  induction n as [|n IH]; [reflexivity|].
  cbn [repeat cpython.encode]. rewrite IH. reflexivity.
Qed.

Section codecs.
Context `{Codecs}.

Lemma read_unsigned_short_app (v : Z) (rest : bytes) :
  0 <= v < 2 ^ 16 -> read_unsigned_short (be_bytes 2 v ++ rest) = Ok (v, rest).
Proof.
  intros Hv. unfold read_unsigned_short, bind, lift.
  rewrite (read_app 2) by reflexivity.
  unfold unpack_unsigned. rewrite length_be_bytes. simpl (2 =? 2)%nat. cbv iota.
  rewrite be_value_bytes; [reflexivity|]. change (256 ^ Z.of_nat 2) with (2 ^ 16). lia.
Qed.

Lemma read_long_app (v : Z) (rest : bytes) :
  0 <= v < 2 ^ 64 -> read_long (be_bytes 8 v ++ rest) = Ok (v, rest).
Proof.
  intros Hv. unfold read_long, bind, lift.
  rewrite (read_app 8) by reflexivity.
  unfold unpack_unsigned. rewrite length_be_bytes. simpl (8 =? 8)%nat. cbv iota.
  rewrite be_value_bytes; [reflexivity|]. change (256 ^ Z.of_nat 8) with (2 ^ 64). lia.
Qed.

Lemma read_int_app (v : Z) (rest : bytes) :
  - 2 ^ 31 <= v < 2 ^ 31 -> read_int (be_bytes 4 (v mod 2 ^ 32) ++ rest) = Ok (v, rest).
Proof.
  intros Hv. unfold read_int, bind, lift.
  rewrite (read_app 4) by reflexivity.
  unfold unpack_i, unpack_unsigned. rewrite length_be_bytes. simpl (4 =? 4)%nat. cbv iota.
  assert (Hm : 0 <= v mod 2 ^ 32 < 2 ^ 32) by (apply Z.mod_pos_bound; lia).
  rewrite be_value_bytes by (change (256 ^ Z.of_nat 4) with (2 ^ 32); lia).
  destruct (Z.ltb_spec (v mod 2 ^ 32) (2 ^ 31)) as [Hlt|Hge]; do 2 f_equal.
  - destruct (Z.le_gt_cases 0 v) as [Hp|Hn].
    + rewrite Z.mod_small; lia.
    + exfalso. replace v with (v + 2 ^ 32 + (-1) * 2 ^ 32) in Hlt by lia.
      rewrite Z.mod_add in Hlt by lia. rewrite Z.mod_small in Hlt; lia.
  - destruct (Z.le_gt_cases 0 v) as [Hp|Hn].
    + exfalso. rewrite Z.mod_small in Hge; lia.
    + replace v with (v + 2 ^ 32 + (-1) * 2 ^ 32) at 1 by lia.
      rewrite Z.mod_add by lia. rewrite Z.mod_small; lia.
Qed.

Lemma read_boolean_app (b : bool) (rest : bytes) :
  read_boolean (be_bytes 1 (if b then 1 else 0) ++ rest) = Ok (if b then 1 else 0, rest).
Proof. destruct b; reflexivity. Qed.

Lemma read_utf_app (utf rest : bytes) (s : str) :
  Z.of_nat (List.length utf) <= 65535 ->
  decode utf = Ok s ->
  read_utf (be_bytes 2 (Z.of_nat (List.length utf)) ++ utf ++ rest) = Ok (s, rest).
Proof.
  intros Hlen Hd. unfold read_utf. unfold bind at 1.
  rewrite read_unsigned_short_app by lia.
  unfold bind, lift. rewrite Nat2Z.id, (read_app (List.length utf)) by reflexivity.
  rewrite Hd. reflexivity.
Qed.

Lemma write_utf_ok (s : str) (utf buf : bytes) :
  encode s = Ok utf ->
  Z.of_nat (List.length utf) <= 65535 ->
  write_utf s buf = (Ok tt, buf ++ be_bytes 2 (Z.of_nat (List.length utf)) ++ utf).
Proof.
  intros He Hlen. unfold write_utf. rewrite He.
  replace (65535 <? Z.of_nat (List.length utf)) with false by (symmetry; apply Z.ltb_ge; lia).
  unfold wseq. rewrite write_unsigned_short_ok by lia.
  unfold _write. rewrite <- app_assoc. reflexivity.
Qed.

Lemma read_unsigned_short_short (buf : bytes) :
  (List.length buf < 2)%nat -> read_unsigned_short buf = Raise struct_error.
Proof.
  intros Hl. unfold read_unsigned_short, bind, _read, lift.
  rewrite unpack_short by exact Hl. reflexivity.
Qed.

Lemma read_int_short (buf : bytes) :
  (List.length buf < 4)%nat -> read_int buf = Raise struct_error.
Proof.
  intros Hl. unfold read_int, bind, _read, lift, unpack_i.
  rewrite unpack_short by exact Hl. reflexivity.
Qed.

(** X1: what [write_unsigned_short], [write_long] and [write_int] append
    for a value in the range of the format is read back as that value by
    [read_unsigned_short], [read_long] and [read_int], which leave what
    follows in the buffer untouched.  The formats are big-endian; a
    negative int is written in two's complement. *)
Theorem fixed_width_round_trip (v : Z) (buf rest : bytes) :
  (0 <= v < 2 ^ 16 ->
     write_unsigned_short v buf = (Ok tt, buf ++ be_bytes 2 v)
     /\ read_unsigned_short (be_bytes 2 v ++ rest) = Ok (v, rest))
  /\ (0 <= v < 2 ^ 64 ->
        write_long v buf = (Ok tt, buf ++ be_bytes 8 v)
        /\ read_long (be_bytes 8 v ++ rest) = Ok (v, rest))
  /\ (- 2 ^ 31 <= v < 2 ^ 31 ->
        write_int v buf = (Ok tt, buf ++ be_bytes 4 (v mod 2 ^ 32))
        /\ read_int (be_bytes 4 (v mod 2 ^ 32) ++ rest) = Ok (v, rest)).
Proof.
  split; [|split]; intros Hv.
  - split; [apply write_unsigned_short_ok; exact Hv|apply read_unsigned_short_app; exact Hv].
  - split; [|apply read_long_app; exact Hv].
    unfold write_long, pack_unsigned.
    change (256 ^ Z.of_nat 8) with (2 ^ 64). rewrite in_range by exact Hv. reflexivity.
  - split; [|apply read_int_app; exact Hv].
    unfold write_int, pack_i. rewrite in_range by exact Hv. reflexivity.
Qed.

(** X2: a value outside the range of its format makes the writer raise
    struct.error, and nothing is appended to the buffer. *)
Theorem out_of_range_writes_nothing (v : Z) (buf : bytes) :
  (v < 0 \/ 2 ^ 16 <= v -> write_unsigned_short v buf = (Raise struct_error, buf))
  /\ (v < 0 \/ 2 ^ 64 <= v -> write_long v buf = (Raise struct_error, buf))
  /\ (v < - 2 ^ 31 \/ 2 ^ 31 <= v -> write_int v buf = (Raise struct_error, buf)).
Proof.
  split; [|split]; intros Hv.
  - unfold write_unsigned_short, pack_unsigned.
    change (256 ^ Z.of_nat 2) with (2 ^ 16). rewrite out_of_range by exact Hv. reflexivity.
  - unfold write_long, pack_unsigned.
    change (256 ^ Z.of_nat 8) with (2 ^ 64). rewrite out_of_range by exact Hv. reflexivity.
  - unfold write_int, pack_i. rewrite out_of_range by exact Hv. reflexivity.
Qed.

(** X3: a string whose UTF-8 encoding has at most 65535 bytes, and decodes
    to the string again, is read back by [read_utf] from what [write_utf]
    appended, and by [read_nullable_utf] from what [write_nullable_utf]
    appended; an absent string is read back as absent.  What follows in
    the buffer is left untouched. *)
Theorem utf_round_trip (s : str) (utf buf rest : bytes) :
  encode s = Ok utf ->
  Z.of_nat (List.length utf) <= 65535 ->
  decode utf = Ok s ->
  (exists data,
     write_utf s buf = (Ok tt, buf ++ data)
     /\ read_utf (data ++ rest) = Ok (s, rest))
  /\ (exists data,
        write_nullable_utf (Some s) buf = (Ok tt, buf ++ data)
        /\ read_nullable_utf (data ++ rest) = Ok (Some s, rest))
  /\ (exists data,
        write_nullable_utf None buf = (Ok tt, buf ++ data)
        /\ read_nullable_utf (data ++ rest) = Ok (None, rest)).
Proof.
  intros He Hlen Hd. split; [|split].
  - exists (be_bytes 2 (Z.of_nat (List.length utf)) ++ utf). split.
    + apply write_utf_ok; assumption.
    + rewrite <- app_assoc. apply read_utf_app; assumption.
  - exists (be_bytes 1 1 ++ be_bytes 2 (Z.of_nat (List.length utf)) ++ utf). split.
    + unfold write_nullable_utf, wseq.
      assert (Hb : write_boolean true buf = (Ok tt, buf ++ be_bytes 1 1)) by reflexivity.
      rewrite Hb, (write_utf_ok s utf (buf ++ be_bytes 1 1) He Hlen).
      rewrite <- app_assoc. reflexivity.
    + unfold read_nullable_utf. unfold bind at 1. rewrite <- !app_assoc.
      rewrite (read_boolean_app true). simpl (1 =? 0). cbv iota.
      unfold bind, ret. rewrite (read_utf_app utf rest s Hlen Hd). reflexivity.
  - exists (be_bytes 1 0). split; [reflexivity|].
    unfold read_nullable_utf. unfold bind at 1. rewrite (read_boolean_app false). reflexivity.
Qed.

(** X4: when the UTF-8 encoding of a string has more than 65535 bytes,
    [write_nullable_utf] raises OverflowError after it has written the
    presence byte: the buffer is one byte longer than before. *)
Theorem write_nullable_utf_overflow (s : str) (utf buf : bytes) :
  encode s = Ok utf ->
  65535 < Z.of_nat (List.length utf) ->
  write_nullable_utf (Some s) buf = (Raise OverflowError, buf ++ [Byte.x01]).
Proof.
  intros He Hlen. unfold write_nullable_utf, wseq.
  assert (Hb : write_boolean true buf = (Ok tt, buf ++ [Byte.x01])) by reflexivity.
  rewrite Hb. unfold write_utf. rewrite He.
  replace (65535 <? Z.of_nat (List.length utf)) with true by (symmetry; apply Z.ltb_lt; lia).
  reflexivity.
Qed.

(** X5: a read from a buffer that holds fewer bytes than the format needs
    raises struct.error: one byte for a boolean, two for a short and for
    the length of a string, four for an int, eight for a long. *)
Theorem short_buffer_reads (buf : bytes) :
  ((List.length buf < 1)%nat -> read_boolean buf = Raise struct_error)
  /\ ((List.length buf < 2)%nat ->
        read_unsigned_short buf = Raise struct_error
        /\ read_utf buf = Raise struct_error
        /\ read_utfm buf = Raise struct_error)
  /\ ((List.length buf < 4)%nat -> read_int buf = Raise struct_error)
  /\ ((List.length buf < 8)%nat -> read_long buf = Raise struct_error).
Proof.
  split; [|split; [|split]]; intros Hl.
  - unfold read_boolean, bind, read_byte, _read, lift. rewrite unpack_short by exact Hl.
    reflexivity.
  - split; [exact (read_unsigned_short_short buf Hl)|].
    unfold read_utf, read_utfm. unfold bind at 1 3.
    rewrite (read_unsigned_short_short buf Hl). auto.
  - exact (read_int_short buf Hl).
  - unfold read_long, bind, _read, lift. rewrite unpack_short by exact Hl. reflexivity.
Qed.

(** X6: a string whose length prefix announces more bytes than the buffer
    holds is no error for the reader: [read_utf] decodes the bytes that
    are there and [read_utfm] hands them to the codec together with the
    announced length; the buffer is then empty. *)
Theorem truncated_string_reads (n : Z) (payload : bytes) :
  0 <= n < 2 ^ 16 ->
  Z.of_nat (List.length payload) <= n ->
  read_utf (be_bytes 2 n ++ payload)
  = match decode payload with
    | Ok s => Ok (s, [])
    | Raise e => Raise e
    end
  /\ read_utfm (be_bytes 2 n ++ payload)
     = match utfm_codec_read_utfm (Z.to_nat n) payload with
       | Ok s => Ok (s, [])
       | Raise e => Raise e
       end.
Proof.
  intros Hn Hl.
  assert (Hr : _read (Z.to_nat n) payload = Ok (payload, [])).
  { unfold _read. rewrite firstn_all2, skipn_all2 by lia. reflexivity. }
  split.
  - unfold read_utf. unfold bind at 1. rewrite read_unsigned_short_app by exact Hn.
    unfold bind, lift. rewrite Hr. destruct (decode payload); reflexivity.
  - unfold read_utfm. unfold bind at 1. rewrite read_unsigned_short_app by exact Hn.
    unfold bind, lift. rewrite Hr. destruct (utfm_codec_read_utfm _ payload); reflexivity.
Qed.

(** X7: for a message of less than 2^30 bytes, [finish] puts a four-byte
    header before the message, and the header is what [decode_track]
    expects: read as an int, its two top bits give the flags value 1 (a
    version byte follows) and its lower thirty bits give the size of the
    message. *)
Theorem finish_header (buf rest : bytes) :
  Z.of_nat (List.length buf) < 2 ^ 30 ->
  exists hdr x,
    finish buf = Ok (hdr ++ buf)
    /\ List.length hdr = 4%nat
    /\ read_int (hdr ++ rest) = Ok (x, rest)
    /\ Z.shiftr (Z.land x 0xC0000000) 30 = 1
    /\ Z.land x (2 ^ 30 - 1) = Z.of_nat (List.length buf).
Proof.
  intros Hl. set (n := Z.of_nat (List.length buf)) in *.
  assert (Hn : 0 <= n) by (unfold n; lia).
  exists (be_bytes 4 ((n + 2 ^ 30) mod 2 ^ 32)), (n + 2 ^ 30).
  split; [|split; [|split; [|split]]].
  - unfold finish. fold n. rewrite lor_bit30 by lia. unfold pack_i.
    rewrite in_range by lia. reflexivity.
  - apply length_be_bytes.
  - apply read_int_app. lia.
  - rewrite Z.shiftr_land, Z.shiftr_div_pow2 by lia.
    replace (n + 2 ^ 30) with (n + 1 * 2 ^ 30) by lia.
    rewrite Z.div_add, Z.div_small by lia. reflexivity.
  - change (2 ^ 30 - 1) with (Z.ones 30). rewrite Z.land_ones by lia.
    replace (n + 2 ^ 30) with (n + 1 * 2 ^ 30) by lia.
    rewrite Z.mod_add, Z.mod_small by lia. reflexivity.
Qed.

(** *** decode_track outside its [try] *)

(** X8: the [try] of [decode_track] starts after the nine fixed fields: a
    track whose decoded bytes are fewer than the four of the header makes
    [decode_track] raise struct.error. *)
Theorem decode_track_short_buffer (track : string) (buf : bytes) :
  DataReader track = Ok buf ->
  (List.length buf < 4)%nat ->
  decode_track track = Raise struct_error.
Proof.
  intros Hb Hl. unfold decode_track. rewrite Hb.
  unfold fixed_fields. unfold bind at 1. rewrite (read_int_short buf Hl). reflexivity.
Qed.

Lemma read_long_ok (buf : bytes) :
  (exists v r, read_long buf = Ok (v, r)) <-> (8 <= List.length buf)%nat.
Proof.
  unfold read_long, bind, _read, lift, unpack_unsigned. rewrite length_firstn.
  destruct (Nat.eqb_spec (8 `min` List.length buf) 8) as [He|Hne].
  - split; [lia|eauto].
  - split; [intros (v & r & [=])|lia].
Qed.

Lemma read_position_log (o : optional) (buf : bytes) :
  (read_position o buf).2 = None <-> (8 <= List.length buf)%nat.
Proof.
  rewrite <- read_long_ok. unfold read_position.
  destruct (read_long buf) as [[v r]|e]; simpl.
  - split; eauto.
  - split; [discriminate|intros (v & r & [=])].
Qed.

(** X9: for a track of source [youtube] nothing but the position is read
    after the fixed fields: the thumbnail is built from the identifier,
    isrc and probe info are null, and a failure is logged exactly when
    fewer than the eight bytes of the position are left. *)
Theorem youtube_thumbnail_synthesized (track : string) (f : fixed) (rest : bytes) :
  steps_1_to_9 track = Ok (f, rest) ->
  f_source f = lit "youtube" ->
  exists tr log,
    decode_track track = Ok (tr, log)
    /\ thumbnail (info tr)
       = Some (lit "https://img.youtube.com/vi/" ++ f_identifier f ++ lit "/mqdefault.jpg")
    /\ isrc (info tr) = None
    /\ probeInfo (info tr) = None
    /\ (log = [] <-> (8 <= List.length rest)%nat).
Proof.
  intros Hs Hy. unfold steps_1_to_9 in Hs. unfold decode_track.
  destruct (DataReader track) as [buf|e]; [|discriminate]. rewrite Hs.
  unfold source_fields. rewrite Hy.
  replace (str_eqb (lit "youtube") (lit "youtube")) with true by reflexivity.
  pose proof (read_position_log
     {| o_thumbnail := Some (youtube_thumbnail (f_identifier f)); o_isrc := None;
        o_probe := None |} rest) as Hlog.
  unfold read_position in *.
  destruct (read_long rest) as [[v r]|e]; simpl in *;
    eexists _, _; (split; [reflexivity|]); repeat (split; [reflexivity|]).
  - rewrite <- Hlog. split; reflexivity.
  - rewrite <- Hlog. split; discriminate.
Qed.

(** X10: for a track whose source is none of the seven the decoder knows,
    thumbnail, isrc and probe info are null, and a failure is logged
    exactly when fewer than the eight bytes of the position are left. *)
Theorem unknown_source_fields (track : string) (f : fixed) (rest : bytes) :
  steps_1_to_9 track = Ok (f, rest) ->
  is_in (f_source f)
    ["youtube"; "deezer"; "spotify"; "applemusic"; "yandexmusic"; "local"; "http"] = false ->
  exists tr log,
    decode_track track = Ok (tr, log)
    /\ thumbnail (info tr) = None
    /\ isrc (info tr) = None
    /\ probeInfo (info tr) = None
    /\ (log = [] <-> (8 <= List.length rest)%nat).
Proof.
  intros Hs Hu. unfold steps_1_to_9 in Hs. unfold decode_track.
  destruct (DataReader track) as [buf|e]; [|discriminate]. rewrite Hs.
  unfold is_in in Hu. cbn [existsb] in Hu.
  repeat (apply orb_false_elim in Hu as [? Hu]).
  unfold source_fields, is_in. cbn [existsb].
  repeat match goal with E : str_eqb _ _ = false |- _ => rewrite E; clear E end.
  cbn [orb].
  pose proof (read_position_log
     {| o_thumbnail := None; o_isrc := None; o_probe := None |} rest) as Hlog.
  unfold read_position in *.
  destruct (read_long rest) as [[v r]|e]; simpl in *;
    eexists _, _; (split; [reflexivity|]); repeat (split; [reflexivity|]).
  - rewrite <- Hlog. split; reflexivity.
  - rewrite <- Hlog. split; discriminate.
Qed.

End codecs.

Lemma fixed_width_round_trip_witness :
  (write_unsigned_short 513 [] = (Ok tt, [Byte.x02; Byte.x01])
   /\ read_unsigned_short [Byte.x02; Byte.x01; Byte.x07] = Ok (513, [Byte.x07]))
  /\ (write_int (-2) [] = (Ok tt, [Byte.xff; Byte.xff; Byte.xff; Byte.xfe])
      /\ read_int [Byte.xff; Byte.xff; Byte.xff; Byte.xfe; Byte.x07]
         = Ok (-2, [Byte.x07])).
Proof.
  split.
  - destruct (fixed_width_round_trip 513 [] [Byte.x07]) as (Hs & _ & _).
    apply Hs. lia.
  - destruct (fixed_width_round_trip (-2) [] [Byte.x07]) as (_ & _ & Hi).
    apply Hi. lia.
Defined.

Lemma out_of_range_writes_nothing_witness :
  write_unsigned_short 65536 [Byte.x07] = (Raise struct_error, [Byte.x07])
  /\ write_long (-1) [Byte.x07] = (Raise struct_error, [Byte.x07])
  /\ write_int (2 ^ 31) [Byte.x07] = (Raise struct_error, [Byte.x07]).
Proof.
  split; [|split].
  - destruct (out_of_range_writes_nothing 65536 [Byte.x07]) as (Hs & _ & _). apply Hs. lia.
  - destruct (out_of_range_writes_nothing (-1) [Byte.x07]) as (_ & Hl & _). apply Hl. lia.
  - destruct (out_of_range_writes_nothing (2 ^ 31) [Byte.x07]) as (_ & _ & Hi). apply Hi. lia.
Defined.

Lemma utf_round_trip_witness :
  @encode cpython.codecs (lit "Title") = Ok (list_byte_of_string "Title")
  /\ Z.of_nat (List.length (list_byte_of_string "Title")) <= 65535
  /\ @decode cpython.codecs (list_byte_of_string "Title") = Ok (lit "Title")
  /\ (exists data,
        @write_utf cpython.codecs (lit "Title") [] = (Ok tt, [] ++ data)
        /\ @read_utf cpython.codecs (data ++ [Byte.x07]) = Ok (lit "Title", [Byte.x07]))
  /\ (exists data,
        @write_nullable_utf cpython.codecs (Some (lit "Title")) [] = (Ok tt, [] ++ data)
        /\ @read_nullable_utf cpython.codecs (data ++ [Byte.x07])
           = Ok (Some (lit "Title"), [Byte.x07]))
  /\ (exists data,
        @write_nullable_utf cpython.codecs None [] = (Ok tt, [] ++ data)
        /\ @read_nullable_utf cpython.codecs (data ++ [Byte.x07]) = Ok (None, [Byte.x07])).
Proof.
  split; [vm_compute; reflexivity|]. split; [vm_compute; discriminate|].
  split; [vm_compute; reflexivity|].
  apply (@utf_round_trip cpython.codecs (lit "Title") (list_byte_of_string "Title")
           [] [Byte.x07]);
    [vm_compute; reflexivity | vm_compute; discriminate | vm_compute; reflexivity].
Defined.

Lemma write_nullable_utf_overflow_witness :
  @encode cpython.codecs long_text = Ok (repeat Byte.x61 (Z.to_nat 65536))
  /\ 65535 < Z.of_nat (List.length (repeat Byte.x61 (Z.to_nat 65536)))
  /\ @write_nullable_utf cpython.codecs (Some long_text) []
     = (Raise OverflowError, [] ++ [Byte.x01]).
Proof.
  split; [apply encode_letters|]. split; [rewrite repeat_length; lia|].
  apply (@write_nullable_utf_overflow cpython.codecs long_text
           (repeat Byte.x61 (Z.to_nat 65536)) []);
    [apply encode_letters | rewrite repeat_length; lia].
Defined.

Lemma short_buffer_reads_witness :
  read_boolean [] = Raise struct_error
  /\ @read_utf cpython.codecs [Byte.x05] = Raise struct_error
  /\ read_int [Byte.x40; Byte.x00] = Raise struct_error
  /\ read_long (zeros 7) = Raise struct_error.
Proof.
  split; [|split; [|split]].
  - destruct (@short_buffer_reads cpython.codecs []) as (Hb & _). apply Hb. simpl. lia.
  - destruct (@short_buffer_reads cpython.codecs [Byte.x05]) as (_ & Hs & _).
    apply Hs. simpl. lia.
  - destruct (@short_buffer_reads cpython.codecs [Byte.x40; Byte.x00]) as (_ & _ & Hi & _).
    apply Hi. simpl. lia.
  - destruct (@short_buffer_reads cpython.codecs (zeros 7)) as (_ & _ & _ & Hl).
    apply Hl. simpl. lia.
Defined.

Lemma truncated_string_reads_witness :
  0 <= 5 < 2 ^ 16
  /\ Z.of_nat (List.length (list_byte_of_string "abc")) <= 5
  /\ @read_utf cpython.codecs (be_bytes 2 5 ++ list_byte_of_string "abc")
     = Ok (lit "abc", []).
Proof.
  split; [lia|]. split; [simpl; lia|].
  destruct (@truncated_string_reads cpython.codecs 5 (list_byte_of_string "abc"))
    as [Hu _]; [lia | simpl; lia |].
  rewrite Hu. vm_compute. reflexivity.
Defined.

Lemma finish_header_witness :
  Z.of_nat (List.length (list_byte_of_string "abc")) < 2 ^ 30
  /\ exists hdr x,
      finish (list_byte_of_string "abc") = Ok (hdr ++ list_byte_of_string "abc")
      /\ List.length hdr = 4%nat
      /\ read_int (hdr ++ [Byte.x07]) = Ok (x, [Byte.x07])
      /\ Z.shiftr (Z.land x 0xC0000000) 30 = 1
      /\ Z.land x (2 ^ 30 - 1) = Z.of_nat (List.length (list_byte_of_string "abc")).
Proof.
  split; [simpl; lia|].
  apply (finish_header (list_byte_of_string "abc") [Byte.x07]). simpl. lia.
Defined.

Lemma decode_track_short_buffer_witness :
  @DataReader cpython.codecs two_bytes = Ok [Byte.x40; Byte.x00]
  /\ (List.length [Byte.x40; Byte.x00] < 4)%nat
  /\ @decode_track cpython.codecs two_bytes = Raise struct_error.
Proof.
  split; [vm_compute; reflexivity|]. split; [simpl; lia|].
  apply (@decode_track_short_buffer cpython.codecs two_bytes [Byte.x40; Byte.x00]);
    [vm_compute; reflexivity | simpl; lia].
Defined.

Lemma youtube_thumbnail_synthesized_witness :
  @steps_1_to_9 cpython.codecs youtube_track = Ok (sample_fixed "youtube", zeros 8)
  /\ f_source (sample_fixed "youtube") = lit "youtube"
  /\ exists tr log,
      @decode_track cpython.codecs youtube_track = Ok (tr, log)
      /\ thumbnail (info tr)
         = Some (lit "https://img.youtube.com/vi/" ++ f_identifier (sample_fixed "youtube")
                 ++ lit "/mqdefault.jpg")
      /\ isrc (info tr) = None
      /\ probeInfo (info tr) = None
      /\ (log = [] <-> (8 <= List.length (zeros 8))%nat).
Proof.
  split; [vm_compute; reflexivity|]. split; [reflexivity|].
  apply (@youtube_thumbnail_synthesized cpython.codecs youtube_track
           (sample_fixed "youtube") (zeros 8)); [vm_compute; reflexivity | reflexivity].
Defined.

Lemma unknown_source_fields_witness :
  @steps_1_to_9 cpython.codecs bandcamp_track = Ok (sample_fixed "bandcamp", zeros 8)
  /\ is_in (f_source (sample_fixed "bandcamp"))
       ["youtube"; "deezer"; "spotify"; "applemusic"; "yandexmusic"; "local"; "http"] = false
  /\ exists tr log,
      @decode_track cpython.codecs bandcamp_track = Ok (tr, log)
      /\ thumbnail (info tr) = None
      /\ isrc (info tr) = None
      /\ probeInfo (info tr) = None
      /\ (log = [] <-> (8 <= List.length (zeros 8))%nat).
Proof.
  split; [vm_compute; reflexivity|]. split; [vm_compute; reflexivity|].
  apply (@unknown_source_fields cpython.codecs bandcamp_track
           (sample_fixed "bandcamp") (zeros 8)); vm_compute; reflexivity.
Defined.

End datarw_properties.

(** ** The accessors of a query *)

Module query_accessor_properties.

Import py regex query query_accessors node_features samples scenarios.

Lemma in_allowed (x : string) :
  existsb (String.eqb x) allowed = true ->
  x = "ytm" \/ x = "yt" \/ x = "sp" \/ x = "sc" \/ x = "am" \/ x = "local"
  \/ x = "speak" \/ x = "tts://".
Proof.
  intros Hx. apply existsb_exists in Hx as (y & Hin & Heq).
  apply String.eqb_eq in Heq. subst y. simpl in Hin. intuition auto.
Qed.

(** X11: the setter of [source] raises ValueError on a query that is not a
    search, and on a name that is not, in lower case, one of the eight it
    allows; otherwise it stores one of eight source names and changes no
    other field. *)
Theorem source_setter_outcomes (q : Query) (s : string) :
  match source_setter q s with
  | Raise e =>
      e = ValueError
      /\ (is_search q = false \/ existsb (String.eqb (lower s)) allowed = false)
  | Ok q' =>
      is_search q = true
      /\ existsb (String.eqb (lower s)) allowed = true
      /\ In (_source q')
           ["YouTube Music"; "YouTube"; "Spotify"; "SoundCloud"; "Apple Music";
            "Local Files"; "speak"; "Google TTS"]
      /\ q' = set_source_field q (_source q')
  end.
Proof.
  unfold source_setter. destruct (is_search q); cbn [negb]; [|auto].
  destruct (existsb (String.eqb (lower s)) allowed) eqn:Ea; cbn [negb]; [|auto].
  split; [reflexivity|]. split; [reflexivity|].
  apply in_allowed in Ea.
  destruct Ea as [E|[E|[E|[E|[E|[E|[E|E]]]]]]]; rewrite E; simpl; split; auto 10.
Qed.

(** X12: on a search query for a text, setting the source by one of the
    short names ytm, yt, sp, sc, am, local and tts://, written in any
    letter case, makes the identifier of the query the matching search
    prefix followed by the text. *)
Theorem source_setter_then_identifier (q : Query) (text p prefix : string) :
  is_search q = true ->
  _query q = QStr text ->
  In (lower p, prefix) prefixes ->
  exists q',
    source_setter q p = Ok q'
    /\ query_identifier q' = Some (QStr (prefix +:+ text)).
Proof.
  intros Hs Hq Hin. destruct q as [qv src sr st ix ty rc]. simpl in Hs, Hq. subst.
  unfold source_setter. cbn [is_search _search negb].
  unfold prefixes in Hin. simpl in Hin.
  repeat (destruct Hin as [[= E <-]|Hin]); try (destruct Hin);
    rewrite <- E; (eexists; split; [reflexivity|reflexivity]).
Qed.

(** X13: for every search prefix of SUPPORTED_SEARCHES, a search query
    whose source is the one the table gives for the prefix has the prefix
    at the head of its identifier; the one exception is [dzsearch], whose
    source Deezer gets the prefix [ytsearch]. *)
Theorem identifier_of_supported_search (k v text : string) :
  SUPPORTED_SEARCHES !! k = Some v ->
  query_identifier (cls_search text v)
  = Some (QStr ((if String.eqb k "dzsearch" then "ytsearch" else k) +:+ ":" +:+ text)).
Proof.
  intros Hk. unfold SUPPORTED_SEARCHES in Hk.
  apply elem_of_list_to_map_2 in Hk. apply list_elem_of_In in Hk. simpl in Hk.
  repeat (destruct Hk as [[= <- <-]|Hk]); try (destruct Hk); reflexivity.
Qed.

Lemma capability_of_source_name_cls (c : string) :
  requires_capability (cls "" (__get_source_from_str c)) = c <-> In c capabilities.
Proof.
  split.
  - unfold __get_source_from_str.
    repeat match goal with
      | |- context [String.eqb c ?b] =>
          let E := fresh "E" in
          destruct (String.eqb_spec c b) as [E|E];
          [subst c; vm_compute; first [intros _; tauto | intros [=]]|]
      end.
    intros Hc. vm_compute in Hc. congruence.
  - unfold capabilities. simpl. intros Hin.
    repeat (destruct Hin as [<-|Hin]); try (destruct Hin); reflexivity.
Qed.

(** X14: [requires_capability] gives back the name that
    [__get_source_from_str] turned into the source of a query for exactly
    seventeen names; for every other name, [apple], [pornhub] and
    [niconico] among them, it gives a different one. *)
Theorem capability_of_source_name (q : Query) (c : string) :
  _source q = __get_source_from_str c ->
  (requires_capability q = c <-> In c capabilities).
Proof.
  intros Hs. rewrite <- capability_of_source_name_cls.
  replace (requires_capability q)
    with (requires_capability (cls "" (__get_source_from_str c))); [reflexivity|].
  rewrite <- Hs. reflexivity.
Qed.

Lemma in_sources (x : string) :
  x ∈ SUPPORTED_SOURCES <->
  In x ["youtube"; "soundcloud"; "bandcamp"; "twitch"; "vimeo"; "local"; "http";
        "getyarn.io"; "clypit"; "speak"; "pornhub"; "reddit"; "ocremix"; "tiktok";
        "mixcloud"; "soundgasm"; "spotify"; "applemusic"; "deezer"; "yandexmusic";
        "gcloud-tts"].
Proof. unfold SUPPORTED_SOURCES. rewrite elem_of_list_to_set, list_elem_of_In. reflexivity. Qed.

(** X15: the capability a query requires is a member of SUPPORTED_SOURCES
    whatever the source of the query, with one exception: for the source
    GetYarn it is [getyarn], where the set has [getyarn.io]. *)
Theorem capability_supported (q : Query) :
  (requires_capability q ∈ SUPPORTED_SOURCES /\ _source q <> "GetYarn")
  \/ (_source q = "GetYarn" /\ requires_capability q = "getyarn"
      /\ "getyarn" ∉ SUPPORTED_SOURCES).
Proof.
  unfold requires_capability, is_spotify, is_apple_music, is_youtube, is_youtube_music,
    is_soundcloud, is_local, is_twitch, is_bandcamp, is_http, is_speak, is_gctts,
    is_getyarn, is_clypit, is_pornhub, is_reddit, is_ocremix, is_tiktok, is_mixcloud,
    is_soundgasm, is_vimeo, source.
  repeat match goal with
    | |- context [String.eqb (_source q) ?b] =>
        let E := fresh "E" in
        destruct (String.eqb_spec (_source q) b) as [E|E];
        [cbn [orb];
         first [ left; split; [rewrite in_sources; simpl; tauto | rewrite E; discriminate]
               | right; split; [exact E|]; split; [reflexivity|];
                 rewrite in_sources; simpl; intuition discriminate ] |]
    end.
  cbn [orb]. left. split; [rewrite in_sources; simpl; tauto | assumption].
Qed.

(** X16: whatever text [__process_search] accepts, the query it builds is
    a search of type single with index and start time 0, and its source
    is YouTube Music, Spotify, SoundCloud or Apple Music: never YouTube. *)
Theorem process_search_never_youtube (s : string) (q : Query) :
  __process_search s = Some q ->
  is_search q = true
  /\ _type q = "single"
  /\ index q = 0 /\ start_time q = 0 /\ _recursive q = false
  /\ In (_source q) ["YouTube Music"; "Spotify"; "SoundCloud"; "Apple Music"]
  /\ exists text, _query q = QStr text.
Proof.
  unfold __process_search. destruct (match_ SEARCH_REGEX s) as [m|]; [|discriminate].
  repeat match goal with
    | |- context [if ?c then _ else _] => destruct c
    end;
    intros [= <-]; simpl; repeat split; eauto 10.
Qed.

Lemma length_str_of (l : list ascii) : String.length (str_of l) = List.length l.
Proof. unfold str_of. induction l as [|c l IH]; simpl; [reflexivity|]. rewrite IH. reflexivity. Qed.

Lemma length_chars (s : string) : List.length (chars s) = String.length s.
Proof. unfold chars. induction s as [|c s IH]; simpl; [reflexivity|]. rewrite IH. reflexivity. Qed.

Lemma length_lstrip (l : list ascii) : (List.length (lstrip l) <= List.length l)%nat.
Proof. induction l as [|c l IH]; simpl; [lia|]. destruct (isspace c); simpl; lia. Qed.

Lemma length_strip (s : string) : (String.length (strip s) <= String.length s)%nat.
Proof.
  unfold strip. rewrite length_str_of, length_rev.
  etransitivity; [apply length_lstrip|]. rewrite length_rev.
  etransitivity; [apply length_lstrip|]. rewrite length_chars. lia.
Qed.

Lemma length_append (a b : string) :
  String.length (a +:+ b) = (String.length a + String.length b)%nat.
Proof. induction a as [|c a IH]; simpl; [reflexivity|]. rewrite IH. reflexivity. Qed.

Lemma length_slice (k : Z) (s : string) :
  0 <= k -> (String.length (slice k s) <= Z.to_nat k)%nat.
Proof.
  intros Hk. unfold slice. destruct (Z.leb_spec 0 k); [|lia].
  rewrite length_str_of, length_firstn. lia.
Qed.

Lemma query_to_string_cut
  (to_string_user : LocalFile -> option Z -> bool -> bool -> string)
  (q : Query) (text : string) (n : Z) (name_only ellipsis : bool) :
  is_local q = false ->
  _query q = QStr text ->
  3 <= n ->
  exists out,
    query_to_string to_string_user q (Some n) name_only ellipsis = Ok (QStr out)
    /\ Z.of_nat (String.length out) <= n
    /\ (Z.of_nat (String.length text) <= n -> out = text).
Proof.
  intros Hl Hq Hn. unfold query_to_string. rewrite Hl, Hq. unfold given.
  destruct (Z.eqb_spec n 0); [lia|].
  destruct (Z.ltb_spec n (Z.of_nat (String.length text))) as [Hlt|Hge].
  - destruct ellipsis; eexists; (split; [reflexivity|]); (split; [|lia]).
    + rewrite length_append. pose proof (length_strip (slice (n - 3) text)).
      pose proof (length_slice (n - 3) text). simpl. lia.
    + pose proof (length_strip (slice n text)). pose proof (length_slice n text). lia.
  - eexists. split; [reflexivity|]. split; [lia|reflexivity].
Qed.

(** X17: for a query that is not local, with a maximal length of at least
    3, [query_to_string] returns a string no longer than the maximal
    length, and the text itself when it is short enough. *)
Theorem query_to_string_bounded
  (to_string_user : LocalFile -> option Z -> bool -> bool -> string)
  (q : Query) (text : string) (n : Z) (name_only ellipsis : bool) :
  is_local q = false ->
  _query q = QStr text ->
  3 <= n ->
  exists out,
    query_to_string to_string_user q (Some n) name_only ellipsis = Ok (QStr out)
    /\ Z.of_nat (String.length out) <= n
    /\ (Z.of_nat (String.length text) <= n -> out = text).
Proof. apply query_to_string_cut. Qed.

(** X18: [query_to_queue] with [partial] set puts the source in brackets
    before the text and takes the room for it off the maximal length: the
    result is no longer than a maximal length that leaves at least three
    characters for the text.  When the maximal length is exactly the room
    the source takes, what is left is 0, which [query_to_string] reads as
    no limit: the text is not shortened at all. *)
Theorem query_to_queue_bounded
  (to_string_user : LocalFile -> option Z -> bool -> bool -> string)
  (q : Query) (text : string) (n : Z) (name_only : bool) :
  is_local q = false ->
  _query q = QStr text ->
  n <> 0 ->
  (Z.of_nat (String.length (source q)) + 6 <= n ->
     exists out,
       query_to_queue to_string_user q (Some n) true name_only = Ok (QStr out)
       /\ Z.of_nat (String.length out) <= n)
  /\ (n = Z.of_nat (String.length (source q)) + 3 ->
        query_to_queue to_string_user q (Some n) true name_only
        = Ok (QStr ("(" +:+ source q +:+ ") " +:+ text))).
Proof.
  intros Hl Hq Hn.
  assert (Hg : given (Some n) = Some n).
  { unfold given. destruct (Z.eqb_spec n 0); [contradiction|reflexivity]. }
  unfold query_to_queue. cbv zeta. rewrite Hg. split.
  - intros Hroom.
    destruct (query_to_string_cut to_string_user q text
                (n - (Z.of_nat (String.length (source q)) + 3)) name_only true Hl Hq)
      as (out & -> & Hlen & _); [lia|].
    eexists. split; [reflexivity|]. simpl fmt.
    rewrite !length_append. simpl String.length. lia.
  - intros ->. unfold query_to_string. rewrite Hl, Z.sub_diag. simpl given.
    rewrite Hq. reflexivity.
Qed.

Lemma source_setter_then_identifier_witness :
  is_search lofi = true
  /\ _query lofi = QStr "lofi beats"
  /\ In (lower "SP", "spsearch:") prefixes
  /\ exists q',
      source_setter lofi "SP" = Ok q'
      /\ query_identifier q' = Some (QStr ("spsearch:" +:+ "lofi beats")).
Proof.
  split; [reflexivity|]. split; [reflexivity|]. split; [vm_compute; auto 10|].
  apply (source_setter_then_identifier lofi "lofi beats" "SP" "spsearch:");
    [reflexivity | reflexivity | vm_compute; auto 10].
Defined.

Lemma identifier_of_supported_search_witness :
  SUPPORTED_SEARCHES !! "dzsearch" = Some "Deezer"
  /\ query_identifier (cls_search "lofi beats" "Deezer")
     = Some (QStr ((if String.eqb "dzsearch" "dzsearch" then "ytsearch" else "dzsearch")
                   +:+ ":" +:+ "lofi beats")).
Proof.
  split; [vm_compute; reflexivity|].
  apply (identifier_of_supported_search "dzsearch" "Deezer" "lofi beats").
  vm_compute. reflexivity.
Defined.

Lemma capability_of_source_name_witness :
  _source (cls "" "Apple Music") = __get_source_from_str "apple"
  /\ (requires_capability (cls "" "Apple Music") = "apple" <-> In "apple" capabilities).
Proof.
  split; [reflexivity|].
  apply (capability_of_source_name (cls "" "Apple Music") "apple"). reflexivity.
Defined.

Lemma process_search_never_youtube_witness :
  exists q,
    __process_search ytsearch = Some q
    /\ is_search q = true
    /\ _type q = "single"
    /\ index q = 0 /\ start_time q = 0 /\ _recursive q = false
    /\ In (_source q) ["YouTube Music"; "Spotify"; "SoundCloud"; "Apple Music"]
    /\ exists text, _query q = QStr text.
Proof.
  exists (cls_search "lofi beats" "YouTube Music").
  split; [vm_compute; reflexivity|].
  apply (process_search_never_youtube ytsearch). vm_compute. reflexivity.
Defined.

Lemma query_to_string_bounded_witness :
  is_local long_query = false
  /\ _query long_query = QStr "https://example.com/a/very/long/address"
  /\ 3 <= 12
  /\ exists out,
      query_to_string (fun _ _ _ _ => "") long_query (Some 12) false true = Ok (QStr out)
      /\ Z.of_nat (String.length out) <= 12
      /\ (Z.of_nat (String.length "https://example.com/a/very/long/address") <= 12 ->
          out = "https://example.com/a/very/long/address").
Proof.
  split; [reflexivity|]. split; [reflexivity|]. split; [lia|].
  apply (query_to_string_bounded (fun _ _ _ _ => "") long_query
           "https://example.com/a/very/long/address" 12 false true);
    [reflexivity | reflexivity | lia].
Defined.

Lemma query_to_queue_bounded_witness :
  is_local long_query = false
  /\ _query long_query = QStr "https://example.com/a/very/long/address"
  /\ 7 <> 0
  /\ query_to_queue (fun _ _ _ _ => "") long_query (Some 7) true false
     = Ok (QStr "(HTTP) https://example.com/a/very/long/address").
Proof.
  split; [reflexivity|]. split; [reflexivity|]. split; [lia|].
  destruct (query_to_queue_bounded (fun _ _ _ _ => "") long_query
              "https://example.com/a/very/long/address" 7 false)
    as [_ Hexact]; [reflexivity | reflexivity | lia |].
  apply Hexact. reflexivity.
Defined.

End query_accessor_properties.

(** ** Settings and the messages of the sponsorblock plugin *)

Module settings_properties.

Import py node_features sponsorblock.

Lemma supported_search_keys (v : string) :
  is_Some (SUPPORTED_SEARCHES !! v)
  <-> In v ["ytmsearch"; "ytsearch"; "spsearch"; "scsearch"; "amsearch"; "dzsearch"].
Proof.
  split.
  - intros [src H]. apply elem_of_list_to_map_2 in H. apply list_elem_of_In in H.
    simpl in H. simpl.
    repeat (destruct H as [[= <- _]|H]; [auto 10|]). destruct H.
  - intros H. simpl in H.
    repeat (destruct H as [<-|H]; [eexists; vm_compute; reflexivity|]). destruct H.
Qed.

(** X19: the default search source that env_var.py settles on is always a
    key of SUPPORTED_SEARCHES: the value of PYLAV__DEFAULT_SEARCH_SOURCE
    when that is one, and [dzsearch] when the variable is unset or holds
    anything else.  envvars.py agrees with it as long as the variable is
    unset or holds a key; on any other value its fallback is not reached:
    the second log call reads [keys] of a string and AttributeError is
    raised. *)
Theorem search_source_fallback (environ : gmap string string) :
  let name := "PYLAV__DEFAULT_SEARCH_SOURCE" in
  let chosen := (env_var.DEFAULT_SEARCH_SOURCE environ).1 in
  is_Some (SUPPORTED_SEARCHES !! chosen)
  /\ match environ !! name with
     | None =>
         chosen = "dzsearch"
         /\ (envvars.DEFAULT_SEARCH_SOURCE environ).1 = Ok "dzsearch"
     | Some v =>
         match SUPPORTED_SEARCHES !! v with
         | Some _ => chosen = v /\ (envvars.DEFAULT_SEARCH_SOURCE environ).1 = Ok v
         | None =>
             chosen = "dzsearch"
             /\ (envvars.DEFAULT_SEARCH_SOURCE environ).1 = Raise AttributeError
         end
     end.
Proof.
  intros name chosen. subst name chosen.
  unfold env_var.DEFAULT_SEARCH_SOURCE, envvars.DEFAULT_SEARCH_SOURCE, env_var.getenv.
  destruct (environ !! "PYLAV__DEFAULT_SEARCH_SOURCE") as [v|].
  - destruct (SUPPORTED_SEARCHES !! v) as [src|] eqn:Ev; simpl.
    + split; [rewrite Ev; eauto|auto].
    + split; [eexists; vm_compute; reflexivity|auto].
  - simpl. split; [eexists; vm_compute; reflexivity|]. auto.
Qed.

Lemma normalise_ok (segments : list item) :
  forall temp out,
    normalise segments temp = Ok out ->
    exists added,
      out = temp ++ added
      /\ forallb is_segment added = true
      /\ (List.length added <= List.length segments)%nat
      /\ (forall d, In (IDict d) segments -> exists s, Segment_of d = Ok s).
Proof.
  induction segments as [|i later IH]; intros temp out H; simpl in H.
  - injection H as <-. exists []. rewrite app_nil_r. repeat split; auto.
    intros d [].
  - destruct i as [s|d|v].
    + destruct (IH _ _ H) as (added & -> & Ha & Hl & Hd).
      exists (ISegment s :: added). rewrite <- app_assoc. repeat split; simpl; auto; try lia.
      intros d [[=]|Hin]. auto.
    + destruct (Segment_of d) as [s|e] eqn:Es; [|discriminate].
      destruct (IH _ _ H) as (added & -> & Ha & Hl & Hd).
      exists (ISegment s :: added). rewrite <- app_assoc. repeat split; simpl; auto; try lia.
      intros d' [[= <-]|Hin]; eauto.
    + destruct (IH _ _ H) as (added & -> & Ha & Hl & Hd).
      exists added. repeat split; simpl; auto; try lia.
      intros d [[=]|Hin]. auto.
Qed.

Lemma normalise_segments (l : list item) :
  forall temp, forallb is_segment l = true -> normalise l temp = Ok (temp ++ l).
Proof.
  induction l as [|i l IH]; intros temp H; simpl in *.
  - rewrite app_nil_r. reflexivity.
  - destruct i as [s|d|v]; simpl in H; try discriminate.
    rewrite IH by exact H. rewrite <- app_assoc. reflexivity.
Qed.

Lemma normalise_raise (segments : list item) :
  forall temp e,
    normalise segments temp = Raise e ->
    e = TypeError /\ exists d, In (IDict d) segments /\ Segment_of d = Raise TypeError.
Proof.
  induction segments as [|i later IH]; intros temp e H; simpl in H; [discriminate|].
  destruct i as [s|d|v].
  - destruct (IH _ _ H) as (-> & d & Hin & Hd). split; [reflexivity|]. exists d. simpl. auto.
  - destruct (Segment_of d) as [s|e'] eqn:Es.
    + destruct (IH _ _ H) as (-> & d' & Hin & Hd). split; [reflexivity|]. exists d'. simpl. auto.
    + injection H as <-.
      assert (e' = TypeError) as ->.
      { unfold Segment_of in Es.
        repeat match type of Es with
          | context [match ?x with _ => _ end] => destruct x
          end; congruence. }
      split; [reflexivity|]. exists d. simpl. auto.
  - destruct (IH _ _ H) as (-> & d & Hin & Hd). split; [reflexivity|]. exists d. simpl. auto.
Qed.

(** X20: [SegmentsLoaded.__post_init__] either leaves a list in which
    every element is a [Segment], no longer than the list it was given
    and left as it is by a second run, and then every dictionary of the
    given list had exactly the keys category, start and end; or it raises
    TypeError, and then some dictionary of the list has not. *)
Theorem segments_loaded_outcome (segments : list item) :
  match SegmentsLoaded__post_init__ segments with
  | Ok out =>
      forallb is_segment out = true
      /\ (List.length out <= List.length segments)%nat
      /\ (forall d, In (IDict d) segments -> exists s, Segment_of d = Ok s)
      /\ SegmentsLoaded__post_init__ out = Ok out
  | Raise e =>
      e = TypeError
      /\ exists d, In (IDict d) segments /\ Segment_of d = Raise TypeError
  end.
Proof.
  unfold SegmentsLoaded__post_init__.
  destruct (normalise segments []) as [out|e] eqn:E.
  - destruct (normalise_ok _ _ _ E) as (added & -> & Ha & Hl & Hd). simpl.
    repeat split; auto. apply (normalise_segments added []). exact Ha.
  - exact (normalise_raise _ _ _ E).
Qed.

End settings_properties.

(** ** The connection: what is sent, how often it is tried, how it ends *)

Module lifecycle_properties.

Import py websocket websocket_lifecycle samples scenarios websocket_properties.

(** X21: [send] neither loses nor doubles a payload.  Unless the socket
    was shut down by hand, in which case the payload is dropped and
    nothing changes, the payload is either handed to the transport, as the
    last one, with the queue as it was, or appended to the queue with
    nothing handed to the transport: the latter when the socket is not
    connected or the connection is reset during the call. *)
Theorem send_keeps_payload (w : WebSocket) (data : gmap string json) :
  let w' := (send w data).1 in
  if _manual_shutdown w then w' = w
  else
    (wire_of w' = wire_of w ++ [data] /\ _message_queue w' = _message_queue w)
    \/ (wire_of w' = wire_of w /\ _message_queue w' = _message_queue w ++ [data]).
Proof.
  unfold send. destruct (_manual_shutdown w); [reflexivity|].
  unfold connected, wire_of. destruct (_ws w) as [ws|] eqn:Ew;
    [|right; simpl; rewrite Ew; auto].
  destruct (negb (closed ws) && ready w); [|right; simpl; rewrite Ew; auto].
  unfold send_json. destruct (resets ws) as [|[|] later]; simpl; rewrite ?Ew; auto.
Qed.

(** *** The attempts of the connect loop *)

Lemma attempts_made_app (a b : list effect) :
  attempts_made (a ++ b) = (attempts_made a + attempts_made b)%nat.
Proof. unfold attempts_made. rewrite List.filter_app, length_app. reflexivity. Qed.

Lemma send_no_fetch (w : WebSocket) (d : gmap string json) : attempts_made (send w d).2 = 0%nat.
Proof.
  unfold send. destruct (_manual_shutdown w); [reflexivity|].
  destruct (connected w); [|reflexivity].
  destruct (_ws w); [|reflexivity].
  destruct (send_json _ _) as [ws' [|]]; reflexivity.
Qed.

Lemma send_all_no_fetch (l : list (gmap string json)) :
  forall w, attempts_made (send_all l w).2 = 0%nat.
Proof.
  induction l as [|m l IH]; intros w; simpl; [reflexivity|].
  pose proof (send_no_fetch w m) as H1. destruct (send w m) as [w1 e1].
  pose proof (IH w1) as H2. destruct (send_all l w1) as [w2 e2]. simpl in *.
  rewrite attempts_made_app, H1, H2. reflexivity.
Qed.

Lemma flush_no_fetch (w : WebSocket) : attempts_made (flush w).2 = 0%nat.
Proof.
  unfold flush. destruct (_message_queue w) as [|m l]; [reflexivity|].
  pose proof (send_all_no_fetch (m :: l) w) as H. destruct (send_all (m :: l) w). exact H.
Qed.

Lemma try_open_max (env : attempt_env) (w : WebSocket) :
  _max_reconnect_attempts (try_open env w).1 = _max_reconnect_attempts w.
Proof.
  unfold try_open. destruct (ws_connect env); [|reflexivity].
  destruct (update_features env); reflexivity.
Qed.

Lemma connect_loop_attempts (envs : list attempt_env) :
  forall attempt w,
    _max_reconnect_attempts w <> -1 ->
    Z.of_nat (attempts_made (connect_loop envs attempt w).1.2)
    <= Z.max 0 (_max_reconnect_attempts w - attempt).
Proof.
  induction envs as [|env envs IH]; intros attempt w Hmax.
  - simpl. destruct (_ && _); unfold attempts_made; simpl; lia.
  - simpl.
    destruct (negb (connected w)); simpl; [|unfold attempts_made; simpl; lia].
    destruct (_max_reconnect_attempts w =? -1) eqn:E1; [lia|]. simpl.
    destruct (attempt <? _max_reconnect_attempts w) eqn:E2;
      [|unfold attempts_made; simpl; lia].
    apply Z.ltb_lt in E2.
    destruct (_manual_shutdown _); [unfold attempts_made; simpl; lia|].
    rewrite emit_trace, attempts_made_app.
    change (attempts_made [Log INFO _; FetchApiVersion]) with 1%nat.
    destruct (fetch_api_version env) as [v|e]; [|unfold attempts_made; simpl; lia].
    destruct (falsy v); [unfold attempts_made; simpl; lia|].
    pose proof (try_open_max env
                  (set_api_version
                     (if websocket.manual_closure env then set_manual_shutdown w true else w) v))
      as Ht.
    assert (Hm : _max_reconnect_attempts
                   (set_api_version
                      (if websocket.manual_closure env then set_manual_shutdown w true else w) v)
                 = _max_reconnect_attempts w) by (destruct (websocket.manual_closure env); reflexivity).
    rewrite Hm in Ht.
    destruct (try_open env _) as [w1 [f|]]; simpl in Ht.
    + rewrite emit_trace, attempts_made_app.
      change (attempts_made [WsConnect (Some f)]) with 0%nat.
      assert (Hrec : forall pre, attempts_made pre = 0%nat ->
                Z.of_nat (1 + (0 + attempts_made (emit pre (connect_loop envs (attempt + 1) w1)).1.2))
                <= Z.max 0 (_max_reconnect_attempts w - attempt)).
      { intros pre Hpre. rewrite emit_trace, attempts_made_app, Hpre.
        specialize (IH (attempt + 1) w1). rewrite Ht in IH. specialize (IH Hmax). lia. }
      destruct f as [|status| |e]; try destruct (is_shutting_down env);
        try destruct ((status =? 401) || (status =? 403));
        try (apply Hrec; reflexivity); unfold attempts_made; simpl; lia.
    + pose proof (flush_no_fetch w1) as Hf. destruct (flush w1) as [w2 sent].
      cbn [fst snd].
      unfold attempts_made in *. simpl in *.
      rewrite List.filter_app, length_app, Hf. simpl. lia.
Qed.

(** X22: with a finite [_max_reconnect_attempts], a call of [connect]
    asks the node for its version, and so starts an attempt, at most that
    many times, whatever the node answers. *)
Theorem connect_attempts_bounded (env : connect_env) (w : WebSocket) :
  _max_reconnect_attempts w <> -1 ->
  Z.of_nat (attempts_made (connect env w).1.2) <= Z.max 0 (_max_reconnect_attempts w).
Proof.
  intros Hmax. unfold connect.
  destruct (shutting_down_at_start env); [unfold attempts_made; simpl; lia|].
  destruct (region env); [unfold attempts_made; simpl; lia|].
  pose proof (connect_loop_attempts (attempts env) 0
                (set_connecting (set_ready w false) true) Hmax) as H.
  simpl in H. rewrite Z.sub_0_r in H. exact H.
Qed.

(** *** Closing and the read loop *)

Lemma close_socket_fields (closing : bool) (w : WebSocket) :
  _manual_shutdown (close_socket closing w).1 = _manual_shutdown w
  /\ _message_queue (close_socket closing w).1 = _message_queue w
  /\ _player_reconnect_tasks (close_socket closing w).1 = _player_reconnect_tasks w
  /\ _resuming_configured (close_socket closing w).1 = _resuming_configured w.
Proof.
  unfold close_socket. destruct (_ws w) as [ws|]; [|auto].
  destruct (negb (closed ws) && negb closing); auto.
Qed.

Lemma close_socket_acts (closing : bool) (w : WebSocket) :
  (close_socket closing w).2
  = match _ws w with
    | Some ws => if negb (closed ws) && negb closing then [WsClose 4014] else []
    | None => []
    end.
Proof.
  unfold close_socket. destruct (_ws w) as [ws|]; [|reflexivity].
  destruct (negb (closed ws) && negb closing); reflexivity.
Qed.

Lemma websocket_closed_outcome (code : option Z) (reason : option string)
  (cancelled closing : bool) (s : sys) :
  _websocket_closed code reason cancelled closing s
  = ({| self := set_ws (self s) None; tasks := tasks s |},
     [Did (Log INFO "WebSocket disconnected with the following: code=%s reason=%s");
      NodeDisconnect code reason]
     ++ (if cancelled then [] else [CancelConnectTask])
     ++ (if _manual_shutdown (self s) then [CancelConnectTask; SessionClose]
         else [ScheduleConnect])).
Proof.
  unfold _websocket_closed, close, close_socket. simpl.
  destruct (_manual_shutdown (self s)); simpl; rewrite <- ?app_assoc; reflexivity.
Qed.

(** X23: after [manual_closure] the socket is forgotten and
    [_manual_shutdown] is what was passed as [managed_node]; the queue,
    the registry of reconnect probes and the probes themselves are left
    as they were.  With [managed_node] false, the default, a new connect
    is scheduled, once, and the session stays open; with [managed_node]
    true no connect is scheduled and the session is closed.  The close
    frame with code 4014 is sent exactly when there was a socket that was
    neither closed nor closing. *)
Theorem manual_closure_outcome (managed_node cancelled closing : bool) (s : sys) :
  let '(s', acts) := websocket_lifecycle.manual_closure managed_node cancelled closing s in
  _ws (self s') = None
  /\ _manual_shutdown (self s') = managed_node
  /\ _message_queue (self s') = _message_queue (self s)
  /\ _player_reconnect_tasks (self s') = _player_reconnect_tasks (self s)
  /\ tasks s' = tasks s
  /\ reconnects acts = (if managed_node then 0 else 1)%nat
  /\ (In SessionClose acts <-> managed_node = true)
  /\ (In (WsClose 4014) acts
      <-> exists ws, _ws (self s) = Some ws /\ closed ws = false /\ closing = false).
Proof.
  unfold websocket_lifecycle.manual_closure.
  pose proof (close_socket_fields closing (set_manual_shutdown (self s) managed_node))
    as (Hm & Hq & Hr & _).
  pose proof (close_socket_acts closing (set_manual_shutdown (self s) managed_node)) as Ha.
  destruct (close_socket closing _) as [w closed_now]. simpl in Hm, Hq, Hr, Ha.
  rewrite websocket_closed_outcome. cbv beta iota.
  cbn [self tasks _ws set_ws _manual_shutdown _message_queue _player_reconnect_tasks].
  rewrite Hm.
  split; [reflexivity|]. split; [reflexivity|]. split; [exact Hq|]. split; [exact Hr|].
  split; [reflexivity|]. subst closed_now.
  assert (Hacts : forall pre : list act,
            (forall a, In a pre -> a = WsClose 4014) ->
            reconnects
              (pre ++ [Did (Log INFO "WebSocket disconnected with the following: code=%s reason=%s");
                       NodeDisconnect (Some 202) (Some "Manual websocket shutdown requested")]
                   ++ (if cancelled then [] else [CancelConnectTask])
                   ++ (if managed_node then [CancelConnectTask; SessionClose]
                       else [ScheduleConnect]))
            = (if managed_node then 0 else 1)%nat
            /\ (In SessionClose
                  (pre ++ [Did (Log INFO "WebSocket disconnected with the following: code=%s reason=%s");
                           NodeDisconnect (Some 202) (Some "Manual websocket shutdown requested")]
                       ++ (if cancelled then [] else [CancelConnectTask])
                       ++ (if managed_node then [CancelConnectTask; SessionClose]
                           else [ScheduleConnect]))
                <-> managed_node = true)
            /\ (In (WsClose 4014)
                  (pre ++ [Did (Log INFO "WebSocket disconnected with the following: code=%s reason=%s");
                           NodeDisconnect (Some 202) (Some "Manual websocket shutdown requested")]
                       ++ (if cancelled then [] else [CancelConnectTask])
                       ++ (if managed_node then [CancelConnectTask; SessionClose]
                           else [ScheduleConnect]))
                <-> pre <> [])).
  { intros pre Hpre. split; [|split].
    - unfold reconnects. rewrite List.filter_app, length_app.
      assert (Hp : List.filter is_schedule pre = []).
      { clear -Hpre. induction pre as [|a pre IH]; [reflexivity|]. simpl.
        rewrite (Hpre a (or_introl eq_refl)). simpl. apply IH.
        intros b Hb. apply Hpre. right. exact Hb. }
      rewrite Hp. destruct cancelled, managed_node; reflexivity.
    - rewrite in_app_iff. split.
      + intros [H|H]; [apply Hpre in H; discriminate|].
        destruct cancelled, managed_node; simpl in H; intuition discriminate.
      + intros ->. right. destruct cancelled; simpl; auto 10.
    - rewrite in_app_iff. split.
      + intros [H|H]; [intros ->; destruct H|].
        destruct cancelled, managed_node; simpl in H; intuition discriminate.
      + intros Hne. left. destruct pre as [|a pre]; [congruence|].
        left. apply Hpre. left. reflexivity. }
  destruct (_ws (self s)) as [ws|] eqn:Ew; cbn [_ws set_manual_shutdown].
  - destruct (negb (closed ws) && negb closing) eqn:Eb.
    + destruct (Hacts [WsClose 4014]) as (H1 & H2 & H3).
      { intros a [<-|[]]. reflexivity. }
      split; [exact H1|]. split; [exact H2|]. rewrite H3.
      apply andb_true_iff in Eb as [Ec Eg].
      apply negb_true_iff in Ec, Eg.
      split; [intros _; exists ws; auto|intros _; discriminate].
    + destruct (Hacts []) as (H1 & H2 & H3); [intros a []|].
      split; [exact H1|]. split; [exact H2|]. rewrite H3.
      split; [congruence|]. intros (ws' & [= <-] & Hc & ->).
      rewrite Hc in Eb. discriminate.
  - destruct (Hacts []) as (H1 & H2 & H3); [intros a []|].
    split; [exact H1|]. split; [exact H2|]. rewrite H3.
    split; [congruence|]. intros (ws' & [=] & _).
Qed.

Lemma patches_app (a b : list act) : patches (a ++ b) = (patches a + patches b)%nat.
Proof. unfold patches. rewrite List.filter_app, length_app. reflexivity. Qed.

Lemma reconnects_app (a b : list act) :
  reconnects (a ++ b) = (reconnects a + reconnects b)%nat.
Proof. unfold reconnects. rewrite List.filter_app, length_app. reflexivity. Qed.

Lemma reconnects_did (tr : list effect) : reconnects (map Did tr) = 0%nat.
Proof. induction tr as [|e tr IH]; [reflexivity|exact IH]. Qed.

Lemma flags_kept_same (s : sys) (res : result unit) (tr : list effect) :
  patches (map Did tr) = 0%nat -> flags_kept s (res, s, tr).
Proof. intros H. unfold flags_kept. simpl. rewrite H. repeat split; auto; lia. Qed.

Lemma handle_player_update_flags (env : client_env) (data : response_object) (s : sys) :
  flags_kept s (handle_player_update env data s).
Proof.
  unfold handle_player_update.
  destruct (int (guildId data)) as [g|e]; [|apply flags_kept_same; reflexivity].
  destruct (player_manager_get env g) as [p|]; [|apply flags_kept_same; reflexivity].
  destruct (_ && _); [|apply flags_kept_same; reflexivity].
  destruct (_player_reconnect_tasks (self s) !! guild_id p) as [tid|];
    unfold flags_kept, patches; simpl; repeat split; auto; lia.
Qed.

Lemma handle_event_flags (env : client_env) (data : event_data) (s : sys) :
  flags_kept s (handle_event env data s).
Proof.
  unfold handle_event.
  destruct (client_is_shutting_down env); [apply flags_kept_same; reflexivity|].
  destruct data as [o|d]; [|apply flags_kept_same; reflexivity].
  destruct (int (guildId o)) as [g|e]; [|apply flags_kept_same; reflexivity].
  destruct (player_manager_get env g) as [p|];
    [|destruct (player_manager_get_later env g) as [p|]];
    try (apply flags_kept_same; reflexivity);
    unfold emit_h;
    repeat match goal with
      | |- context [if ?c then _ else _] => destruct c
      | |- context [match current ?p with _ => _ end] => destruct (current p)
      end; apply flags_kept_same; reflexivity.
Qed.

Lemma handle_ready_flags (data : response_object) (s : sys) :
  flags_kept s (handle_ready data s).
Proof.
  unfold handle_ready, configure_resume_and_timeout, emit_h, flags_kept, patches. simpl.
  destruct (_resuming_configured (self s)) eqn:Ec; simpl.
  - repeat split; auto; try lia; try discriminate.
  - destruct (truthy_str _ && _); simpl; repeat split; auto; try lia; discriminate.
Qed.

Lemma handle_message_flags (env : client_env) (data : gmap string json) (s : sys) :
  flags_kept s (handle_message env data s).
Proof.
  unfold handle_message, parse_then.
  destruct (data !! "op") as [op|]; [|apply flags_kept_same; reflexivity].
  destruct (str_is op "playerUpdate").
  { destruct (from_dict _ _ _); [apply handle_player_update_flags
                                |apply flags_kept_same; reflexivity]. }
  destruct (str_is op "stats").
  { destruct (from_dict _ _ _); apply flags_kept_same; reflexivity. }
  destruct (str_is op "event").
  { destruct (data !! "type") as [t|]; [|apply flags_kept_same; reflexivity].
    destruct (event_class t) as [cls|].
    - destruct (from_dict _ _ _); [apply handle_event_flags
                                  |apply flags_kept_same; reflexivity].
    - pose proof (handle_event_flags env (Unparsed data) s) as H.
      destruct (handle_event env (Unparsed data) s) as [[res s1] tr].
      unfold emit_h, flags_kept in *. simpl in *. exact H. }
  destruct (str_is op "ready").
  { destruct (from_dict _ _ _); [apply handle_ready_flags
                                |apply flags_kept_same; reflexivity]. }
  apply flags_kept_same; reflexivity.
Qed.

Lemma websocket_closed_tail (code : option Z) (reason : option string)
  (closing : bool) (s : sys) :
  _manual_shutdown (self s) = false ->
  exists before,
    _websocket_closed code reason false closing s
    = ({| self := set_ws (self s) None; tasks := tasks s |}, before ++ [ScheduleConnect])
    /\ reconnects before = 0%nat /\ patches before = 0%nat.
Proof.
  intros Hm. rewrite websocket_closed_outcome, Hm.
  exists [Did (Log INFO "WebSocket disconnected with the following: code=%s reason=%s");
          NodeDisconnect code reason; CancelConnectTask].
  repeat split; reflexivity.
Qed.

(** X24: when [_listen] starts on a socket that was not shut down by hand
    and the client is not shutting down, then whatever the socket yields,
    frames whose handler raises included, [_listen] ends with the socket
    forgotten, and the last thing it does, and does once, is to schedule
    a new connect. *)
Theorem listen_ends_with_reconnect (msgs : list (client_env * WSMessage))
  (closing : bool) (s : sys) :
  _manual_shutdown (self s) = false ->
  Forall (fun m => client_is_shutting_down m.1 = false) msgs ->
  let '(s', acts) := _listen msgs closing s in
  _ws (self s') = None
  /\ exists before, acts = before ++ [ScheduleConnect] /\ reconnects before = 0%nat.
Proof.
  revert s. induction msgs as [|[env msg] later IH]; intros s Hm Hall.
  - simpl. destruct (websocket_closed_tail None None closing s Hm) as (b & -> & Hb & _).
    split; [reflexivity|]. exists b. auto.
  - simpl. rewrite Hm. inversion Hall as [|? ? Henv Hlater]; subst. simpl in Henv.
    destruct msg as [code extra|[data|e]].
    + destruct (websocket_closed_tail code extra closing s Hm) as (b & -> & Hb & _).
      split; [reflexivity|].
      exists ([received; Did (Log INFO "Received close frame with code %s")] ++ b).
      rewrite <- app_assoc. split; [reflexivity|]. rewrite reconnects_app, Hb. reflexivity.
    + pose proof (handle_message_flags env data s) as (Hk & _).
      destruct (handle_message env data s) as [[[[]|e] s1] tr]; simpl in Hk.
      * rewrite <- Hk in Hm. specialize (IH s1 Hm Hlater).
        destruct (_listen later closing s1) as [s' acts].
        destruct IH as (Hws & b & -> & Hb). split; [exact Hws|].
        exists (received :: map Did tr ++ b).
        split; [simpl; rewrite <- app_assoc; reflexivity|].
        change (received :: map Did tr ++ b) with ([received] ++ map Did tr ++ b).
        rewrite !reconnects_app, reconnects_did, Hb. reflexivity.
      * unfold listen_except. rewrite Henv. rewrite <- Hk in Hm.
        destruct (websocket_closed_tail None None closing s1 Hm) as (b & -> & Hb & _).
        split; [reflexivity|].
        exists (received :: map Did tr ++ Did (Log ERROR "Exception in WebSocket!") :: b).
        split; [simpl; rewrite <- app_assoc; reflexivity|].
        change (received :: map Did tr ++ Did (Log ERROR "Exception in WebSocket!") :: b)
          with ([received] ++ map Did tr ++ [Did (Log ERROR "Exception in WebSocket!")] ++ b).
        rewrite !reconnects_app, reconnects_did, Hb. reflexivity.
    + unfold listen_except. rewrite Henv.
      destruct (websocket_closed_tail None None closing s Hm) as (b & -> & Hb & _).
      split; [reflexivity|].
      exists (received :: Did (Log ERROR "Exception in WebSocket!") :: b).
      split; [reflexivity|].
      change (received :: Did (Log ERROR "Exception in WebSocket!") :: b)
        with ([received; Did (Log ERROR "Exception in WebSocket!")] ++ b).
      rewrite reconnects_app, Hb. reflexivity.
Qed.

Lemma patches_skip (a : act) (l : list act) :
  is_patch_act a = false -> patches (a :: l) = patches l.
Proof. intros H. unfold patches. simpl. rewrite H. reflexivity. Qed.

Lemma websocket_closed_patches (code : option Z) (reason : option string)
  (cancelled closing : bool) (s : sys) :
  patches (_websocket_closed code reason cancelled closing s).2 = 0%nat
  /\ _resuming_configured (self (_websocket_closed code reason cancelled closing s).1)
     = _resuming_configured (self s).
Proof.
  rewrite websocket_closed_outcome. simpl.
  destruct cancelled, (_manual_shutdown (self s)); split; reflexivity.
Qed.

Lemma listen_except_patches (env : client_env) (closing : bool) (s : sys) :
  patches (listen_except env closing s).2 = 0%nat
  /\ _resuming_configured (self (listen_except env closing s).1)
     = _resuming_configured (self s).
Proof.
  unfold listen_except. destruct (client_is_shutting_down env); [split; reflexivity|].
  pose proof (websocket_closed_patches None None false closing s) as H.
  destruct (_websocket_closed None None false closing s) as [s' acts]. exact H.
Qed.

(** X25: during a run of [_listen], resuming is configured at most once
    however many ready frames arrive, and only if it had not been
    configured before; once [_resuming_configured] is set it stays set,
    also over the closing of the socket. *)
Theorem resume_configured_once (msgs : list (client_env * WSMessage))
  (closing : bool) (s : sys) :
  let '(s', acts) := _listen msgs closing s in
  (patches acts <= 1)%nat
  /\ (0 < patches acts -> _resuming_configured (self s) = false)%nat
  /\ (_resuming_configured (self s) = true \/ 0 < patches acts
      -> _resuming_configured (self s') = true)%nat.
Proof.
  revert s. induction msgs as [|[env msg] later IH]; intros s.
  - simpl. pose proof (websocket_closed_patches None None false closing s) as [Hp Hc].
    destruct (_websocket_closed None None false closing s) as [s' acts]. simpl in Hp, Hc.
    rewrite Hp, Hc. repeat split; [lia|lia|intros [H|H]; [exact H|lia]].
  - simpl. destruct (_manual_shutdown (self s)).
    { unfold patches. simpl. repeat split; [lia|lia|intros [H|H]; [exact H|lia]]. }
    destruct msg as [code extra|[data|e]].
    + pose proof (websocket_closed_patches code extra false closing s) as [Hp Hc].
      destruct (_websocket_closed code extra false closing s) as [s' acts].
      simpl in Hp, Hc. rewrite !patches_skip by reflexivity. rewrite Hp, Hc.
      repeat split; [lia|lia|intros [H|H]; [exact H|lia]].
    + pose proof (handle_message_flags env data s) as (_ & H1 & H2 & H3).
      destruct (handle_message env data s) as [[[[]|e] s1] tr]; simpl in H1, H2, H3.
      * specialize (IH s1). destruct (_listen later closing s1) as [s' acts].
        destruct IH as (I1 & I2 & I3).
        rewrite patches_skip by reflexivity. rewrite patches_app.
        destruct (_resuming_configured (self s)) eqn:Ec.
        -- destruct (H2 eq_refl) as [H2a H2b]. rewrite H2a.
           destruct (_resuming_configured (self s1)); [|discriminate].
           assert (patches acts = 0)%nat.
           { destruct (patches acts); [reflexivity|]. assert (true = false); [apply I2; lia|discriminate]. }
           repeat split; [lia|lia|auto].
        -- assert (Hcase : (patches (map Did tr) = 0 \/ patches (map Did tr) = 1)%nat) by lia.
           destruct Hcase as [H0|H1'].
           ++ rewrite H0. repeat split; [simpl; lia|]. simpl.
              intros [H|H]; [discriminate|].
              apply I3. right. exact H.
           ++ rewrite H1'. specialize (H3 H1').
              assert (patches acts = 0)%nat.
              { destruct (patches acts); [reflexivity|].
                rewrite H3 in I2. assert (true = false); [apply I2; lia|discriminate]. }
              repeat split; [lia|]. intros _. apply I3. left. exact H3.
      * pose proof (listen_except_patches env closing s1) as [Hp Hc].
        destruct (listen_except env closing s1) as [s' acts]. simpl in Hp, Hc.
        rewrite patches_skip by reflexivity. rewrite patches_app, Hp, Hc.
        destruct (_resuming_configured (self s)) eqn:Ec.
        -- destruct (H2 eq_refl) as [H2a H2b]. rewrite H2a.
           repeat split; [lia|lia|auto].
        -- repeat split; [lia|]. intros [H|H]; [discriminate|]. apply H3. lia.
    + pose proof (listen_except_patches env closing s) as [Hp Hc].
      destruct (listen_except env closing s) as [s' acts]. simpl in Hp, Hc.
      rewrite patches_skip by reflexivity. rewrite Hp, Hc.
      repeat split; [lia|simpl; lia|intros [H|H]; [exact H|simpl in H; lia]].
Qed.

(** X26: an event frame of a type the client does not know ends the read
    loop: the exception it raises in [handle_message] is taken for a
    failure of the socket, the socket is forgotten, the node is reported
    as disconnected and a new connect is scheduled; the frames that were
    to follow are not handled. *)
Theorem unknown_event_drops_connection (env : client_env) (data : gmap string json)
  (t : json) (later : list (client_env * WSMessage)) (closing : bool) (s : sys) :
  data !! "op" = Some (JStr "event") ->
  data !! "type" = Some t ->
  event_class t = None ->
  client_is_shutting_down env = false ->
  _manual_shutdown (self s) = false ->
  _listen ((env, Message (Ok data)) :: later) closing s
  = ({| self := set_ws (self s) None; tasks := tasks s |},
     [received;
      Did (Log WARNING "Received unknown event: %s");
      Did (Log ERROR "Exception in WebSocket!");
      Did (Log INFO "WebSocket disconnected with the following: code=%s reason=%s");
      NodeDisconnect None None;
      CancelConnectTask;
      ScheduleConnect]).
Proof.
  intros Hop Ht Hc Hs Hm. simpl. rewrite Hm.
  rewrite (unknown_event_raises env data t s Hop Ht Hc Hs).
  unfold listen_except. rewrite Hs, websocket_closed_outcome, Hm. reflexivity.
Qed.

Lemma connect_attempts_bounded_witness :
  _max_reconnect_attempts two_attempts <> -1
  /\ Z.of_nat (attempts_made (connect unreachable two_attempts).1.2)
     <= Z.max 0 (_max_reconnect_attempts two_attempts).
Proof.
  split; [discriminate|].
  apply (connect_attempts_bounded unreachable two_attempts). discriminate.
Defined.

(** Of the five passes in which the node could have been tried, two are
    made. *)
Example two_attempts_made :
  attempts_made (connect unreachable two_attempts).1.2 = 2%nat
  /\ (connect unreachable two_attempts).2 = Returned.
Proof. split; vm_compute; reflexivity. Qed.

Lemma listen_ends_with_reconnect_witness :
  _manual_shutdown (self new_socket) = false
  /\ Forall (fun m => client_is_shutting_down m.1 = false) session
  /\ let '(s', acts) := _listen session false new_socket in
     _ws (self s') = None
     /\ exists before, acts = before ++ [ScheduleConnect] /\ reconnects before = 0%nat.
Proof.
  split; [reflexivity|]. split; [repeat constructor|].
  apply (listen_ends_with_reconnect session false new_socket);
    [reflexivity | repeat constructor].
Defined.

Lemma unknown_event_drops_connection_witness :
  unknown_event !! "op" = Some (JStr "event")
  /\ unknown_event !! "type" = Some (JStr "PlayerPausedEvent")
  /\ event_class (JStr "PlayerPausedEvent") = None
  /\ client_is_shutting_down running_client = false
  /\ _manual_shutdown (self new_socket) = false
  /\ _listen ((running_client, Message (Ok unknown_event)) :: later_frames) false new_socket
     = ({| self := set_ws (self new_socket) None; tasks := tasks new_socket |},
        [received;
         Did (Log WARNING "Received unknown event: %s");
         Did (Log ERROR "Exception in WebSocket!");
         Did (Log INFO "WebSocket disconnected with the following: code=%s reason=%s");
         NodeDisconnect None None;
         CancelConnectTask;
         ScheduleConnect]).
Proof.
  split; [reflexivity|]. split; [reflexivity|]. split; [reflexivity|].
  split; [reflexivity|]. split; [reflexivity|].
  apply (unknown_event_drops_connection running_client unknown_event
           (JStr "PlayerPausedEvent") later_frames false new_socket); reflexivity.
Defined.

End lifecycle_properties.
